(** * sasquatch-mcp: the wikitext normaliser and the page store

    A shallow embedding of [src/wiki-parser.ts] and [src/database.ts].

    JavaScript strings are sequences of UTF-16 code units; they are modelled
    as lists of [N].  The regular expressions of the parser are kept as
    syntax trees, one per literal of the source, and run by a backtracking
    matcher that follows the ECMAScript matching order (leftmost alternative
    first, greedy and lazy stars, captures, the [i], [m] and [s] flags). *)

From Stdlib Require Import NArith List Bool String Ascii Lia Arith Permutation Sorted
  DecimalString.
From stdpp Require Import gmultiset.
Import ListNotations.

Local Open Scope N_scope.

(** ** Strings of code units *)

Abbreviation char := N (only parsing).
Abbreviation str := (list N) (only parsing).

Definition ch (a : ascii) : char := N_of_ascii a.
Definition js (s : string) : str := map N_of_ascii (list_ascii_of_string s).

Fixpoint str_eqb (a b : str) : bool :=
  match a, b with
  | [], [] => true
  | x :: a', y :: b' => (x =? y) && str_eqb a' b'
  | _, _ => false
  end.

(** [LineTerminator] and [WhiteSpace] of ECMAScript: what [.], [^], [$],
    [\s] and [String.prototype.trim] look at. *)
Definition is_line_terminator (c : char) : bool :=
  (c =? 10) || (c =? 13) || (c =? 0x2028) || (c =? 0x2029).

Definition is_space (c : char) : bool :=
  ((9 <=? c) && (c <=? 13)) || (c =? 32) || (c =? 160) || (c =? 0x1680)
  || ((0x2000 <=? c) && (c <=? 0x200a)) || (c =? 0x2028) || (c =? 0x2029)
  || (c =? 0x202f) || (c =? 0x205f) || (c =? 0x3000) || (c =? 0xfeff).

Definition is_digit (c : char) : bool := (48 <=? c) && (c <=? 57).
Definition is_upper (c : char) : bool := (65 <=? c) && (c <=? 90).
Definition is_lower (c : char) : bool := (97 <=? c) && (c <=? 122).

(** [\w] is [[A-Za-z0-9_]]. *)
Definition is_word (c : char) : bool :=
  is_upper c || is_lower c || is_digit c || (c =? 95).

Definition ascii_upper (c : char) : char := if is_lower c then c - 32 else c.
Definition ascii_lower (c : char) : char := if is_upper c then c + 32 else c.

(** [String.prototype.toLowerCase].  The result is only ever compared with
    ASCII template names, so the mapping is written out for the code units
    whose lower-case form contains an ASCII letter: [A-Z], the Kelvin sign
    (U+212A, lower case [k]) and dotted capital I (U+0130, lower case [i]
    followed by U+0307).  Every other code unit lower-cases to non-ASCII
    text and is kept as it is. *)
Definition lower_unit (c : char) : str :=
  if is_upper c then [c + 32]
  else if c =? 0x212a then [107]
  else if c =? 0x130 then [105; 0x307]
  else [c].

Definition toLowerCase (s : str) : str := flat_map lower_unit s.

Fixpoint drop_space (s : str) : str :=
  match s with
  | c :: t => if is_space c then drop_space t else s
  | [] => []
  end.

Definition trim (s : str) : str := rev (drop_space (rev (drop_space s))).

Fixpoint startsWith (s p : str) : bool :=
  match p, s with
  | [], _ => true
  | y :: p', x :: s' => (x =? y) && startsWith s' p'
  | _ :: _, [] => false
  end.

Fixpoint join (sep : str) (l : list str) : str :=
  match l with
  | [] => []
  | [a] => a
  | a :: l' => a ++ sep ++ join sep l'
  end.

(** [s.split(sep)] for a non-empty separator string. *)
Fixpoint split_go (sep : str) (skip : nat) (cur : str) (s : str) : list str :=
  match s with
  | [] => [rev cur]
  | x :: t =>
      match skip with
      | S k => split_go sep k cur t
      | O =>
          if startsWith s sep
          then rev cur :: split_go sep (length sep - 1) [] t
          else split_go sep O (x :: cur) t
      end
  end.

Definition split (sep s : str) : list str := split_go sep O [] s.

(** ** Regular expressions *)

Record flags := { ignoreCase : bool; multiline : bool; dotAll : bool }.

Definition fl_none := {| ignoreCase := false; multiline := false; dotAll := false |}.
Definition fl_i := {| ignoreCase := true; multiline := false; dotAll := false |}.
Definition fl_m := {| ignoreCase := false; multiline := true; dotAll := false |}.
Definition fl_s := {| ignoreCase := false; multiline := false; dotAll := true |}.

Inductive cls_item :=
| CChr (c : char)
| CRange (lo hi : char)
| CWord
| CDigit
| CSpace
| CNotSpace.

Inductive re :=
| Eps
| Chr (c : char)
| Dot
| Cls (neg : bool) (items : list cls_item)
| Bol
| Eol
| Seq (a b : re)
| Alt (a b : re)
| Star (greedy : bool) (a : re)
| Grp (n : nat) (a : re).

Record mstate := { prev : option char; rest : str; caps : list (nat * str) }.

Definition item_has (it : cls_item) (x : char) : bool :=
  match it with
  | CChr c => x =? c
  | CRange lo hi => (lo <=? x) && (x <=? hi)
  | CWord => is_word x
  | CDigit => is_digit x
  | CSpace => is_space x
  | CNotSpace => negb (is_space x)
  end.

(** With the [i] flag two code units match when their canonical (upper-case)
    forms agree; every pattern of this program is ASCII, and a non-ASCII
    code unit never canonicalises to an ASCII one, so the ASCII case swap
    decides it. *)
Definition chr_match (f : flags) (c x : char) : bool :=
  if ignoreCase f then ascii_upper c =? ascii_upper x else c =? x.

Definition cls_has (f : flags) (items : list cls_item) (x : char) : bool :=
  existsb (fun it =>
    item_has it x
    || (ignoreCase f && (item_has it (ascii_upper x) || item_has it (ascii_lower x))))
    items.

Definition advance (x : char) (t : str) (st : mstate) : mstate :=
  {| prev := Some x; rest := t; caps := caps st |}.

Definition at_bol (f : flags) (st : mstate) : bool :=
  match prev st with
  | None => true
  | Some p => multiline f && is_line_terminator p
  end.

Definition at_eol (f : flags) (st : mstate) : bool :=
  match rest st with
  | [] => true
  | x :: _ => multiline f && is_line_terminator x
  end.

(** The text consumed between two states of one match. *)
Definition consumed (st st' : mstate) : str :=
  firstn (length (rest st) - length (rest st')) (rest st).

Definition set_cap (n : nat) (s : str) (st : mstate) : mstate :=
  {| prev := prev st; rest := rest st; caps := (n, s) :: caps st |}.

Definition or_else {A} (a b : option A) : option A :=
  match a with Some _ => a | None => b end.

(** One star: [ma] matches the body.  An iteration that consumes nothing is
    given up, as in ECMAScript, so the remaining input gets shorter with each
    one and [n], which starts as its length, never runs out before it does. *)
Fixpoint star_loop (ma : (mstate -> option mstate) -> mstate -> option mstate)
  (greedy : bool) (k : mstate -> option mstate) (n : nat) (st : mstate)
  {struct n} : option mstate :=
  match n with
  | O => k st
  | S n' =>
      let again :=
        ma (fun st' =>
              if (length (rest st') <? length (rest st))%nat
              then star_loop ma greedy k n' st' else None) st in
      if greedy then or_else again (k st) else or_else (k st) again
  end.

(** The matcher, in continuation-passing style: [m f r k st] matches [r] at
    [st] and hands every candidate end state to [k], in ECMAScript's
    backtracking order, until [k] accepts one. *)
Fixpoint m (f : flags) (r : re) (k : mstate -> option mstate) (st : mstate)
  {struct r} : option mstate :=
  match r with
  | Eps => k st
  | Chr c =>
      match rest st with
      | x :: t => if chr_match f c x then k (advance x t st) else None
      | [] => None
      end
  | Dot =>
      match rest st with
      | x :: t =>
          if dotAll f || negb (is_line_terminator x) then k (advance x t st) else None
      | [] => None
      end
  | Cls neg items =>
      match rest st with
      | x :: t =>
          if xorb neg (cls_has f items x) then k (advance x t st) else None
      | [] => None
      end
  | Bol => if at_bol f st then k st else None
  | Eol => if at_eol f st then k st else None
  | Seq a b => m f a (fun st' => m f b k st') st
  | Alt a b => or_else (m f a k st) (m f b k st)
  | Star greedy a => star_loop (m f a) greedy k (length (rest st)) st
  | Grp n a => m f a (fun st' => k (set_cap n (consumed st st') st')) st
  end.

Definition match_at (f : flags) (r : re) (pv : option char) (s : str) : option mstate :=
  m f r Some {| prev := pv; rest := s; caps := [] |}.

(** Derived forms. *)
Definition Plus (greedy : bool) (a : re) : re := Seq a (Star greedy a).
Definition Opt (a : re) : re := Alt a Eps.
Fixpoint seqs (l : list re) : re :=
  match l with
  | [] => Eps
  | [a] => a
  | a :: l' => Seq a (seqs l')
  end.
Definition lit (s : string) : re := seqs (map Chr (js s)).
Fixpoint times (n : nat) (a : re) : re :=
  match n with
  | O => Eps
  | S O => a
  | S n' => Seq a (times n' a)
  end.
(** [a{0,n}], greedy. *)
Fixpoint upto (n : nat) (a : re) : re :=
  match n with
  | O => Eps
  | S n' => Opt (Seq a (upto n' a))
  end.

Fixpoint cap_get (cs : list (nat * str)) (n : nat) : str :=
  match cs with
  | [] => []
  | (i, s) :: cs' => if Nat.eqb i n then s else cap_get cs' n
  end.

(** A replacement: the matched text and the captures to the new text. *)
Definition repl := str -> (nat -> str) -> str.

Inductive ritem := RLit (s : str) | RRef (n : nat).

Definition subst (t : list ritem) : repl :=
  fun _ g => flat_map (fun i => match i with RLit s => s | RRef n => g n end) t.

(** [s.replace(/r/g, rp)]: every match, left to right, on the original
    string; after an empty match the scan moves on by one code unit. *)
Fixpoint replace_go (f : flags) (r : re) (rp : repl) (skip : nat)
  (pv : option char) (s : str) {struct s} : str :=
  match skip with
  | S k =>
      match s with
      | [] => []
      | x :: t => replace_go f r rp k (Some x) t
      end
  | O =>
      match match_at f r pv s with
      | Some st' =>
          let len := (length s - length (rest st'))%nat in
          let out := rp (firstn len s) (cap_get (caps st')) in
          match s with
          | [] => out
          | x :: t =>
              match len with
              | O => out ++ x :: replace_go f r rp O (Some x) t
              | S k => out ++ replace_go f r rp k (Some x) t
              end
          end
      | None =>
          match s with
          | [] => []
          | x :: t => x :: replace_go f r rp O (Some x) t
          end
      end
  end.

Definition replace_all (f : flags) (r : re) (rp : repl) (s : str) : str :=
  replace_go f r rp O None s.

(** [s.match(/r/)] and [/r/.test(s)] without the [g] flag: the first
    position at which [r] matches. *)
Fixpoint search (f : flags) (r : re) (pv : option char) (s : str) : option mstate :=
  match match_at f r pv s with
  | Some st' => Some st'
  | None =>
      match s with
      | [] => None
      | x :: t => search f r (Some x) t
      end
  end.

Definition test (f : flags) (r : re) (s : str) : bool :=
  match search f r None s with Some _ => true | None => false end.

(** [s.split(/r/)] for a pattern without captures. *)
Fixpoint split_re_go (f : flags) (r : re) (skip : nat) (cur : str)
  (pv : option char) (s : str) {struct s} : list str :=
  match s with
  | [] => [rev cur]
  | x :: t =>
      match skip with
      | S k => split_re_go f r k cur (Some x) t
      | O =>
          match match_at f r pv s with
          | None => split_re_go f r O (x :: cur) (Some x) t
          | Some st' =>
              match (length s - length (rest st'))%nat with
              | O =>
                  match cur with
                  | [] => split_re_go f r O [x] (Some x) t
                  | _ => rev cur :: split_re_go f r O [x] (Some x) t
                  end
              | S k => rev cur :: split_re_go f r k [] (Some x) t
              end
          end
      end
  end.

Definition split_re (f : flags) (r : re) (s : str) : list str :=
  match s with
  | [] => match match_at f r None [] with Some _ => [] | None => [[]] end
  | _ => split_re_go f r O [] None s
  end.

(** ** wiki-parser.ts *)

Definition c_any : re := Cls false [CSpace; CNotSpace].     (* [\s\S] *)
Definition c_sp : re := Cls false [CSpace].                  (* \s *)
Definition c_not (s : string) : re := Cls true (map CChr (js s)).
Definition lits (s : string) : list ritem := [RLit (js s)].
Definition nl : str := [10].

(** "/^\s*(\w[\w\s]*?)\s*=\s*(.+?)\s*$/s" *)
Definition re_infobox_param : re :=
  seqs [Bol; Star true c_sp;
        Grp 1 (Seq (Cls false [CWord]) (Star false (Cls false [CWord; CSpace])));
        Star true c_sp; Chr (ch "="); Star true c_sp;
        Grp 2 (Plus false Dot); Star true c_sp; Eol].

(** "/^(image|icon|caption|imagewidth|imageheight|style|class|colspan|rowspan)$/i" *)
Definition re_infobox_skip : re :=
  seqs [Bol;
        Grp 1 (Alt (lit "image") (Alt (lit "icon") (Alt (lit "caption")
              (Alt (lit "imagewidth") (Alt (lit "imageheight") (Alt (lit "style")
              (Alt (lit "class") (Alt (lit "colspan") (lit "rowspan")))))))));
        Eol].

Fixpoint infobox_lines (params : list str) : list str :=
  match params with
  | [] => []
  | param :: more =>
      match search fl_s re_infobox_param None param with
      | Some st =>
          let key := trim (cap_get (caps st) 1) in
          let value := trim (cap_get (caps st) 2) in
          if test fl_i re_infobox_skip key then infobox_lines more
          else
            match value with
            | [] => infobox_lines more
            | _ => (key ++ js ": " ++ value) :: infobox_lines more
            end
      | None => infobox_lines more
      end
  end.

Definition extractInfoboxText (params : list str) : str :=
  match infobox_lines params with
  | [] => []
  | lines => join nl lines ++ nl
  end.

(** [parts[i] ? yes(parts[i]) : ""]: a missing or empty part is falsy. *)
Definition if_part (parts : list str) (i : nat) (yes : str -> str) : str :=
  match nth_error parts i with
  | Some (c :: p) => yes (c :: p)
  | _ => []
  end.

Definition extractTemplateText (content : str) : str :=
  let parts := split (js "|") content in
  let templateName := toLowerCase (trim (nth 0 parts [])) in
  if startsWith templateName (js "infobox") then extractInfoboxText (tl parts)
  else if str_eqb templateName (js "quote") || str_eqb templateName (js "cquote")
  then if_part parts 1 (fun p => [34] ++ trim p ++ [34])
  else if str_eqb templateName (js "color") && (3 <=? length parts)%nat
  then trim (nth 2 parts [])
  else if str_eqb templateName (js "main") || str_eqb templateName (js "see also")
  then if_part parts 1 (fun p => js "(See: " ++ trim p ++ js ")")
  else if str_eqb templateName (js "nihongo")
  then if_part parts 1 trim
  else [].

(** Line 95: [{{], then group 1, the longest run of code units other than
    braces, then [}}]; flag [g]. *)
Definition re_template : re :=
  seqs [lit "{{"; Grp 1 (Star true (c_not "{}")); lit "}}"].

Definition template_pass (text : str) : str :=
  replace_all fl_none re_template (fun _ g => extractTemplateText (g 1%nat)) text.

Definition maxIterations : nat := 50.

(** The [while] loop of [processTemplates]; the state is [text], [previous]
    and [iterations], and [budget] is [maxIterations - iterations]. *)
Fixpoint processTemplates_loop (budget : nat) (iterations : nat)
  (previous text : str) : str * nat :=
  match budget with
  | O => (text, iterations)
  | S b =>
      if str_eqb text previous then (text, iterations)
      else processTemplates_loop b (S iterations) text (template_pass text)
  end.

Definition processTemplates_run (text : str) : str * nat :=
  processTemplates_loop maxIterations 0 [] text.

Definition processTemplates (text : str) : str := fst (processTemplates_run text).

Definition table_cells : repl :=
  fun _ g =>
    join (js " | ")
      (List.filter (fun c => negb (str_eqb c [])) (map trim (split (js "||") (g 1%nat)))).

Definition processTables (text : str) : str :=
  (* "/^\{\|[^\n]*$/gm" *)
  let text := replace_all fl_m (seqs [Bol; lit "{|"; Star true (Cls true [CChr 10]); Eol])
                (subst []) text in
  (* "/^\|\}$/gm" *)
  let text := replace_all fl_m (seqs [Bol; lit "|}"; Eol]) (subst []) text in
  (* line 177: "^\|\+\s*" then group 1 = ".*"; flags gm *)
  let text := replace_all fl_m (seqs [Bol; lit "|+"; Star true c_sp; Grp 1 (Star true Dot)])
                (subst [RRef 1]) text in
  (* "/^\|-[^\n]*/gm" *)
  let text := replace_all fl_m (seqs [Bol; lit "|-"; Star true (Cls true [CChr 10])])
                (subst []) text in
  (* line 183: "^!\s*" then group 1 = ".*"; flags gm *)
  let text := replace_all fl_m (seqs [Bol; lit "!"; Star true c_sp; Grp 1 (Star true Dot)])
                (subst [RRef 1]) text in
  (* line 186: "^\|\s*" then group 1 = ".*"; flags gm *)
  let text := replace_all fl_m (seqs [Bol; lit "|"; Star true c_sp; Grp 1 (Star true Dot)])
                table_cells text in
  text.

(** The entity table of [decodeHtmlEntities], in insertion order. *)
Definition entities : list (string * str) :=
  [ ("&amp;"%string, js "&"); ("&lt;"%string, js "<"); ("&gt;"%string, js ">");
    ("&quot;"%string, [34]); ("&apos;"%string, js "'"); ("&#39;"%string, js "'");
    ("&nbsp;"%string, js " "); ("&ndash;"%string, [0x2013]); ("&mdash;"%string, [0x2014]);
    ("&hellip;"%string, js "..."); ("&bull;"%string, [0x2022]);
    ("&trade;"%string, [0x2122]); ("&copy;"%string, [0xa9]); ("&reg;"%string, [0xae]) ].

Definition digit_val (c : char) : N :=
  if is_digit c then c - 48
  else if (97 <=? c) && (c <=? 102) then c - 87
  else if (65 <=? c) && (c <=? 70) then c - 55
  else 0.

(** [parseInt(code, radix)] on a non-empty run of digits of that radix, as
    the mathematical integer. *)
Definition parseInt (radix : N) (code : str) : N :=
  fold_left (fun acc c => acc * radix + digit_val c) code 0.

(** The Number value of an integer: the nearest double, ties to even. *)
Definition to_double (n : N) : N :=
  let bits := N.size n in
  if bits <=? 53 then n
  else
    let e := bits - 53 in
    let q := N.shiftr n e in
    let r := n - N.shiftl q e in
    let half := N.shiftl 1 (e - 1) in
    let q' := if (half <? r) || ((r =? half) && N.odd q) then q + 1 else q in
    N.shiftl q' e.

(** [String.fromCharCode(n)]: [ToUint16] of the Number.  From 2^69 on the
    double is a multiple of 2^16 or infinite, and both give unit 0. *)
Definition fromCharCode (n : N) : str :=
  if 69 <=? N.size n then [0] else [to_double n mod 65536].

Definition decodeHtmlEntities (text : str) : str :=
  let text :=
    fold_left (fun t e => replace_all fl_i (lit (fst e)) (subst [RLit (snd e)]) t)
      entities text in
  (* "/&#(\d+);/g" *)
  let text := replace_all fl_none
                (seqs [lit "&#"; Grp 1 (Plus true (Cls false [CDigit])); lit ";"])
                (fun _ g => fromCharCode (parseInt 10 (g 1%nat))) text in
  (* "/&#x([0-9a-f]+);/gi" *)
  let text := replace_all fl_i
                (seqs [lit "&#x";
                       Grp 1 (Plus true (Cls false [CRange 48 57; CRange 97 102]));
                       lit ";"])
                (fun _ g => fromCharCode (parseInt 16 (g 1%nat))) text in
  text.

Definition parseWikitext (raw : str) : str :=
  let text := raw in
  (* "/<noinclude[\s\S]*?<\/noinclude>/gi" *)
  let text := replace_all fl_i (seqs [lit "<noinclude"; Star false c_any; lit "</noinclude>"])
                (subst []) text in
  (* "/<\/?includeonly>/gi" *)
  let text := replace_all fl_i (seqs [lit "<"; Opt (lit "/"); lit "includeonly>"])
                (subst []) text in
  (* "/<!--[\s\S]*?-->/g" *)
  let text := replace_all fl_none (seqs [lit "<!--"; Star false c_any; lit "-->"])
                (subst []) text in
  (* "/__(?:TOC|NOTOC|FORCETOC)__/g" *)
  let text := replace_all fl_none
                (seqs [lit "__"; Alt (lit "TOC") (Alt (lit "NOTOC") (lit "FORCETOC")); lit "__"])
                (subst []) text in
  (* "/\{\{DISPLAYTITLE:[^}]*\}\}/gi" *)
  let text := replace_all fl_i (seqs [lit "{{DISPLAYTITLE:"; Star true (c_not "}"); lit "}}"])
                (subst []) text in
  (* "/\[\[(?:File|Image):[^\]]*\]\]/gi" *)
  let text := replace_all fl_i
                (seqs [lit "[["; Alt (lit "File") (lit "Image"); lit ":";
                       Star true (c_not "]"); lit "]]"])
                (subst []) text in
  (* "/\[\[Category:[^\]]*\]\]/gi" *)
  let text := replace_all fl_i (seqs [lit "[[Category:"; Star true (c_not "]"); lit "]]"])
                (subst []) text in
  let text := processTemplates text in
  let text := processTables text in
  (* "/\[\[([^\]|]+)\|([^\]]+)\]\]/g" *)
  let text := replace_all fl_none
                (seqs [lit "[["; Grp 1 (Plus true (c_not "]|")); lit "|";
                       Grp 2 (Plus true (c_not "]")); lit "]]"])
                (subst [RRef 2]) text in
  (* "/\[\[([^\]]+)\]\]/g" *)
  let text := replace_all fl_none
                (seqs [lit "[["; Grp 1 (Plus true (c_not "]")); lit "]]"])
                (subst [RRef 1]) text in
  (* "/\[https?:\/\/[^\s\]]+ ([^\]]+)\]/g" *)
  let text := replace_all fl_none
                (seqs [lit "[http"; Opt (lit "s"); lit "://";
                       Plus true (Cls true [CSpace; CChr (ch "]")]); lit " ";
                       Grp 1 (Plus true (c_not "]")); lit "]"])
                (subst [RRef 1]) text in
  (* "/\[https?:\/\/([^\]]+)\]/g" *)
  let text := replace_all fl_none
                (seqs [lit "[http"; Opt (lit "s"); lit "://";
                       Grp 1 (Plus true (c_not "]")); lit "]"])
                (subst [RRef 1]) text in
  (* "/^={1,6}\s*(.+?)\s*={1,6}\s*$/gm" *)
  let text := replace_all fl_m
                (seqs [Bol; lit "="; upto 5 (lit "="); Star true c_sp;
                       Grp 1 (Plus false Dot); Star true c_sp;
                       lit "="; upto 5 (lit "="); Star true c_sp; Eol])
                (subst [RLit nl; RRef 1; RLit nl]) text in
  (* "/'{5}(.+?)'{5}/g, /'{3}(.+?)'{3}/g, /'{2}(.+?)'{2}/g" *)
  let text := replace_all fl_none
                (seqs [times 5 (lit "'"); Grp 1 (Plus false Dot); times 5 (lit "'")])
                (subst [RRef 1]) text in
  let text := replace_all fl_none
                (seqs [times 3 (lit "'"); Grp 1 (Plus false Dot); times 3 (lit "'")])
                (subst [RRef 1]) text in
  let text := replace_all fl_none
                (seqs [times 2 (lit "'"); Grp 1 (Plus false Dot); times 2 (lit "'")])
                (subst [RRef 1]) text in
  (* "/<br\s*\/?>/gi" *)
  let text := replace_all fl_i (seqs [lit "<br"; Star true c_sp; Opt (lit "/"); lit ">"])
                (subst [RLit nl]) text in
  (* "/<\/?[^>]+>/g" *)
  let text := replace_all fl_none
                (seqs [lit "<"; Opt (lit "/"); Plus true (c_not ">"); lit ">"])
                (subst []) text in
  (* "/^\*+\s*/gm, /^#+\s*/gm, /^;+\s*/gm, /^:+\s*/gm" *)
  let text := replace_all fl_m (seqs [Bol; Plus true (lit "*"); Star true c_sp])
                (subst (lits "- ")) text in
  let text := replace_all fl_m (seqs [Bol; Plus true (lit "#"); Star true c_sp])
                (subst (lits "- ")) text in
  let text := replace_all fl_m (seqs [Bol; Plus true (lit ";"); Star true c_sp])
                (subst []) text in
  let text := replace_all fl_m (seqs [Bol; Plus true (lit ":"); Star true c_sp])
                (subst (lits "  ")) text in
  (* "/^-{4,}\s*$/gm" *)
  let text := replace_all fl_m
                (seqs [Bol; times 4 (lit "-"); Star true (lit "-"); Star true c_sp; Eol])
                (subst []) text in
  let text := decodeHtmlEntities text in
  (* "/[ \t]+/g" *)
  let text := replace_all fl_none (Plus true (Cls false [CChr 32; CChr 9]))
                (subst (lits " ")) text in
  (* "/\n{3,}/g" *)
  let text := replace_all fl_none (seqs [times 3 (Chr 10); Star true (Chr 10)])
                (subst [RLit [10; 10]]) text in
  trim text.

(** ** database.ts: the data *)

(** [PageData].  TypeScript types [title], [content] and [url] as [string];
    the type is erased at run time and the columns are declared [NOT NULL],
    so the value bound to the statement is modelled as possibly [null]. *)
Module PageData.
Record t := mk {
  title : option str;
  content : option str;
  url : option str;
  categories : list str;
  last_modified : option str }.
End PageData.

(** [WikiPageRow]: a row of table [pages]; [categories] is the JSON text. *)
Module WikiPageRow.
Record t := mk {
  id : N;
  title : str;
  content : str;
  url : str;
  categories : str;
  last_modified : option str;
  scraped_at : str }.
End WikiPageRow.

(** [WikiPage]: what [getPage] returns, [categories] parsed. *)
Module WikiPage.
Record t := mk {
  id : N;
  title : str;
  content : str;
  url : str;
  categories : list str;
  last_modified : option str;
  scraped_at : str }.
End WikiPage.

(** A row of table [categories]. *)
Module CategoryRow.
Record t := mk { id : N; name : str; page_count : N }.
End CategoryRow.

(** [WikiCategory]: what [getCategories] returns. *)
Module WikiCategory.
Record t := mk { name : str; page_count : N }.
End WikiCategory.

(** The full-text index [pages_fts] is an external-content FTS5 table: it
    holds no text, only one posting per token occurrence, under the rowid
    and column it was given.  The tokenizer is FTS5's and is left open. *)
Class Fts5Tokenizer := tokenize : str -> list str.

Inductive fts_column := FtsTitle | FtsContent.

#[global] Instance fts_column_eq_dec : EqDecision fts_column.
Proof. solve_decision. Defined.

#[global] Instance fts_column_countable : Countable fts_column.
Proof.
  refine (inj_countable' (fun c => match c with FtsTitle => true | FtsContent => false end)
            (fun b => if b then FtsTitle else FtsContent) _).
  intros []; reflexivity.
Defined.

Definition posting : Type := N * fts_column * list N.
Definition fts_index : Type := gmultiset posting.

(** The database file.  [pages] and [categories] are in rowid order;
    the [_seq] fields are the [AUTOINCREMENT] counters of [sqlite_sequence];
    [pages_fts] is [None] until the virtual table and its three triggers,
    which [initialize] creates together, exist. *)
Record Db := mkDb {
  pages : list WikiPageRow.t;
  pages_seq : N;
  categories : list CategoryRow.t;
  categories_seq : N;
  pages_fts : option fts_index }.

(** What a call leaves behind: the database and the exception thrown. *)
Inductive SqliteError :=
| NotNullConstraint (column : string).

Definition outcome : Type := Db * option SqliteError.

(** ** Text order, collations, LIKE and JSON *)

(** The order of [ORDER BY] on a text column (BINARY collation), on code
    units. *)
Fixpoint str_leb (a b : str) : bool :=
  match a, b with
  | [], _ => true
  | _ :: _, [] => false
  | x :: a', y :: b' => (x <? y) || ((x =? y) && str_leb a' b')
  end.

Fixpoint insert_by {A} (key : A -> str) (x : A) (l : list A) : list A :=
  match l with
  | [] => [x]
  | y :: l' => if str_leb (key x) (key y) then x :: l else y :: insert_by key x l'
  end.

Definition order_by {A} (key : A -> str) (l : list A) : list A :=
  fold_right (insert_by key) [] l.

(** [COLLATE NOCASE]: equality up to the case of the 26 ASCII letters. *)
Fixpoint nocase_eqb (a b : str) : bool :=
  match a, b with
  | [], [] => true
  | x :: a', y :: b' => (ascii_lower x =? ascii_lower y) && nocase_eqb a' b'
  | _, _ => false
  end.

(** SQLite's [LIKE] without [ESCAPE]: [%] (37) stands for any run of
    characters, [_] (95) for one, and anything else for itself up to ASCII
    letter case. *)
Fixpoint like (pat : str) : str -> bool :=
  match pat with
  | [] => fun s => match s with [] => true | _ :: _ => false end
  | p :: pat' =>
      if p =? 37 then
        fix any (s : str) : bool :=
          like pat' s || match s with [] => false | _ :: t => any t end
      else if p =? 95 then
        fun s => match s with [] => false | _ :: t => like pat' t end
      else
        fun s =>
          match s with
          | [] => false
          | x :: t => (ascii_lower p =? ascii_lower x) && like pat' t
          end
  end.

Definition is_high_surrogate (c : char) : bool := (0xd800 <=? c) && (c <=? 0xdbff).
Definition is_low_surrogate (c : char) : bool := (0xdc00 <=? c) && (c <=? 0xdfff).

Definition hex_digit (n : N) : char := if n <? 10 then 48 + n else 87 + n.

(** The escape [\uXXXX], lower-case digits. *)
Definition unicode_escape (c : char) : str :=
  [92; 117; hex_digit (c / 4096); hex_digit ((c / 256) mod 16);
   hex_digit ((c / 16) mod 16); hex_digit (c mod 16)].

(** [QuoteJSONString] on one code unit that is not a surrogate. *)
Definition json_escape (c : char) : str :=
  if c =? 8 then [92; 98]
  else if c =? 9 then [92; 116]
  else if c =? 10 then [92; 110]
  else if c =? 12 then [92; 102]
  else if c =? 13 then [92; 114]
  else if c =? 34 then [92; 34]
  else if c =? 92 then [92; 92]
  else if c <? 32 then unicode_escape c
  else [c].

(** The body of a quoted JSON string: a surrogate is copied when it is half
    of a pair and escaped when it stands alone. *)
Fixpoint json_body (prev_high : bool) (s : str) : str :=
  match s with
  | [] => []
  | c :: t =>
      (if is_high_surrogate c then
         match t with
         | d :: _ => if is_low_surrogate d then [c] else unicode_escape c
         | [] => unicode_escape c
         end
       else if is_low_surrogate c then
         if prev_high then [c] else unicode_escape c
       else json_escape c)
      ++ json_body (is_high_surrogate c) t
  end.

Definition json_quote (s : str) : str := [34] ++ json_body false s ++ [34].

(** [JSON.stringify] of an array of strings. *)
Definition JSON_stringify (l : list str) : str :=
  [91] ++ join [44] (map json_quote l) ++ [93].

(** [JSON.parse] of the text of an array of strings, as an automaton over
    the code units; [None] is the [SyntaxError] (and any JSON value that is
    not an array of strings, which [JSON.stringify] above never writes). *)
Inductive jstate :=
| JStart
| JOpen
| JElem
| JStr (acc : str)
| JEsc (acc : str)
| JHex (acc : str) (todo : nat) (v : N)
| JAfter
| JEnd.

Definition is_json_ws (c : char) : bool :=
  (c =? 32) || (c =? 9) || (c =? 10) || (c =? 13).

Definition is_hex (c : char) : bool :=
  is_digit c || ((97 <=? c) && (c <=? 102)) || ((65 <=? c) && (c <=? 70)).

Definition json_unescape (c : char) : option char :=
  if c =? 34 then Some 34
  else if c =? 92 then Some 92
  else if c =? 47 then Some 47
  else if c =? 98 then Some 8
  else if c =? 102 then Some 12
  else if c =? 110 then Some 10
  else if c =? 114 then Some 13
  else if c =? 116 then Some 9
  else None.

Fixpoint json_run (st : jstate) (out : list str) (s : str) : option (list str) :=
  match s with
  | [] => match st with JEnd => Some (rev out) | _ => None end
  | c :: t =>
      match st with
      | JStart =>
          if is_json_ws c then json_run JStart out t
          else if c =? 91 then json_run JOpen out t
          else None
      | JOpen =>
          if is_json_ws c then json_run JOpen out t
          else if c =? 93 then json_run JEnd out t
          else if c =? 34 then json_run (JStr []) out t
          else None
      | JElem =>
          if is_json_ws c then json_run JElem out t
          else if c =? 34 then json_run (JStr []) out t
          else None
      | JStr acc =>
          if c =? 34 then json_run JAfter (rev acc :: out) t
          else if c =? 92 then json_run (JEsc acc) out t
          else if c <? 32 then None
          else json_run (JStr (c :: acc)) out t
      | JEsc acc =>
          if c =? 117 then json_run (JHex acc 4 0) out t
          else
            match json_unescape c with
            | Some x => json_run (JStr (x :: acc)) out t
            | None => None
            end
      | JHex acc todo v =>
          if is_hex c then
            match todo with
            | S O => json_run (JStr ((v * 16 + digit_val c) :: acc)) out t
            | S n => json_run (JHex acc n (v * 16 + digit_val c)) out t
            | O => None
            end
          else None
      | JAfter =>
          if is_json_ws c then json_run JAfter out t
          else if c =? 44 then json_run JElem out t
          else if c =? 93 then json_run JEnd out t
          else None
      | JEnd => if is_json_ws c then json_run JEnd out t else None
      end
  end.

Definition JSON_parse (s : str) : option (list str) := json_run JStart [] s.

(** [JSON.parse(row.categories || "[]")]. *)
Definition parse_categories (text : str) : option (list str) :=
  match text with
  | [] => JSON_parse (js "[]")
  | _ => JSON_parse text
  end.

(** ** database.ts: the statements *)

Definition postings `{Fts5Tokenizer} (rowid : N) (title content : str) : fts_index :=
  list_to_set_disj
    (map (fun t => (rowid, FtsTitle, t)) (tokenize title)
     ++ map (fun t => (rowid, FtsContent, t)) (tokenize content)).

(** [INSERT INTO pages_fts(rowid, title, content) VALUES (...)] *)
Definition fts_insert `{Fts5Tokenizer} (rowid : N) (title content : str)
  (ix : fts_index) : fts_index :=
  ix ⊎ postings rowid title content.

(** [INSERT INTO pages_fts(pages_fts, rowid, title, content) VALUES ('delete', ...)] *)
Definition fts_delete `{Fts5Tokenizer} (rowid : N) (title content : str)
  (ix : fts_index) : fts_index :=
  ix ∖ postings rowid title content.

(** The triggers [pages_ai], [pages_ad] and [pages_au]. *)
Definition pages_ai `{Fts5Tokenizer} (new : WikiPageRow.t) (ix : fts_index) : fts_index :=
  fts_insert (WikiPageRow.id new) (WikiPageRow.title new) (WikiPageRow.content new) ix.

Definition pages_ad `{Fts5Tokenizer} (old : WikiPageRow.t) (ix : fts_index) : fts_index :=
  fts_delete (WikiPageRow.id old) (WikiPageRow.title old) (WikiPageRow.content old) ix.

Definition pages_au `{Fts5Tokenizer} (old new : WikiPageRow.t) (ix : fts_index) : fts_index :=
  fts_insert (WikiPageRow.id new) (WikiPageRow.title new) (WikiPageRow.content new)
    (fts_delete (WikiPageRow.id old) (WikiPageRow.title old) (WikiPageRow.content old) ix).

Definition empty_file : Db := mkDb [] 0 [] 0 None.

(** [initialize].  [CREATE TABLE IF NOT EXISTS] leaves the tables as they
    are (a missing table is an empty one here).  When the probe of
    [pages_fts] throws, the virtual table and the triggers are created and
    the index is filled from the rows of [pages]. *)
Definition initialize `{Fts5Tokenizer} (db : Db) : Db :=
  match pages_fts db with
  | Some _ => db
  | None =>
      mkDb (pages db) (pages_seq db) (categories db) (categories_seq db)
        (Some (fold_left (fun ix r => pages_ai r ix) (pages db) ∅))
  end.

(** [new WikiDatabase(path)] on the file at [path]. *)
Definition WikiDatabase `{Fts5Tokenizer} (file : Db) : Db := initialize file.

(** The rowid an [AUTOINCREMENT] table gives its next row: one more than the
    largest it ever held.  Rowids are unbounded here; SQLite's end at
    2^63 - 1. *)
Definition next_rowid (ids : list N) (seq : N) : N :=
  fold_right N.max seq ids + 1.

Definition title_is (t : str) (r : WikiPageRow.t) : bool :=
  str_eqb (WikiPageRow.title r) t.

Fixpoint replace_row (t : str) (new : WikiPageRow.t) (rows : list WikiPageRow.t)
  : list WikiPageRow.t :=
  match rows with
  | [] => []
  | r :: rs => if title_is t r then new :: rs else r :: replace_row t new rs
  end.

Fixpoint remove_row (t : str) (rows : list WikiPageRow.t) : list WikiPageRow.t :=
  match rows with
  | [] => []
  | r :: rs => if title_is t r then rs else r :: remove_row t rs
  end.

(** The three writes on [pages], each with its trigger. *)
Definition sql_insert_page `{Fts5Tokenizer} (new : WikiPageRow.t) (db : Db) : Db :=
  mkDb (pages db ++ [new]) (WikiPageRow.id new) (categories db) (categories_seq db)
    (option_map (pages_ai new) (pages_fts db)).

Definition sql_update_page `{Fts5Tokenizer} (old new : WikiPageRow.t) (db : Db) : Db :=
  mkDb (replace_row (WikiPageRow.title old) new (pages db)) (pages_seq db)
    (categories db) (categories_seq db)
    (option_map (pages_au old new) (pages_fts db)).

Definition sql_delete_page `{Fts5Tokenizer} (old : WikiPageRow.t) (db : Db) : Db :=
  mkDb (remove_row (WikiPageRow.title old) (pages db)) (pages_seq db)
    (categories db) (categories_seq db)
    (option_map (pages_ad old) (pages_fts db)).

(** The statement of [upsertPage] and [upsertPages], run once at time [now]:
    [INSERT INTO pages ... ON CONFLICT(title) DO UPDATE SET ...].  The
    conflict is on the [UNIQUE] column [title], whose collation is BINARY. *)
Definition upsert_stmt `{Fts5Tokenizer} (now : str) (page : PageData.t) (db : Db)
  : outcome :=
  match PageData.title page, PageData.content page, PageData.url page with
  | Some t, Some c, Some u =>
      let cats := JSON_stringify (PageData.categories page) in
      match find (title_is t) (pages db) with
      | Some old =>
          let new :=
            WikiPageRow.mk (WikiPageRow.id old) (WikiPageRow.title old) c u cats
              (PageData.last_modified page) now in
          (sql_update_page old new db, None)
      | None =>
          let i := next_rowid (map WikiPageRow.id (pages db)) (pages_seq db) in
          let new := WikiPageRow.mk i t c u cats (PageData.last_modified page) now in
          (sql_insert_page new db, None)
      end
  | None, _, _ => (db, Some (NotNullConstraint "pages.title"))
  | _, None, _ => (db, Some (NotNullConstraint "pages.content"))
  | _, _, None => (db, Some (NotNullConstraint "pages.url"))
  end.

Definition upsertPage `{Fts5Tokenizer} (now : str) (page : PageData.t) (db : Db)
  : outcome :=
  upsert_stmt now page db.

(** better-sqlite3's [db.transaction(fn)]: [BEGIN], the body, [COMMIT];
    when the body throws, [ROLLBACK] to the state at [BEGIN] and the
    exception goes on to the caller. *)
Definition transaction (fn : Db -> outcome) (db : Db) : outcome :=
  match fn db with
  | (db', None) => (db', None)
  | (_, Some e) => (db, Some e)
  end.

(** The body of the transaction of [upsertPages]: the [for] loop; [clock k]
    is the time at the [k]-th statement.  A statement that throws ends the
    loop with the writes made so far still in place. *)
Fixpoint upsert_loop `{Fts5Tokenizer} (clock : nat -> str) (k : nat)
  (pages : list PageData.t) (db : Db) : outcome :=
  match pages with
  | [] => (db, None)
  | page :: more =>
      match upsert_stmt (clock k) page db with
      | (db', None) => upsert_loop clock (S k) more db'
      | (db', Some e) => (db', Some e)
      end
  end.

Definition upsertPages `{Fts5Tokenizer} (clock : nat -> str) (pages : list PageData.t)
  (db : Db) : outcome :=
  transaction (upsert_loop clock 0 pages) db.

Inductive fetched (A : Type) :=
| Found (a : A)
| NotFound
| Throws.
Arguments Found {A} a.
Arguments NotFound {A}.
Arguments Throws {A}.

(** [getPage]: [SELECT * FROM pages WHERE title = ? COLLATE NOCASE], first row. *)
Definition getPage (title : str) (db : Db) : fetched WikiPage.t :=
  match find (fun r => nocase_eqb (WikiPageRow.title r) title) (pages db) with
  | None => NotFound
  | Some row =>
      match parse_categories (WikiPageRow.categories row) with
      | Some cats =>
          Found (WikiPage.mk (WikiPageRow.id row) (WikiPageRow.title row)
                   (WikiPageRow.content row) (WikiPageRow.url row) cats
                   (WikiPageRow.last_modified row) (WikiPageRow.scraped_at row))
      | None => Throws
      end
  end.

Definition getPageScrapedAt (title : str) (db : Db) : option str :=
  option_map WikiPageRow.scraped_at (find (title_is title) (pages db)).

Definition getPageCount (db : Db) : nat := length (pages db).

Definition getAllTitles (db : Db) : list str :=
  map WikiPageRow.title (order_by WikiPageRow.title (pages db)).

(** [getCategories]: [WHERE page_count > 0 ORDER BY name]. *)
Definition getCategories (db : Db) : list WikiCategory.t :=
  map (fun c => WikiCategory.mk (CategoryRow.name c) (CategoryRow.page_count c))
    (order_by CategoryRow.name
       (List.filter (fun c => 0 <? CategoryRow.page_count c) (categories db))).

(** The [Map] of [refreshCategories], in insertion order. *)
Fixpoint counts_get (k : str) (counts : list (str * N)) : option N :=
  match counts with
  | [] => None
  | (k', v) :: more => if str_eqb k' k then Some v else counts_get k more
  end.

Fixpoint counts_set (k : str) (v : N) (counts : list (str * N)) : list (str * N) :=
  match counts with
  | [] => [(k, v)]
  | (k', v') :: more =>
      if str_eqb k' k then (k', v) :: more else (k', v') :: counts_set k v more
  end.

Definition count_cat (counts : list (str * N)) (cat : str) : list (str * N) :=
  counts_set cat (match counts_get cat counts with Some n => n | None => 0 end + 1) counts.

(** One page of the counting loop; text that does not parse is skipped. *)
Definition count_page (counts : list (str * N)) (text : str) : list (str * N) :=
  match parse_categories text with
  | Some cats => fold_left count_cat cats counts
  | None => counts
  end.

(** [INSERT OR IGNORE INTO categories (name, page_count) VALUES (?, ?)] *)
Definition insert_category (name : str) (count : N) (db : Db) : outcome :=
  if existsb (fun c => str_eqb (CategoryRow.name c) name) (categories db)
  then (db, None)
  else
    let i := next_rowid (map CategoryRow.id (categories db)) (categories_seq db) in
    (mkDb (pages db) (pages_seq db)
       (categories db ++ [CategoryRow.mk i name count]) i (pages_fts db), None).

Fixpoint insert_loop (counts : list (str * N)) (db : Db) : outcome :=
  match counts with
  | [] => (db, None)
  | (name, count) :: more =>
      match insert_category name count db with
      | (db', None) => insert_loop more db'
      | (db', Some e) => (db', Some e)
      end
  end.

Definition refreshCategories (db : Db) : outcome :=
  (* DELETE FROM categories *)
  let db := mkDb (pages db) (pages_seq db) [] (categories_seq db) (pages_fts db) in
  let counts := fold_left count_page (map WikiPageRow.categories (pages db)) [] in
  transaction (insert_loop counts) db.

(** "/[\x22%_\\]/g": the double quote (34), [%], [_] and the backslash. *)
Definition re_like_special : re := Cls false [CChr 34; CChr 37; CChr 95; CChr 92].

Definition category_pattern (category : str) : str :=
  js "%" ++ [34] ++ replace_all fl_none re_like_special (subst []) category
  ++ [34] ++ js "%".

(** [getPagesByCategory]: [WHERE categories LIKE @pattern ORDER BY title]. *)
Definition getPagesByCategory (category : str) (db : Db) : list str :=
  map WikiPageRow.title
    (order_by WikiPageRow.title
       (List.filter (fun r => like (category_pattern category) (WikiPageRow.categories r))
          (pages db))).

(** "/[^\w\s-]/g" *)
Definition re_not_query_char : re := Cls true [CWord; CSpace; CChr (ch "-")].

Definition query_tokens (query : str) : list str :=
  List.filter (fun t => (0 <? length t)%nat)
    (split_re fl_none (Plus true c_sp)
       (replace_all fl_none re_not_query_char (subst (lits " ")) query)).

Definition sanitizeFtsQuery (query : str) : str :=
  match query_tokens query with
  | [] => []
  | tokens =>
      js "{title content} : " ++ join (js " ") (map (fun t => [34] ++ t ++ [34]) tokens)
  end.

(** The ranked [SELECT ... WHERE pages_fts MATCH @query ORDER BY rank LIMIT
    @limit] is SQLite's: its rows (title, snippet, url, score) and the
    rounding of the floating-point score are left open. *)
Class Fts5Engine := {
  fts5_score : Type;
  fts5_select : Db -> str -> Z -> list (str * str * str * fts5_score);
  round3 : fts5_score -> fts5_score }.

Module SearchResult.
Record t `{Fts5Engine} := mk {
  title : str;
  snippet : str;
  url : str;
  relevance_score : fts5_score }.
End SearchResult.

(** [searchPages]: the results, and the MATCH queries it ran. *)
Definition searchPages `{Fts5Engine} (query : str) (limit : Z) (db : Db)
  : list SearchResult.t * list str :=
  let ftsQuery := sanitizeFtsQuery query in
  match ftsQuery with
  | [] => ([], [])
  | _ =>
      (map (fun row =>
              match row with
              | (title, snippet, url, score) =>
                  SearchResult.mk _ title snippet url (round3 score)
              end)
         (fts5_select db ftsQuery limit),
       [ftsQuery])
  end.

(** A tokenizer to run examples with: lower-cased runs of word characters. *)
Definition word_tokens (s : str) : list str :=
  List.filter (fun t => (0 <? length t)%nat)
    (split_re fl_none (Plus true (Cls true [CWord])) (toLowerCase s)).

Definition example_tokenizer : Fts5Tokenizer := word_tokens.

Definition page (title content : string) (cats : list string) : PageData.t :=
  PageData.mk (Some (js title)) (Some (js content))
    (Some (js "https://sneaky-sasquatch.fandom.com/wiki/" ++ js title))
    (map js cats) None.

Definition t0 : nat -> str := fun _ => js "2024-01-15 10:30:00".

(** [s.includes(needle)] *)
Fixpoint includes (needle s : str) : bool :=
  startsWith s needle
  || match s with
     | [] => false
     | _ :: t => includes needle t
     end.

Definition lf (a b : string) : string := (a ++ String "010"%char b)%string.

(** ** What the theorems are stated with *)

(** The states a match can go through on a text within [Q]: the rest is
    within [Q] and every capture satisfies [C]. *)
Definition st_within (Q : char -> Prop) (C : str -> Prop) (st : mstate) : Prop :=
  Forall Q (rest st) /\ Forall (fun c => C (snd c)) (caps st).

Definition st_suffix (st' st : mstate) : Prop :=
  exists pre, rest st = pre ++ rest st'.

(** A pattern with a literal that the text cannot hold does not match. *)
Fixpoint avoid (bad : char -> bool) (r : re) : bool :=
  match r with
  | Chr c => bad c && bad (ascii_upper c) && bad (ascii_lower c)
  | Seq a b => avoid bad a || avoid bad b
  | Alt a b => avoid bad a && avoid bad b
  | Grp _ a => avoid bad a
  | _ => false
  end.

Definition free_of (bad : char -> bool) (s : str) : Prop :=
  Forall (fun x => bad x = false) s.

(** A replacement that writes only what it was given, and literals that
    satisfy [Q], keeps a text within [Q]. *)
Definition repl_within (Q : char -> Prop) (rp : repl) : Prop :=
  forall mt g, Forall Q mt -> (forall n, Forall Q (g n)) -> Forall Q (rp mt g).

(** Fifty-one templates, one inside the other. *)
Definition nested51 : str :=
  concat (repeat (js "{{") 51) ++ concat (repeat (js "}}") 51).


Fixpoint single_spaced (s : str) : bool :=
  match s with
  | [] => true
  | x :: t =>
      negb ((x =? 32) && match t with y :: _ => y =? 32 | [] => false end)
      && single_spaced t
  end.



(** The braces and brackets, and [&], which an entity can turn into one. *)
Definition delim_char (c : char) : bool := existsb (N.eqb c) (js "{}[]&").

Definition not_delim (c : char) : Prop := delim_char c = false.


Definition not_token_char (c : char) : bool := negb (is_word c || (c =? 45)).

(** An engine for examples: it answers every query with one row. *)
Definition example_engine : Fts5Engine :=
  {| fts5_score := N;
     fts5_select := fun _ _ _ => [(js "Fishing", js "**Fishing** is", js "/wiki/Fishing", 1)];
     round3 := fun x => x |}.

Definition unique_titles (db : Db) : Prop :=
  List.NoDup (map WikiPageRow.title (pages db)).

(** A page whose three NOT NULL columns are all given. *)
Definition bindable (p : PageData.t) : bool :=
  match PageData.title p, PageData.content p, PageData.url p with
  | Some _, Some _, Some _ => true
  | _, _, _ => false
  end.

(** Every upsert of a batch made on its own, one after the other. *)
Fixpoint upsert_each `{Fts5Tokenizer} (clock : nat -> str) (k : nat)
  (ps : list PageData.t) (db : Db) : Db :=
  match ps with
  | [] => db
  | p :: more => upsert_each clock (S k) more (fst (upsertPage (clock k) p db))
  end.

Definition row_postings `{Fts5Tokenizer} (r : WikiPageRow.t) : fts_index :=
  postings (WikiPageRow.id r) (WikiPageRow.title r) (WikiPageRow.content r).

(** The postings of all rows of a table. *)
Fixpoint index_of `{Fts5Tokenizer} (rows : list WikiPageRow.t) : fts_index :=
  match rows with
  | [] => ∅
  | r :: rs => row_postings r ⊎ index_of rs
  end.

Definition fts_in_sync `{Fts5Tokenizer} (db : Db) : Prop :=
  pages_fts db = Some (index_of (pages db)).

(** The calls a client can make on the store; [Reopen] closes it and
    constructs it again on the same file. *)
Inductive call :=
| UpsertPage (now : str) (page : PageData.t)
| UpsertPages (clock : nat -> str) (pages : list PageData.t)
| RefreshCategories
| Reopen.

Definition run_call `{Fts5Tokenizer} (db : Db) (c : call) : Db :=
  match c with
  | UpsertPage now page => fst (upsertPage now page db)
  | UpsertPages clock pages => fst (upsertPages clock pages db)
  | RefreshCategories => fst (refreshCategories db)
  | Reopen => WikiDatabase db
  end.

Definition run_calls `{Fts5Tokenizer} (calls : list call) (db : Db) : Db :=
  fold_left run_call calls db.

Definition cat_pairs (db : Db) : list (str * N) :=
  map (fun c => (CategoryRow.name c, CategoryRow.page_count c)) (categories db).

(** The [Map] that [refreshCategories] builds from the rows of [pages]. *)
Definition page_counts (db : Db) : list (str * N) :=
  fold_left count_page (map WikiPageRow.categories (pages db)) [].

Definition count_in (name : str) (cats : list str) : N :=
  fold_right (fun c n => if str_eqb c name then n + 1 else n) 0 cats.

(** How often [name] stands in the category lists of the stored pages. *)
Definition occurrences (name : str) (db : Db) : N :=
  fold_right
    (fun text n =>
       match parse_categories text with
       | Some cats => n + count_in name cats
       | None => n
       end)
    0 (map WikiPageRow.categories (pages db)).

Definition count_of (name : str) (counts : list (str * N)) : N :=
  match counts_get name counts with Some n => n | None => 0 end.

(** The ordered selection of [getCategories], on (name, count) pairs. *)
Definition listed (pairs : list (str * N)) : list WikiCategory.t :=
  map (fun p => WikiCategory.mk (fst p) (snd p))
    (order_by fst (List.filter (fun p => 0 <? snd p) pairs)).

(** The four code units [getPagesByCategory] removes from its argument. *)
Definition like_special (c : char) : bool :=
  (c =? 34) || (c =? 37) || (c =? 95) || (c =? 92).

Definition strip_special (s : str) : str :=
  List.filter (fun c => negb (like_special c)) s.

Definition quoted (s : str) : str := [34] ++ s ++ [34].

Definition no_quote (s : str) : bool := forallb (fun c => negb (c =? 34)) s.

Fixpoint prefix_nocase (p s : str) : bool :=
  match p, s with
  | [], _ => true
  | _ :: _, [] => false
  | x :: p', y :: s' => (ascii_lower x =? ascii_lower y) && prefix_nocase p' s'
  end.

Fixpoint occurs_nocase (p s : str) : bool :=
  prefix_nocase p s
  || match s with
     | [] => false
     | _ :: t => occurs_nocase p t
     end.

Definition no_wildcard (s : str) : Prop := Forall (fun c => c <> 37 /\ c <> 95) s.

(** Text that [JSON.stringify] copies unchanged. *)
Definition json_plain_char (c : char) : bool :=
  (32 <=? c) && negb (c =? 34) && negb (c =? 92)
  && negb (is_high_surrogate c || is_low_surrogate c).

Definition json_plain (s : str) : bool := forallb json_plain_char s.


(** The categories a row holds: what its column parses to. *)
Definition row_categories (r : WikiPageRow.t) : list str :=
  match parse_categories (WikiPageRow.categories r) with
  | Some l => l
  | None => []
  end.


(** A row written by [upsert] from plain category names: the column is the
    text of the list it parses to, and the names are copied unescaped. *)
Definition stored_plain (r : WikiPageRow.t) : bool :=
  str_eqb (WikiPageRow.categories r) (JSON_stringify (row_categories r))
  && forallb json_plain (row_categories r).

(** A name the lookup takes as it is: plain, without [%] and [_], and not
    the single comma. *)
Definition plain_name (name : str) : bool :=
  json_plain name
  && forallb (fun c => negb ((c =? 37) || (c =? 95))) name
  && negb (str_eqb name [44]).

(** No stored category differs from [name] in letter case only. *)
Definition no_case_variant (name : str) (db : Db) : bool :=
  forallb
    (fun r => forallb (fun c => implb (nocase_eqb name c) (str_eqb name c)) (row_categories r))
    (pages db).

Definition category_example : Db :=
  fst (upsertPages (H := example_tokenizer) t0
         [page "Fishing" "Catch fish" ["Activities"%string; "Gameplay"%string];
          page "Cooking" "Cook food" ["Activities"%string; "Food"%string];
          page "Fishing Rod" "A tool" ["Items"%string; "Tools"%string];
          page "Quests" "Side quests" ["Side_Quests"%string]]
         (WikiDatabase (H := example_tokenizer) empty_file)).



(** ** scraper.ts *)

Definition WIKI_BASE : str := js "https://sneaky-sasquatch.fandom.com/wiki/".

(** [encodeURIComponent].  The code units it copies: letters, digits and
    the marks "-_.!~*'()". *)
Definition uri_unreserved (c : char) : bool :=
  is_upper c || is_lower c || is_digit c || existsb (N.eqb c) (js "-_.!~*'()").

(** One octet as [%XX], upper-case digits. *)
Definition upper_hex_digit (n : N) : char := if n <? 10 then 48 + n else 55 + n.

Definition percent_octet (octet : N) : str :=
  [37; upper_hex_digit (octet / 16); upper_hex_digit (octet mod 16)].

(** The UTF-8 octets of a code point. *)
Definition utf8 (cp : N) : list N :=
  if cp <? 0x80 then [cp]
  else if cp <? 0x800 then [0xc0 + cp / 64; 0x80 + cp mod 64]
  else if cp <? 0x10000 then
    [0xe0 + cp / 4096; 0x80 + (cp / 64) mod 64; 0x80 + cp mod 64]
  else
    [0xf0 + cp / 262144; 0x80 + (cp / 4096) mod 64; 0x80 + (cp / 64) mod 64;
     0x80 + cp mod 64].

(** The code point of a surrogate pair. *)
Definition pair_code_point (hi lo : char) : N :=
  0x10000 + (hi - 0xd800) * 1024 + (lo - 0xdc00).

(** [None] is the [URIError] that an unpaired surrogate raises. *)
Fixpoint encodeURIComponent (s : str) : option str :=
  match s with
  | [] => Some []
  | c :: t =>
      if uri_unreserved c then option_map (cons c) (encodeURIComponent t)
      else if is_high_surrogate c then
        match t with
        | d :: t' =>
            if is_low_surrogate d
            then option_map (app (flat_map percent_octet (utf8 (pair_code_point c d))))
                   (encodeURIComponent t')
            else None
        | [] => None
        end
      else if is_low_surrogate c then None
      else option_map (app (flat_map percent_octet (utf8 c))) (encodeURIComponent t)
  end.

(** [titleToUrl]: [WIKI_BASE + encodeURIComponent(title.replace(/ /g, "_"))]. *)
Definition titleToUrl (title : str) : option str :=
  option_map (app WIKI_BASE)
    (encodeURIComponent (replace_all fl_none (Chr 32) (subst (lits "_")) title)).

Definition RATE_LIMIT_MS : N := 250.

(** What [apiRequest] hands to its caller: the JSON of the response, read
    at the type the caller names, or an exception (the request fails, the
    status is not ok, the body is not JSON). *)
Inductive api_result (T : Type) :=
| ApiOk (data : T)
| ApiThrows.
Arguments ApiOk {T} data.
Arguments ApiThrows {T}.

(** The response types of [types.ts]; an optional member is an [option]. *)
Module AllPagesResponse.
Record page := mk_page { pageid : N; ns : N; title : str }.
Record query_t := mk_query { allpages : list page }.
Record continue_t := mk_continue { apcontinue : str; continue : str }.
Record t := mk { query : option query_t; continue_ : option continue_t }.
End AllPagesResponse.

Module ParseResponse.
Record category := mk_category { star : str; sortkey : str }.
Record parse_t := mk_parse {
  title : str;
  pageid : N;
  wikitext : option str;
  categories : option (list category) }.
Record error_t := mk_error { code : str; info : str }.
Record t := mk { parse : option parse_t; error : option error_t }.
End ParseResponse.

(** [pages] is [Object.values(data.query.pages)], in the order of that call. *)
Module RevisionsResponse.
Record revision := mk_revision { timestamp : str }.
Record page := mk_page { pageid : N; title : str; revisions : option (list revision) }.
Record query_t := mk_query { pages : list page }.
Record t := mk { query : option query_t }.
End RevisionsResponse.

(** The wiki and the clock.  [World] is everything outside the program
    that its requests and the passing of time can change.  The three
    requests are [apiRequest] with the parameters of [fetchAllPageTitles]
    (the argument is [apcontinue], when it is set), of [fetchPageContent]
    and of [fetchLastModified] (the argument is the title); [datetime_now w
    k] is SQLite's [datetime('now')] at the [k]-th statement of a batch
    written from [w]. *)
Class MediaWiki := {
  World : Type;
  apiRequest_allpages : option str -> World -> api_result AllPagesResponse.t * World;
  apiRequest_parse : str -> World -> api_result ParseResponse.t * World;
  apiRequest_revisions : str -> World -> api_result RevisionsResponse.t * World;
  sleep : N -> World -> World;
  datetime_now : World -> nat -> str }.

(** [String(n)] for a count. *)
Definition String_of_nat (n : nat) : str := js (NilEmpty.string_of_uint (Nat.to_uint n)).

(** A string that is truthy: not empty. *)
Definition truthy (s : option str) : option str :=
  match s with
  | Some (c :: t) => Some (c :: t)
  | _ => None
  end.

(** [fetchAllPageTitles]: the [do ... while (continueToken)] loop; [fuel]
    bounds the number of requests, and [None] says that the wiki still
    asked to continue when it ran out.  The result carries the titles or
    the exception of [apiRequest], the world and the lines logged. *)
Fixpoint fetchAllPageTitles_loop `{MediaWiki} (fuel : nat) (titles : list str)
  (continueToken : option str) (w : World) (logged : list str)
  : option (api_result (list str) * World * list str) :=
  match fuel with
  | O => None
  | S fuel' =>
      let (resp, w) := apiRequest_allpages (truthy continueToken) w in
      match resp with
      | ApiThrows => Some (ApiThrows, w, logged)
      | ApiOk data =>
          let titles :=
            titles ++ match AllPagesResponse.query data with
                      | Some q => map AllPagesResponse.title (AllPagesResponse.allpages q)
                      | None => []
                      end in
          let continueToken :=
            option_map AllPagesResponse.apcontinue (AllPagesResponse.continue_ data) in
          let logged :=
            logged ++ [js "  Fetched " ++ String_of_nat (length titles)
                       ++ js " titles so far..."] in
          let w := sleep RATE_LIMIT_MS w in
          match truthy continueToken with
          | Some _ => fetchAllPageTitles_loop fuel' titles continueToken w logged
          | None =>
              Some (ApiOk titles, w,
                    logged ++ [js "Found " ++ String_of_nat (length titles)
                               ++ js " total pages."])
          end
      end
  end.

Definition fetchAllPageTitles `{MediaWiki} (fuel : nat) (w : World) (logged : list str)
  : option (api_result (list str) * World * list str) :=
  fetchAllPageTitles_loop fuel [] None w (logged ++ [js "Fetching all page titles..."]).

(** [fetchPageContent]: [null] when the request throws, the response
    carries an error, or there is no wikitext. *)
Definition fetchPageContent `{MediaWiki} (title : str) (w : World)
  : option (str * list str) * World :=
  let (resp, w) := apiRequest_parse title w in
  (match resp with
   | ApiThrows => None
   | ApiOk data =>
       match ParseResponse.error data, ParseResponse.parse data with
       | Some _, _ => None
       | None, None => None
       | None, Some p =>
           match ParseResponse.wikitext p with
           | None => None
           | Some wikitext =>
               let categories :=
                 List.filter (fun c => negb (startsWith c (js "__")))
                   (map (fun c => replace_all fl_none (Chr 95) (subst (lits " "))
                                    (ParseResponse.star c))
                      (match ParseResponse.categories p with
                       | Some l => l
                       | None => []
                       end)) in
               Some (wikitext, categories)
           end
       end
   end, w).

(** [fetchLastModified]: the timestamp of the first revision of the first
    page, or [null]. *)
Definition fetchLastModified `{MediaWiki} (title : str) (w : World) : option str * World :=
  let (resp, w) := apiRequest_revisions title w in
  (match resp with
   | ApiThrows => None
   | ApiOk data =>
       match RevisionsResponse.query data with
       | Some q =>
           match RevisionsResponse.pages q with
           | p :: _ =>
               match RevisionsResponse.revisions p with
               | Some (rev0 :: _) => Some (RevisionsResponse.timestamp rev0)
               | _ => None
               end
           | [] => None
           end
       | None => None
       end
   end, w).

(** What a scrape has at hand: the world, the database and the lines it
    has logged. *)
Record Run `{MediaWiki} := mkRun { world : World; store : Db; logged : list str }.
Arguments mkRun {_} _ _ _.

(** A [Set] of strings, in insertion order. *)
Definition Set_has (x : str) (s : list str) : bool := existsb (str_eqb x) s.

Definition Set_add (s : list str) (x : str) : list str :=
  if Set_has x s then s else s ++ [x].

Definition Set_of (l : list str) : list str := fold_left Set_add l [].

Inductive ScrapeError :=
| ApiError
| URIError
| Sqlite (e : SqliteError).

Definition progress (processed total : nat) : str :=
  js "  [" ++ String_of_nat processed ++ js "/" ++ String_of_nat total ++ js "] ".

(** The [for] loop of [scrapeWiki]; the state is [processed], [failed],
    [batch] and the run. *)
Fixpoint scrape_loop `{MediaWiki} `{Fts5Tokenizer} (batchSize : Z) (total : nat)
  (titles : list str) (processed failed : nat) (batch : list PageData.t) (r : Run)
  : nat * nat * list PageData.t * Run * option ScrapeError :=
  match titles with
  | [] => (processed, failed, batch, r, None)
  | title :: more =>
      let processed := S processed in
      let (content, w) := fetchPageContent title (world r) in
      let w := sleep RATE_LIMIT_MS w in
      match content with
      | None =>
          scrape_loop batchSize total more processed (S failed) batch
            (mkRun w (store r)
               (logged r ++ [progress processed total ++ js "FAILED: " ++ title]))
      | Some (wikitext, categories) =>
          let plainText := parseWikitext wikitext in
          if (length plainText <? 20)%nat then
            scrape_loop batchSize total more processed failed batch
              (mkRun w (store r)
                 (logged r ++ [progress processed total ++ js "SKIPPED (stub): " ++ title]))
          else
            let (lastModified, w) := fetchLastModified title w in
            let w := sleep RATE_LIMIT_MS w in
            match titleToUrl title with
            | None => (processed, failed, batch, mkRun w (store r) (logged r), Some URIError)
            | Some url =>
                let pageData :=
                  PageData.mk (Some title) (Some plainText) (Some url) categories
                    lastModified in
                let batch := batch ++ [pageData] in
                let full := (batchSize <=? Z.of_nat (length batch))%Z in
                match (if full then upsertPages (datetime_now w) batch (store r)
                       else (store r, None)) with
                | (db, Some e) =>
                    (processed, failed, batch, mkRun w db (logged r), Some (Sqlite e))
                | (db, None) =>
                    let batch := if full then [] else batch in
                    let lines :=
                      if (processed mod 50 =? 0)%nat || (processed =? total)%nat
                      then logged r ++ [progress processed total ++ js "Scraped: " ++ title
                                        ++ js " (" ++ String_of_nat failed ++ js " failures)"]
                      else logged r in
                    scrape_loop batchSize total more processed failed batch
                      (mkRun w db lines)
                end
            end
      end
  end.

(** The body of [scrapeWiki] from step 2 on, with the [titles] that
    [fetchAllPageTitles] returned.  The exception, if any, is the one that
    reaches the caller. *)
Definition scrape_titles `{MediaWiki} `{Fts5Tokenizer} (incremental : bool)
  (batchSize : Z) (titles : list str) (r : Run) : Run * option ScrapeError :=
  let existingTitles := Set_of (getAllTitles (store r)) in
  let newPages := List.filter (fun t => negb (Set_has t existingTitles)) titles in
  if incremental && (length newPages =? 0)%nat then
    (mkRun (world r) (store r)
       (logged r ++ [js "No new pages to scrape (incremental mode)."]), None)
  else
    let pagesToScrape := if incremental then newPages else titles in
    let lines :=
      if incremental
      then logged r ++ [js "Incremental mode: " ++ String_of_nat (length newPages)
                        ++ js " new pages to scrape ("
                        ++ String_of_nat (length existingTitles)
                        ++ js " already in database)."]
      else logged r in
    let total := length pagesToScrape in
    match scrape_loop batchSize total pagesToScrape 0 0 [] (mkRun (world r) (store r) lines) with
    | (_, _, _, r, Some e) => (r, Some e)
    | (processed, failed, batch, r, None) =>
        match (if (0 <? length batch)%nat
               then upsertPages (datetime_now (world r)) batch (store r)
               else (store r, None)) with
        | (db, Some e) => (mkRun (world r) db (logged r), Some (Sqlite e))
        | (db, None) =>
            let lines := logged r ++ [js "Refreshing category index..."] in
            match refreshCategories db with
            | (db, Some e) => (mkRun (world r) db lines, Some (Sqlite e))
            | (db, None) =>
                (mkRun (world r) db
                   (lines
                    ++ [[10] ++ js "Scraping complete! "
                        ++ String_of_nat (processed - failed) ++ js "/"
                        ++ String_of_nat total ++ js " pages stored. "
                        ++ String_of_nat failed ++ js " failures.";
                        js "Total pages in database: "
                        ++ String_of_nat (getPageCount db)]),
                 None)
            end
        end
    end.

(** [scrapeWiki] on an open database; [None] when [fetchAllPageTitles] runs
    out of fuel.  Closing the database in the [finally] changes nothing in
    the file. *)
Definition scrapeWiki `{MediaWiki} `{Fts5Tokenizer} (fuel : nat) (incremental : bool)
  (batchSize : Z) (r : Run) : option (Run * option ScrapeError) :=
  match fetchAllPageTitles fuel (world r) (logged r) with
  | None => None
  | Some (ApiThrows, w, lines) => Some (mkRun w (store r) lines, Some ApiError)
  | Some (ApiOk titles, w, lines) =>
      Some (scrape_titles incremental batchSize titles (mkRun w (store r) lines))
  end.

(** ** More of what the theorems are stated with *)

(** The rowids of table [pages]. *)
Definition page_ids (db : Db) : list N := map WikiPageRow.id (pages db).


(** Every page lists a category at most once. *)
Definition categories_once (db : Db) : Prop :=
  Forall (fun r => List.NoDup (row_categories r)) (pages db).

(** The text after its longest prefix of code units that satisfy [p]. *)
Fixpoint skip_while (p : char -> bool) (s : str) : str :=
  match s with
  | [] => []
  | x :: t => if p x then skip_while p t else s
  end.

(** What a token of a search query is made of: [\w] and the hyphen. *)
Definition token_char (c : char) : bool := is_word c || (c =? 45).

(** Whether a text starts with the code unit [c]. *)
Definition hd_is (c : char) (s : str) : bool :=
  match s with
  | x :: _ => x =? c
  | [] => false
  end.

(** How many line feeds a text starts with. *)
Fixpoint lead_nl (s : str) : nat :=
  match s with
  | x :: t => if x =? 10 then S (lead_nl t) else O
  | [] => O
  end.

(** The number of opening braces of a text. *)
Definition count_open (s : str) : nat := length (List.filter (N.eqb 123) s).

(** A string in which every surrogate is half of a pair
    ([String.prototype.isWellFormed]). *)
Fixpoint well_formed (s : str) : bool :=
  match s with
  | [] => true
  | c :: t =>
      if is_high_surrogate c then
        match t with
        | d :: t' => is_low_surrogate d && well_formed t'
        | [] => false
        end
      else negb (is_low_surrogate c) && well_formed t
  end.

(** What a URL written by [titleToUrl] is made of after its base: the
    unreserved code units and the percent sign. *)
Definition url_char (c : char) : bool := uri_unreserved c || (c =? 37).

(** A JavaScript string: every code unit is below 2^16. *)
Definition code_units (s : str) : Prop := Forall (fun c => c < 65536) s.
(** A wiki to run examples with.  The world counts the requests and the
    sleeps.  The title list comes in two parts, the second under the
    continuation token [Missing]; [Fishing] and [Racing] have text, [Stub]
    has too little, [Missing] answers with an error. *)
Definition example_allpages (continueToken : option str) : AllPagesResponse.t :=
  match continueToken with
  | None =>
      AllPagesResponse.mk
        (Some (AllPagesResponse.mk_query
                 [AllPagesResponse.mk_page 11 0 (js "Fishing");
                  AllPagesResponse.mk_page 12 0 (js "Stub")]))
        (Some (AllPagesResponse.mk_continue (js "Missing") (js "-||")))
  | Some _ =>
      AllPagesResponse.mk
        (Some (AllPagesResponse.mk_query
                 [AllPagesResponse.mk_page 13 0 (js "Missing");
                  AllPagesResponse.mk_page 14 0 (js "Racing")]))
        None
  end.

Definition example_parse (title : str) : ParseResponse.t :=
  if str_eqb title (js "Fishing") then
    ParseResponse.mk
      (Some (ParseResponse.mk_parse (js "Fishing") 11
               (Some (js "'''Fishing''' is an [[activity]] of the game. {{stub}}"))
               (Some [ParseResponse.mk_category (js "Side_Quests") (js "Fishing");
                      ParseResponse.mk_category (js "__Hidden") (js "")])))
      None
  else if str_eqb title (js "Racing") then
    ParseResponse.mk
      (Some (ParseResponse.mk_parse (js "Racing") 14
               (Some (js "== Racing ==   Cars race on the [[Race Track|track]] at noon."))
               None))
      None
  else if str_eqb title (js "Stub") then
    ParseResponse.mk
      (Some (ParseResponse.mk_parse (js "Stub") 12 (Some (js "{{stub}} soon")) (Some [])))
      None
  else
    ParseResponse.mk None
      (Some (ParseResponse.mk_error (js "missingtitle") (js "The page does not exist."))).

Definition example_revisions (title : str) : RevisionsResponse.t :=
  if str_eqb title (js "Fishing") then
    RevisionsResponse.mk
      (Some (RevisionsResponse.mk_query
               [RevisionsResponse.mk_page 11 (js "Fishing")
                  (Some [RevisionsResponse.mk_revision (js "2024-03-01T12:00:00Z")])]))
  else RevisionsResponse.mk None.

Definition example_wiki : MediaWiki :=
  {| World := nat;
     apiRequest_allpages := fun token w => (ApiOk (example_allpages token), S w);
     apiRequest_parse := fun title w => (ApiOk (example_parse title), S w);
     apiRequest_revisions := fun title w => (ApiOk (example_revisions title), S w);
     sleep := fun _ w => S w;
     datetime_now := fun w k => js "2024-03-02 10:00:" ++ String_of_nat (w + k) |}.

Definition example_run : Run (H := example_wiki) :=
  mkRun (H := example_wiki) O category_example [].
(** A page as the loop of [scrapeWiki] builds it: the title, the parsed
    text of some wikitext, at least 20 code units long, the URL of the
    title, and categories without underscore. *)
Definition scraped_page (p : PageData.t) : Prop :=
  exists title wikitext url,
    PageData.title p = Some title
    /\ PageData.content p = Some (parseWikitext wikitext)
    /\ PageData.url p = Some url
    /\ (20 <= length (parseWikitext wikitext))%nat
    /\ titleToUrl title = Some url
    /\ Forall (fun c => ~ In 95 c) (PageData.categories p).

(** A row that holds such a page. *)
Definition scraped_row (row : WikiPageRow.t) : Prop :=
  (20 <= length (WikiPageRow.content row))%nat
  /\ (exists wikitext, WikiPageRow.content row = parseWikitext wikitext)
  /\ titleToUrl (WikiPageRow.title row) = Some (WikiPageRow.url row)
  /\ exists cats, WikiPageRow.categories row = JSON_stringify cats
                  /\ Forall (fun c => ~ In 95 c) cats.

(** * Facts *)

(** ** The repository's own parser tests, run on the embedding *)

Example test_wikilinks :
  parseWikitext (js "[[Fishing Rod|rod]]") = js "rod"
  /\ parseWikitext (js "[[Fishing]]") = js "Fishing"
  /\ parseWikitext (js "Use [[Fishing Rod|rod]] at [[Lake]]") = js "Use rod at Lake".
Proof. repeat split; vm_compute; reflexivity. Qed.

Example test_external_links :
  parseWikitext (js "[https://example.com Example Site]") = js "Example Site"
  /\ parseWikitext (js "[https://example.com/page]") = js "example.com/page".
Proof. repeat split; vm_compute; reflexivity. Qed.

Example test_headers_and_emphasis :
  parseWikitext (js "== Getting Started ==") = js "Getting Started"
  /\ parseWikitext (js "==== Substep ====") = js "Substep"
  /\ parseWikitext (js "'''bold text'''") = js "bold text"
  /\ parseWikitext (js "''italic text''") = js "italic text"
  /\ parseWikitext (js "'''''bold italic'''''") = js "bold italic".
Proof. repeat split; vm_compute; reflexivity. Qed.

Example test_files_and_categories :
  parseWikitext (js "[[File:Screenshot.png|thumb|A screenshot]]") = []
  /\ parseWikitext (js "Before [[File:Pic.png|200px]] after") = js "Before after"
  /\ parseWikitext (js (lf "[[Category:Food]]" "[[Category:Items]]")) = [].
Proof. repeat split; vm_compute; reflexivity. Qed.

Example test_templates :
  parseWikitext (js "{{stub}}") = []
  /\ parseWikitext (js "{{outer|{{inner}}}}") = []
  /\ parseWikitext (js "{{quote|Hello world}}") = [34] ++ js "Hello world" ++ [34]
  /\ parseWikitext (js "{{main|Fishing}}") = js "(See: Fishing)"
  /\ parseWikitext (js "{{color|red|important text}}") = js "important text"
  /\ parseWikitext (js "{{nihongo|Sasquatch}}") = js "Sasquatch"
  /\ parseWikitext (js "{{Infobox character|name = Sasquatch|type = Player}}")
     = js (lf "name: Sasquatch" "type: Player")
  /\ parseWikitext (js "{{Infobox item|name = Apple|image = apple.png|caption = An apple}}")
     = js "name: Apple".
Proof. repeat split; vm_compute; reflexivity. Qed.

Example test_html :
  parseWikitext (js "Line one<br/>Line two") = js (lf "Line one" "Line two")
  /\ parseWikitext (js "<div>content</div>") = js "content"
  /\ parseWikitext (js "<span style=" ++ [34] ++ js "color:red" ++ [34] ++ js ">warning</span>")
     = js "warning"
  /\ parseWikitext (js (lf "before" (lf "<!-- multi" (lf "line" (lf "comment -->" "after")))))
     = js (lf "before" (lf "" "after")).
Proof. repeat split; vm_compute; reflexivity. Qed.

Example test_entities :
  parseWikitext (js "Tom &amp; Jerry") = js "Tom & Jerry"
  /\ parseWikitext (js "&lt;tag&gt;") = js "<tag>"
  /\ parseWikitext (js "word&nbsp;word") = js "word word"
  /\ parseWikitext (js "&#65;&#66;&#67;") = js "ABC"
  /\ parseWikitext (js "&#x41;&#x42;&#x43;") = js "ABC"
  /\ parseWikitext (js "a&ndash;b&mdash;c") = [97; 0x2013; 98; 0x2014; 99].
Proof. repeat split; vm_compute; reflexivity. Qed.

Example test_lists_and_tables :
  parseWikitext (js (lf "* Item one" "* Item two")) = js (lf "- Item one" "- Item two")
  /\ parseWikitext (js (lf "* Item" "** Sub-item")) = js (lf "- Item" "- Sub-item")
  /\ parseWikitext (js (lf "# First" "# Second")) = js (lf "- First" "- Second")
  /\ parseWikitext (js ": Indented text") = js "Indented text"
  /\ parseWikitext (js "| Apple || 5 || Common") = js "Apple | 5 | Common"
  /\ parseWikitext (js "|+ My Table Caption") = js "My Table Caption".
Proof. repeat split; vm_compute; reflexivity. Qed.

Example test_magic_and_whitespace :
  parseWikitext (js "__TOC__") = []
  /\ parseWikitext (js "__NOTOC__") = []
  /\ parseWikitext (js "__FORCETOC__") = []
  /\ parseWikitext (js "{{DISPLAYTITLE:Custom Title}}") = []
  /\ parseWikitext (js (lf "above" (lf "----" "below"))) = js (lf "above" (lf "" "below"))
  /\ parseWikitext (js "Keep <noinclude>Remove this</noinclude> this") = js "Keep this"
  /\ parseWikitext (js "A <includeonly>B</includeonly> C") = js "A B C"
  /\ parseWikitext (js "too    many    spaces") = js "too many spaces"
  /\ parseWikitext (js (lf "para one" (lf "" (lf "" (lf "" (lf "" "para two"))))))
     = js (lf "para one" (lf "" "para two"))
  /\ parseWikitext (js (lf "  " (lf "  hello  " "  "))) = js "hello"
  /\ parseWikitext [] = [].
Proof. repeat split; vm_compute; reflexivity. Qed.

(** ** The matcher: what a match can reach *)

Lemma or_else_ind {A} (R : option A -> Prop) (a b : option A) :
  R a -> R b -> R (or_else a b).
Proof. destruct a; simpl; auto. Qed.

Lemma sub_succ_self (n : nat) : (S n - n = 1)%nat.
Proof. lia. Qed.

Section MatcherInvariant.

(** [Q] holds of the code units still to read, [C] of the captured texts;
    [R] is what is to be shown of the result. *)
Variable Q : char -> Prop.
Variable C : str -> Prop.
Variable R : option mstate -> Prop.
Hypothesis C_firstn : forall l n, Forall Q l -> C (firstn n l).
Hypothesis R_None : R None.

Local Abbreviation st_ok := (st_within Q C).

Lemma st_suffix_refl st : st_suffix st st.
Proof. exists []. reflexivity. Qed.

Lemma st_suffix_trans a b c : st_suffix a b -> st_suffix b c -> st_suffix a c.
Proof.
  intros [p Hp] [q Hq]. exists (q ++ p). rewrite Hq, Hp. apply app_assoc.
Qed.

Lemma st_ok_advance x t st :
  rest st = x :: t -> st_ok st ->
  st_ok (advance x t st) /\ st_suffix (advance x t st) st.
Proof using Type.
  intros E [Hr Hc]. rewrite E in Hr. inversion Hr; subst.
  split; [split; assumption|]. exists [x]. simpl. assumption.
Qed.

Lemma star_loop_inv ma greedy k :
  (forall k' st, st_ok st ->
     (forall st', st_ok st' -> st_suffix st' st -> R (k' st')) -> R (ma k' st)) ->
  forall n st, st_ok st ->
    (forall st', st_ok st' -> st_suffix st' st -> R (k st')) ->
    R (star_loop ma greedy k n st).
Proof using R_None.
  intros Hma. induction n as [|n IH]; intros st Hok Hk; simpl.
  - apply Hk; [assumption | apply st_suffix_refl].
  - assert (Hagain : R (ma (fun st' =>
        if (length (rest st') <? length (rest st))%nat
        then star_loop ma greedy k n st' else None) st)).
    { apply Hma; [assumption|]. intros st' Hok' Hsuf.
      destruct (length (rest st') <? length (rest st))%nat; [|assumption].
      apply IH; [assumption|]. intros st'' Hok'' Hsuf'.
      apply Hk; [assumption|]. eapply st_suffix_trans; eassumption. }
    assert (Hstop : R (k st)) by (apply Hk; [assumption | apply st_suffix_refl]).
    destruct greedy; apply or_else_ind; assumption.
Qed.

Lemma m_inv f r :
  forall k st, st_ok st ->
    (forall st', st_ok st' -> st_suffix st' st -> R (k st')) ->
    R (m f r k st).
Proof using C_firstn R_None.
  induction r as [|c| |neg items| | |a IHa b IHb|a IHa b IHb|greedy a IHa|n a IHa];
    intros k st Hok Hk; simpl.
  - apply Hk; [assumption | apply st_suffix_refl].
  - destruct (rest st) as [|x t] eqn:E; [assumption|].
    destruct (chr_match f c x); [|assumption].
    destruct (st_ok_advance x t st E Hok). apply Hk; assumption.
  - destruct (rest st) as [|x t] eqn:E; [assumption|].
    destruct (dotAll f || negb (is_line_terminator x)); [|assumption].
    destruct (st_ok_advance x t st E Hok). apply Hk; assumption.
  - destruct (rest st) as [|x t] eqn:E; [assumption|].
    destruct (xorb neg (cls_has f items x)); [|assumption].
    destruct (st_ok_advance x t st E Hok). apply Hk; assumption.
  - destruct (at_bol f st); [|assumption].
    apply Hk; [assumption | apply st_suffix_refl].
  - destruct (at_eol f st); [|assumption].
    apply Hk; [assumption | apply st_suffix_refl].
  - apply IHa; [assumption|]. intros st' Hok' Hsuf.
    apply IHb; [assumption|]. intros st'' Hok'' Hsuf'.
    apply Hk; [assumption|]. eapply st_suffix_trans; eassumption.
  - apply or_else_ind; [apply IHa | apply IHb]; assumption.
  - apply star_loop_inv; assumption.
  - apply IHa; [assumption|]. intros st' [Hr' Hc'] Hsuf.
    apply Hk; [|exact Hsuf].
    split; [exact Hr'|]. simpl. constructor; [|exact Hc'].
    simpl. unfold consumed. apply C_firstn. apply Hok.
Qed.

End MatcherInvariant.

(** Case analysis on the comparisons of code units in the goal. *)
Ltac nb :=
  repeat match goal with
    | |- context [N.leb ?a ?b] => destruct (N.leb_spec a b)
    | |- context [N.ltb ?a ?b] => destruct (N.ltb_spec a b)
    | |- context [N.eqb ?a ?b] => destruct (N.eqb_spec a b)
    end;
  cbn [andb orb negb xorb] in *; try lia; try congruence; try discriminate; try reflexivity.

Lemma chr_match_cases f c x :
  chr_match f c x = true -> x = c \/ x = ascii_upper c \/ x = ascii_lower c.
Proof.
  unfold chr_match, ascii_upper, ascii_lower, is_lower, is_upper.
  destruct (ignoreCase f); nb; intros Hm; try discriminate Hm; lia.
Qed.

Lemma avoid_no_match bad f r :
  avoid bad r = true ->
  forall k st, free_of bad (rest st) -> m f r k st = None.
Proof.
  induction r as [|c| |neg items| | |a IHa b IHb|a IHa b IHb|greedy a IHa|n a IHa];
    simpl; intros Hav k st Hfree; try discriminate.
  - destruct (rest st) as [|x t] eqn:E; [reflexivity|].
    destruct (chr_match f c x) eqn:Em; [|reflexivity].
    exfalso. inversion Hfree as [|? ? Hx _]; subst.
    apply andb_prop in Hav as [Hav H3]. apply andb_prop in Hav as [H1 H2].
    destruct (chr_match_cases _ _ _ Em) as [->|[->| ->]]; congruence.
  - apply orb_prop in Hav as [Ha|Hb].
    + apply IHa; assumption.
    + apply (m_inv (fun x => bad x = false) (fun _ => True) (fun o => o = None));
        [intros; exact I | reflexivity | | ].
      * split; [exact Hfree|]. apply Forall_forall. intros; exact I.
      * intros st' [Hr _] _. apply IHb; assumption.
  - apply andb_prop in Hav as [Ha Hb].
    rewrite (IHa Ha), (IHb Hb) by assumption. reflexivity.
  - apply IHa; assumption.
Qed.

Lemma free_of_tail bad x t : free_of bad (x :: t) -> free_of bad t.
Proof. intros H. inversion H; assumption. Qed.

Lemma replace_go_avoid bad f r rp :
  avoid bad r = true ->
  forall s pv, free_of bad s -> replace_go f r rp O pv s = s.
Proof.
  intros Hav. induction s as [|x t IH]; intros pv Hfree; simpl.
  - unfold match_at. rewrite (avoid_no_match bad); [reflexivity|assumption|assumption].
  - unfold match_at. rewrite (avoid_no_match bad); [|assumption|assumption].
    rewrite IH; [reflexivity|]. eapply free_of_tail; eassumption.
Qed.


Lemma cap_get_within (Q : char -> Prop) cs n :
  Forall (fun c => Forall Q (snd c)) cs -> Forall Q (cap_get cs n).
Proof.
  induction cs as [|[i s] cs IH]; simpl; intros H; [constructor|].
  inversion H; subst. destruct (Nat.eqb i n); auto.
Qed.

Lemma Forall_firstn_str (Q : char -> Prop) (l : str) n : Forall Q l -> Forall Q (firstn n l).
Proof.
  revert n. induction l as [|x l IH]; intros [|n] H; simpl; try constructor.
  - inversion H; assumption.
  - inversion H; auto.
Qed.

Lemma match_at_within (Q : char -> Prop) f r pv s st' :
  Forall Q s -> match_at f r pv s = Some st' ->
  Forall Q (rest st') /\ Forall (fun c => Forall Q (snd c)) (caps st').
Proof.
  intros Hs. unfold match_at.
  apply (m_inv Q (Forall Q)
           (fun o => o = Some st' ->
                     Forall Q (rest st') /\ Forall (fun c => Forall Q (snd c)) (caps st'))).
  - intros; apply Forall_firstn_str; assumption.
  - discriminate.
  - split; [exact Hs | constructor].
  - intros st'' Hok _ E. injection E as <-. exact Hok.
Qed.

Lemma replace_go_within (Q : char -> Prop) f r rp :
  repl_within Q rp ->
  forall s skip pv, Forall Q s -> Forall Q (replace_go f r rp skip pv s).
Proof.
  intros Hrp. induction s as [|x t IH]; intros skip pv Hs.
  - destruct skip; simpl; [|constructor].
    destruct (match_at f r pv []) as [st'|] eqn:E; [|constructor].
    destruct (match_at_within Q _ _ _ _ _ Hs E) as [_ Hc].
    apply Hrp; [constructor|]. intros; apply cap_get_within; assumption.
  - assert (Ht : Forall Q t) by (inversion Hs; assumption).
    destruct skip; simpl; [|apply IH; assumption].
    destruct (match_at f r pv (x :: t)) as [st'|] eqn:E.
    + destruct (match_at_within Q _ _ _ _ _ Hs E) as [_ Hc].
      assert (Hout : Forall Q (rp (firstn (length (x :: t) - length (rest st')) (x :: t))
                              (cap_get (caps st')))).
      { apply Hrp; [apply Forall_firstn_str; assumption|].
        intros; apply cap_get_within; assumption. }
      simpl in Hout.
      destruct (S (length t) - length (rest st'))%nat.
      * apply Forall_app; split; [exact Hout|].
        constructor; [inversion Hs; assumption | apply IH; assumption].
      * apply Forall_app; split; [exact Hout | apply IH; assumption].
    + constructor; [inversion Hs; assumption | apply IH; assumption].
Qed.


(** Replacing the matches of one class is a map over the code units. *)
Lemma replace_go_class f neg items rp s :
  forall pv,
    replace_go f (Cls neg items) rp O pv s
    = flat_map (fun x => if xorb neg (cls_has f items x) then rp [x] (cap_get []) else [x]) s.
Proof.
  induction s as [|x t IH]; intros pv; [reflexivity|].
  cbn [replace_go flat_map]. unfold match_at. cbn [m rest].
  destruct (xorb neg (cls_has f items x)).
  - cbn [rest advance caps length]. rewrite sub_succ_self. cbn [firstn].
    rewrite IH. reflexivity.
  - rewrite IH. reflexivity.
Qed.

(** ** Template resolution: the capped loop *)

Lemma str_eqb_eq (a b : str) : str_eqb a b = true <-> a = b.
Proof.
  revert b. induction a as [|x a IH]; intros [|y b]; simpl; split; intros H;
    try reflexivity; try discriminate.
  - apply andb_prop in H as [H1 H2]. apply N.eqb_eq in H1. apply IH in H2. congruence.
  - injection H as -> ->. rewrite N.eqb_refl. simpl. apply IH. reflexivity.
Qed.

Lemma str_eqb_refl (a : str) : str_eqb a a = true.
Proof. apply str_eqb_eq. reflexivity. Qed.

Lemma processTemplates_loop_passes budget :
  forall iterations previous text,
    let r := processTemplates_loop budget iterations previous text in
    (iterations <= snd r <= iterations + budget)%nat
    /\ fst r = Nat.iter (snd r - iterations) template_pass text.
Proof.
  induction budget as [|b IH]; intros iterations previous text;
    cbn [processTemplates_loop]; cbv zeta.
  - cbn [fst snd]. split; [lia|]. rewrite Nat.sub_diag. reflexivity.
  - destruct (str_eqb text previous).
    + cbn [fst snd]. split; [lia|]. rewrite Nat.sub_diag. reflexivity.
    + specialize (IH (S iterations) text (template_pass text)). cbv zeta in IH.
      destruct IH as [Hn Hout]. split; [lia|].
      rewrite Hout.
      replace (snd (processTemplates_loop b (S iterations) text (template_pass text))
               - iterations)%nat
        with (S (snd (processTemplates_loop b (S iterations) text (template_pass text))
                 - S iterations))%nat by lia.
      rewrite Nat.iter_succ_r. reflexivity.
Qed.

Lemma processTemplates_loop_settled budget :
  forall iterations previous text,
    template_pass previous = text ->
    let r := processTemplates_loop budget iterations previous text in
    (snd r < iterations + budget)%nat -> template_pass (fst r) = fst r.
Proof.
  induction budget as [|b IH]; intros iterations previous text Hprev;
    cbn [processTemplates_loop]; cbv zeta.
  - cbn [fst snd]. lia.
  - destruct (str_eqb text previous) eqn:E.
    + cbn [fst snd]. intros _. apply str_eqb_eq in E. congruence.
    + intros Hlt. apply (IH (S iterations) text (template_pass text)); [reflexivity|].
      cbv zeta. lia.
Qed.



(** C6.  Template resolution makes at most 50 passes on every input and
    returns (the embedding is a total function, so no input raises): its
    result is the text after that many passes; when it stopped before the
    cap the result has settled (a further pass changes nothing); when the
    cap is reached it returns the text of the 50th pass as it is, template
    markers included, as on 51 nested templates, where [{{}}] is left. *)
Theorem processTemplates_capped (text : str) :
  let out := fst (processTemplates_run text) in
  let passes := snd (processTemplates_run text) in
  maxIterations = 50%nat
  /\ (passes <= maxIterations)%nat
  /\ processTemplates text = out
  /\ out = Nat.iter passes template_pass text
  /\ ((passes < maxIterations)%nat -> template_pass out = out)
  /\ processTemplates_run nested51 = (js "{{}}", 50%nat)
  /\ test fl_none re_template (js "{{}}") = true.
Proof.
  cbv zeta. unfold processTemplates, processTemplates_run.
  pose proof (processTemplates_loop_passes maxIterations 0 [] text) as [Hn Hout].
  rewrite Nat.sub_0_r in Hout.
  split; [reflexivity|]. split; [lia|]. split; [reflexivity|]. split; [exact Hout|].
  split.
  - unfold maxIterations in *.
    change (processTemplates_loop 50 0 [] text)
      with (if str_eqb text [] then (text, 0%nat)
            else processTemplates_loop 49 1 text (template_pass text)).
    destruct (str_eqb text []) eqn:E.
    + intros _. apply str_eqb_eq in E. subst text. vm_compute. reflexivity.
    + intros Hlt.
      apply (processTemplates_loop_settled 49 1 text (template_pass text)); [reflexivity|].
      cbv zeta. lia.
  - split; vm_compute; reflexivity.
Qed.

(** ** Clean plain text is a fixed point of [parseWikitext] *)



(** The matcher's equations, for rewriting. *)
Lemma m_Seq f a b k st : m f (Seq a b) k st = m f a (fun st' => m f b k st') st.
Proof. reflexivity. Qed.

Lemma m_Star f greedy a k st :
  m f (Star greedy a) k st = star_loop (m f a) greedy k (length (rest st)) st.
Proof. reflexivity. Qed.

Lemma m_Cls_cons f neg items k pv x t cs :
  m f (Cls neg items) k {| prev := pv; rest := x :: t; caps := cs |}
  = if xorb neg (cls_has f items x)
    then k {| prev := Some x; rest := t; caps := cs |} else None.
Proof. reflexivity. Qed.

Lemma m_Cls_nil f neg items k pv cs :
  m f (Cls neg items) k {| prev := pv; rest := []; caps := cs |} = None.
Proof. reflexivity. Qed.

Lemma m_Chr_cons f c k pv x t cs :
  m f (Chr c) k {| prev := pv; rest := x :: t; caps := cs |}
  = if chr_match f c x then k {| prev := Some x; rest := t; caps := cs |} else None.
Proof. reflexivity. Qed.

Lemma m_Chr_nil f c k pv cs :
  m f (Chr c) k {| prev := pv; rest := []; caps := cs |} = None.
Proof. reflexivity. Qed.

(** [replace_go] at a position without a match, and at a match of one
    code unit. *)
Lemma replace_go_nil_none f r rp pv :
  match_at f r pv [] = None -> replace_go f r rp O pv [] = [].
Proof. intros E. cbn [replace_go]. rewrite E. reflexivity. Qed.

Lemma replace_go_cons_none f r rp pv x t :
  match_at f r pv (x :: t) = None ->
  replace_go f r rp O pv (x :: t) = x :: replace_go f r rp O (Some x) t.
Proof. intros E. cbn [replace_go]. rewrite E. reflexivity. Qed.






Lemma startsWith_nil s : startsWith s [] = true.
Proof. destruct s; reflexivity. Qed.

Lemma match_at_three_newlines_miss pv s :
  startsWith s [10; 10; 10] = false ->
  match_at fl_none (seqs [times 3 (Chr 10); Star true (Chr 10)]) pv s = None.
Proof.
  intros H. unfold match_at. cbn [seqs times]. rewrite !m_Seq.
  destruct s as [|x [|y [|z t]]]; cbn [startsWith] in H.
  - apply m_Chr_nil.
  - rewrite m_Chr_cons. unfold chr_match. cbn [ignoreCase fl_none].
    destruct (10 =? x); [|reflexivity]. rewrite m_Seq. apply m_Chr_nil.
  - rewrite m_Chr_cons. unfold chr_match. cbn [ignoreCase fl_none].
    destruct (10 =? x); [|reflexivity]. rewrite m_Seq, m_Chr_cons.
    unfold chr_match. cbn [ignoreCase fl_none].
    destruct (10 =? y); [|reflexivity]. apply m_Chr_nil.
  - rewrite m_Chr_cons. unfold chr_match. cbn [ignoreCase fl_none].
    rewrite (N.eqb_sym 10 x).
    destruct (x =? 10) eqn:Ex; [|reflexivity]. rewrite m_Seq, m_Chr_cons.
    unfold chr_match. cbn [ignoreCase fl_none]. rewrite (N.eqb_sym 10 y).
    destruct (y =? 10) eqn:Ey; [|reflexivity]. rewrite m_Chr_cons.
    unfold chr_match. cbn [ignoreCase fl_none]. rewrite (N.eqb_sym 10 z).
    destruct (z =? 10) eqn:Ez; [|reflexivity].
    rewrite startsWith_nil in H. discriminate H.
Qed.








(** ** Delimiters in the output *)

Lemma subst_within (Q : char -> Prop) (t : list ritem) :
  Forall (fun i => match i with RLit s => Forall Q s | RRef _ => True end) t ->
  repl_within Q (subst t).
Proof.
  intros Ht mt g _ Hg. unfold subst.
  induction Ht as [|i t Hi _ IH]; simpl; [constructor|].
  apply Forall_app; split; [|exact IH].
  destruct i; [exact Hi | apply Hg].
Qed.

Lemma drop_space_within (Q : char -> Prop) s : Forall Q s -> Forall Q (drop_space s).
Proof.
  induction 1 as [|x t Hx Ht IH]; simpl; [constructor|].
  destruct (is_space x); [exact IH | constructor; assumption].
Qed.

Lemma trim_within (Q : char -> Prop) s : Forall Q s -> Forall Q (trim s).
Proof.
  intros H. unfold trim.
  apply Forall_rev, drop_space_within, Forall_rev, drop_space_within, H.
Qed.

Lemma split_go_within (Q : char -> Prop) sep s :
  forall skip cur, Forall Q cur -> Forall Q s -> Forall (Forall Q) (split_go sep skip cur s).
Proof.
  induction s as [|x t IH]; intros skip cur Hcur Hs; cbn [split_go].
  - constructor; [apply Forall_rev; exact Hcur | constructor].
  - inversion Hs; subst. destruct skip.
    + destruct (startsWith (x :: t) sep).
      * constructor; [apply Forall_rev; exact Hcur|]. apply IH; [constructor | assumption].
      * apply IH; [constructor|]; assumption.
    + apply IH; assumption.
Qed.

Lemma join_within (Q : char -> Prop) sep l :
  Forall Q sep -> Forall (Forall Q) l -> Forall Q (join sep l).
Proof.
  intros Hsep. induction 1 as [|a l Ha Hl IH]; simpl; [constructor|].
  destruct l; [exact Ha|].
  apply Forall_app; split; [exact Ha|]. apply Forall_app; split; assumption.
Qed.



Section DelimiterFree.

Local Abbreviation Q := not_delim.





End DelimiterFree.




(** ** Queries that sanitize to nothing *)

Lemma cls_has_space y : cls_has fl_none [CSpace] y = is_space y.
Proof.
  unfold cls_has. cbn [existsb item_has ignoreCase fl_none andb].
  rewrite !orb_false_r. reflexivity.
Qed.

(** A greedy star over a class runs to the end of a text made of it. *)
Lemma star_loop_all f items t :
  Forall (fun y => cls_has f items y = true) t ->
  forall n pv cs, (length t <= n)%nat ->
    exists pv',
      star_loop (m f (Cls false items)) true Some n {| prev := pv; rest := t; caps := cs |}
      = Some {| prev := pv'; rest := []; caps := cs |}.
Proof.
  induction 1 as [|y t Hy Ht IH]; intros n pv cs Hn.
  - exists pv. destruct n; [reflexivity|]. cbn [star_loop]. rewrite m_Cls_nil. reflexivity.
  - destruct n as [|n]; [cbn [length] in Hn; lia|].
    cbn [star_loop]. rewrite m_Cls_cons. cbn [xorb]. rewrite Hy. cbn [rest length].
    rewrite (proj2 (Nat.ltb_lt (length t) (S (length t)))) by lia.
    destruct (IH n (Some y) cs) as [pv' E]; [cbn [length] in Hn; lia|].
    exists pv'. rewrite E. reflexivity.
Qed.

Lemma match_at_plus_all f items pv x t :
  Forall (fun y => cls_has f items y = true) (x :: t) ->
  exists pv',
    match_at f (Plus true (Cls false items)) pv (x :: t)
    = Some {| prev := pv'; rest := []; caps := [] |}.
Proof.
  intros H. inversion H as [|? ? Hx Ht]; subst.
  unfold match_at, Plus. rewrite m_Seq, m_Cls_cons. cbn [xorb]. rewrite Hx, m_Star.
  cbn [rest]. apply star_loop_all; [exact Ht | lia].
Qed.

Lemma split_re_go_skip f r t :
  forall k cur pv, (length t <= k)%nat -> split_re_go f r k cur pv t = [rev cur].
Proof.
  induction t as [|y t IH]; intros k cur pv Hk; [reflexivity|].
  destruct k as [|k]; [cbn [length] in Hk; lia|].
  cbn [split_re_go]. apply IH. cbn [length] in Hk. lia.
Qed.

Lemma split_spaces_no_token s :
  Forall (fun y => is_space y = true) s ->
  List.filter (fun t => (0 <? length t)%nat) (split_re fl_none (Plus true c_sp) s) = [].
Proof.
  intros H. destruct s as [|x t]; [reflexivity|].
  unfold split_re, c_sp. cbn [split_re_go].
  destruct (match_at_plus_all fl_none [CSpace] None x t) as [pv' E].
  { eapply Forall_impl; [|exact H]. intros y Hy. rewrite cls_has_space. exact Hy. }
  rewrite E. cbn [rest length Nat.sub].
  rewrite split_re_go_skip by lia. reflexivity.
Qed.

Lemma sanitized_all_space query :
  forallb not_token_char query = true ->
  Forall (fun y => is_space y = true)
    (replace_all fl_none re_not_query_char (subst (lits " ")) query).
Proof.
  intros H. unfold replace_all, re_not_query_char. rewrite replace_go_class.
  induction query as [|x t IH]; [constructor|].
  cbn [forallb] in H. apply andb_prop in H as [Hx Ht].
  cbn [flat_map]. apply Forall_app. split; [|apply IH; exact Ht].
  unfold not_token_char in Hx. apply negb_true_iff in Hx.
  apply orb_false_elim in Hx as [Hw Hh].
  change (ch "-") with 45.
  unfold cls_has. cbn [existsb item_has ignoreCase fl_none andb].
  rewrite Hw, Hh, !orb_false_r. cbn [orb xorb].
  destruct (is_space x) eqn:Es; cbn [negb].
  - constructor; [exact Es | constructor].
  - repeat constructor.
Qed.

Lemma query_tokens_nothing query :
  forallb not_token_char query = true -> query_tokens query = [].
Proof.
  intros H. unfold query_tokens.
  apply split_spaces_no_token, sanitized_all_space, H.
Qed.

(** C8.  A query that sanitizes to no token (in particular the empty
    string, and any string without a word character or hyphen: punctuation,
    white space) gets the empty result, and no MATCH query is run, whatever
    the store holds; [searchPages] is total, so nothing is raised. *)
Theorem searchPages_no_tokens `{Fts5Engine} (query : str) (limit : Z) (db : Db) :
  query_tokens query = [] \/ forallb not_token_char query = true ->
  query_tokens query = []
  /\ sanitizeFtsQuery query = []
  /\ searchPages query limit db = ([], []).
Proof.
  intros Hq.
  assert (E : query_tokens query = []).
  { destruct Hq as [E|Hc]; [exact E | apply query_tokens_nothing; exact Hc]. }
  assert (E' : sanitizeFtsQuery query = []).
  { unfold sanitizeFtsQuery. rewrite E. reflexivity. }
  split; [exact E|]. split; [exact E'|].
  unfold searchPages. rewrite E'. reflexivity.
Qed.

Lemma searchPages_no_tokens_witness :
  forallb not_token_char (js "@#$%^&*") = true
  /\ forallb not_token_char [] = true
  /\ searchPages (H := example_engine) (js "@#$%^&*") 5 empty_file = ([], [])
  /\ searchPages (H := example_engine) [] 5 empty_file = ([], [])
  /\ fst (searchPages (H := example_engine) (js "fishing") 5 empty_file) <> [].
Proof.
  split; [reflexivity|]. split; [reflexivity|].
  split; [apply (searchPages_no_tokens (js "@#$%^&*") 5 empty_file); right; reflexivity|].
  split; [apply (searchPages_no_tokens [] 5 empty_file); right; reflexivity|].
  vm_compute. discriminate.
Defined.

(** ** The page table under [upsert] *)

Lemma title_is_eq t r : title_is t r = true <-> WikiPageRow.title r = t.
Proof. unfold title_is. apply str_eqb_eq. Qed.

Lemma find_title_is t rows r :
  find (title_is t) rows = Some r -> WikiPageRow.title r = t /\ In r rows.
Proof.
  intros H. apply find_some in H as [Hin Ht]. split; [apply title_is_eq; exact Ht | exact Hin].
Qed.

Lemma find_title_none t rows :
  find (title_is t) rows = None -> ~ In t (map WikiPageRow.title rows).
Proof.
  intros H Hin. apply in_map_iff in Hin as [r [Hr Hin]].
  pose proof (find_none _ _ H r Hin) as Hf.
  apply title_is_eq in Hr. congruence.
Qed.

Lemma replace_row_titles t new rows :
  WikiPageRow.title new = t ->
  map WikiPageRow.title (replace_row t new rows) = map WikiPageRow.title rows.
Proof.
  intros Hn. induction rows as [|r rs IH]; [reflexivity|].
  cbn [replace_row]. destruct (title_is t r) eqn:E; cbn [map].
  - apply title_is_eq in E. congruence.
  - rewrite IH. reflexivity.
Qed.

Lemma replace_row_length t new rows : length (replace_row t new rows) = length rows.
Proof.
  induction rows as [|r rs IH]; [reflexivity|].
  cbn [replace_row]. destruct (title_is t r); cbn [length]; [reflexivity | rewrite IH; reflexivity].
Qed.

Lemma replace_row_find t new rows old :
  WikiPageRow.title new = t ->
  find (title_is t) rows = Some old ->
  find (title_is t) (replace_row t new rows) = Some new.
Proof.
  intros Hn. induction rows as [|r rs IH]; [discriminate|].
  cbn [replace_row find]. destruct (title_is t r) eqn:E.
  - intros _. cbn [find]. rewrite (proj2 (title_is_eq t new) Hn). reflexivity.
  - intros H. cbn [find]. rewrite E. apply IH. exact H.
Qed.

Lemma find_app_none t rows new :
  find (title_is t) rows = None -> WikiPageRow.title new = t ->
  find (title_is t) (rows ++ [new]) = Some new.
Proof.
  intros H Hn. induction rows as [|r rs IH]; cbn [app find].
  - rewrite (proj2 (title_is_eq t new) Hn). reflexivity.
  - cbn [find] in H. destruct (title_is t r); [discriminate | apply IH; exact H].
Qed.



(** What one upsert of a page with all its columns leaves behind. *)
Lemma upsert_stmt_valid `{Fts5Tokenizer} now t c u cats lm db :
  let r := upsert_stmt now (PageData.mk (Some t) (Some c) (Some u) cats lm) db in
  snd r = None
  /\ (exists i, find (title_is t) (pages (fst r))
                = Some (WikiPageRow.mk i t c u (JSON_stringify cats) lm now))
  /\ (unique_titles db -> unique_titles (fst r))
  /\ (forall old, find (title_is t) (pages db) = Some old ->
        length (pages (fst r)) = length (pages db))
  /\ (find (title_is t) (pages db) = None ->
        length (pages (fst r)) = S (length (pages db))).
Proof.
  cbv zeta. unfold upsert_stmt, sql_update_page, sql_insert_page.
  cbn [PageData.title PageData.content PageData.url
    PageData.categories PageData.last_modified].
  destruct (find (title_is t) (pages db)) as [old|] eqn:E.
  - destruct (find_title_is _ _ _ E) as [Ht _].
    cbn [fst snd pages]. rewrite Ht.
    split; [reflexivity|]. split; [|split; [|split]].
    + exists (WikiPageRow.id old). eapply replace_row_find; [reflexivity | exact E].
    + unfold unique_titles. cbn [pages]. rewrite replace_row_titles by reflexivity. auto.
    + intros _ _. apply replace_row_length.
    + discriminate.
  - cbn [fst snd pages].
    split; [reflexivity|]. split; [|split; [|split]].
    + eexists. apply find_app_none; [exact E | reflexivity].
    + unfold unique_titles. cbn [pages]. intros Hnd.
      rewrite map_app. cbn [map WikiPageRow.title].
      apply List.NoDup_app; [exact Hnd | repeat constructor; intros [] |].
      intros x Hx [<-|[]]. exact (find_title_none _ _ E Hx).
    + discriminate.
    + intros _. rewrite length_app. cbn [length]. lia.
Qed.




(** ** The batch is one transaction *)

Lemma upsert_stmt_bindable `{Fts5Tokenizer} now p db :
  bindable p = true -> snd (upsert_stmt now p db) = None.
Proof.
  unfold bindable, upsert_stmt.
  destruct (PageData.title p), (PageData.content p), (PageData.url p); try discriminate.
  intros _. destruct (find _ _); reflexivity.
Qed.

Lemma upsert_stmt_unbindable `{Fts5Tokenizer} now p db :
  bindable p = false -> exists e, upsert_stmt now p db = (db, Some e).
Proof.
  unfold bindable, upsert_stmt.
  destruct (PageData.title p), (PageData.content p), (PageData.url p);
    try discriminate; intros _; eexists; reflexivity.
Qed.

Lemma upsert_loop_all `{Fts5Tokenizer} clock ps :
  forall k db, forallb bindable ps = true ->
    upsert_loop clock k ps db = (upsert_each clock k ps db, None).
Proof.
  induction ps as [|p more IH]; intros k db Hb; [reflexivity|].
  cbn [forallb] in Hb. apply andb_prop in Hb as [Hp Hmore].
  cbn [upsert_loop upsert_each]. unfold upsertPage.
  pose proof (upsert_stmt_bindable (clock k) p db Hp) as E.
  destruct (upsert_stmt (clock k) p db) as [db' [e|]]; [discriminate E|].
  cbn [fst]. apply IH. exact Hmore.
Qed.

Lemma upsert_loop_throws `{Fts5Tokenizer} clock ps :
  forall k db, forallb bindable ps = false ->
    exists e, snd (upsert_loop clock k ps db) = Some e.
Proof.
  induction ps as [|p more IH]; intros k db Hb; [discriminate|].
  cbn [forallb] in Hb. cbn [upsert_loop].
  destruct (bindable p) eqn:Hp.
  - cbn [andb] in Hb.
    pose proof (upsert_stmt_bindable (clock k) p db Hp) as E.
    destruct (upsert_stmt (clock k) p db) as [db' [e|]]; [discriminate E|].
    apply IH. exact Hb.
  - destruct (upsert_stmt_unbindable (clock k) p db Hp) as [e E].
    rewrite E. exists e. reflexivity.
Qed.

(** C4.  [upsertPages] is all or nothing.  When every page of the batch
    can be bound, the call commits and the store is the one the upserts
    give one after the other; otherwise the call throws, and the store,
    and so [count()], is exactly what it was before the call. *)
Theorem upsertPages_atomic `{Fts5Tokenizer} (clock : nat -> str)
  (ps : list PageData.t) (db : Db) :
  (forallb bindable ps = true
   /\ upsertPages clock ps db = (upsert_each clock 0 ps db, None))
  \/ (forallb bindable ps = false
      /\ (exists e, upsertPages clock ps db = (db, Some e))
      /\ getPageCount (fst (upsertPages clock ps db)) = getPageCount db).
Proof.
  unfold upsertPages, transaction.
  destruct (forallb bindable ps) eqn:Hb.
  - left. split; [reflexivity|]. rewrite upsert_loop_all by exact Hb. reflexivity.
  - right. split; [reflexivity|].
    destruct (upsert_loop_throws clock ps 0%nat db Hb) as [e E].
    destruct (upsert_loop clock 0 ps db) as [db' [e'|]]; [|discriminate E].
    split; [exists e'; reflexivity | reflexivity].
Qed.

(** A batch whose second page has no content: the loop had written the
    first page when it threw; the transaction took it back. *)
Example upsertPages_rolls_back :
  let T := example_tokenizer in
  let db0 := WikiDatabase empty_file in
  let batch := [page "Fishing" "Catch fish" ["Activities"%string];
                PageData.mk (Some (js "Cooking")) None (Some (js "/wiki/Cooking")) [] None;
                page "Fishing Rod" "A tool" ["Tools"%string]] in
  getPageCount (fst (upsert_loop t0 0 batch db0)) = 1%nat
  /\ upsertPages t0 batch db0 = (db0, Some (NotNullConstraint "pages.content"))
  /\ getPageCount (fst (upsertPages t0 batch db0)) = getPageCount db0.
Proof. cbv zeta. split; [|split]; reflexivity. Qed.

(** ** The full-text index follows the page table *)

Section IndexSync.
Context `{Fts5Tokenizer}.

Lemma index_of_app rows rows' : index_of (rows ++ rows') = index_of rows ⊎ index_of rows'.
Proof.
  induction rows as [|r rs IH]; cbn [app index_of]; [multiset_solver|].
  rewrite IH. multiset_solver.
Qed.

Lemma index_of_fold rows : forall ix,
  fold_left (fun ix r => pages_ai r ix) rows ix = ix ⊎ index_of rows.
Proof.
  induction rows as [|r rs IH]; intros ix; cbn [fold_left index_of]; [multiset_solver|].
  rewrite IH. unfold pages_ai, fts_insert, row_postings. multiset_solver.
Qed.

Lemma row_postings_included r rows : In r rows -> row_postings r ⊆ index_of rows.
Proof.
  induction rows as [|r0 rs IH]; intros Hin; [destruct Hin|].
  cbn [index_of]. destruct Hin as [->|Hin]; [multiset_solver|].
  specialize (IH Hin). multiset_solver.
Qed.

Lemma index_of_replace t new rows old :
  find (title_is t) rows = Some old ->
  index_of (replace_row t new rows) = (index_of rows ∖ row_postings old) ⊎ row_postings new.
Proof.
  induction rows as [|r rs IH]; [discriminate|].
  cbn [find replace_row]. destruct (title_is t r).
  - intros E. injection E as ->. cbn [index_of]. multiset_solver.
  - intros E. cbn [index_of]. rewrite (IH E).
    apply find_some in E as [Hin _].
    pose proof (row_postings_included old rs Hin). multiset_solver.
Qed.

Lemma index_of_remove t rows old :
  find (title_is t) rows = Some old ->
  index_of (remove_row t rows) = index_of rows ∖ row_postings old.
Proof.
  induction rows as [|r rs IH]; [discriminate|].
  cbn [find remove_row]. destruct (title_is t r).
  - intros E. injection E as ->. cbn [index_of]. multiset_solver.
  - intros E. cbn [index_of]. rewrite (IH E).
    apply find_some in E as [Hin _].
    pose proof (row_postings_included old rs Hin). multiset_solver.
Qed.

Lemma initialize_in_sync file :
  pages_fts file = None \/ fts_in_sync file -> fts_in_sync (initialize file).
Proof.
  unfold initialize, fts_in_sync. intros [E|E]; rewrite E; [|exact E].
  cbn [pages pages_fts]. rewrite index_of_fold. f_equal. multiset_solver.
Qed.

Lemma sql_insert_page_in_sync new db :
  fts_in_sync db -> fts_in_sync (sql_insert_page new db).
Proof.
  unfold fts_in_sync, sql_insert_page. intros E. cbn [pages pages_fts]. rewrite E.
  cbn [option_map]. rewrite index_of_app. cbn [index_of].
  unfold pages_ai, fts_insert, row_postings. f_equal. multiset_solver.
Qed.

Lemma sql_update_page_in_sync old new db :
  find (title_is (WikiPageRow.title old)) (pages db) = Some old ->
  fts_in_sync db -> fts_in_sync (sql_update_page old new db).
Proof.
  unfold fts_in_sync, sql_update_page. intros Hf E. cbn [pages pages_fts]. rewrite E.
  cbn [option_map]. rewrite (index_of_replace _ _ _ _ Hf).
  reflexivity.
Qed.

Lemma sql_delete_page_in_sync old db :
  find (title_is (WikiPageRow.title old)) (pages db) = Some old ->
  fts_in_sync db -> fts_in_sync (sql_delete_page old db).
Proof.
  unfold fts_in_sync, sql_delete_page. intros Hf E. cbn [pages pages_fts]. rewrite E.
  cbn [option_map]. rewrite (index_of_remove _ _ _ Hf). reflexivity.
Qed.

Lemma upsert_stmt_in_sync now p db :
  fts_in_sync db -> fts_in_sync (fst (upsert_stmt now p db)).
Proof.
  intros Hs. unfold upsert_stmt.
  destruct (PageData.title p) as [t|], (PageData.content p) as [c|],
    (PageData.url p) as [u|]; try exact Hs.
  destruct (find (title_is t) (pages db)) as [old|] eqn:E; cbn [fst].
  - apply sql_update_page_in_sync; [|exact Hs].
    destruct (find_title_is _ _ _ E) as [-> _]. exact E.
  - apply sql_insert_page_in_sync. exact Hs.
Qed.

Lemma upsert_loop_in_sync clock ps :
  forall k db, fts_in_sync db -> fts_in_sync (fst (upsert_loop clock k ps db)).
Proof.
  induction ps as [|p more IH]; intros k db Hs; [exact Hs|].
  cbn [upsert_loop].
  pose proof (upsert_stmt_in_sync (clock k) p db Hs) as Hs'.
  destruct (upsert_stmt (clock k) p db) as [db' [e|]]; [exact Hs'|].
  apply IH. exact Hs'.
Qed.

Lemma transaction_keeps (P : Db -> Prop) fn db :
  P db -> P (fst (fn db)) -> P (fst (transaction fn db)).
Proof.
  unfold transaction. intros Hdb Hfn. destruct (fn db) as [db' [e|]]; assumption.
Qed.

Lemma insert_loop_pages counts :
  forall db, pages (fst (insert_loop counts db)) = pages db
             /\ pages_fts (fst (insert_loop counts db)) = pages_fts db.
Proof.
  induction counts as [|[name count] more IH]; intros db; [split; reflexivity|].
  cbn [insert_loop]. unfold insert_category.
  destruct (existsb _ _); [apply IH|].
  destruct (IH (mkDb (pages db) (pages_seq db)
                  (categories db ++ [CategoryRow.mk
                     (next_rowid (map CategoryRow.id (categories db)) (categories_seq db))
                     name count])
                  (next_rowid (map CategoryRow.id (categories db)) (categories_seq db))
                  (pages_fts db))) as [E1 E2].
  split; [rewrite E1 | rewrite E2]; reflexivity.
Qed.

Lemma refreshCategories_pages db :
  pages (fst (refreshCategories db)) = pages db
  /\ pages_fts (fst (refreshCategories db)) = pages_fts db.
Proof.
  unfold refreshCategories. cbv zeta. cbn [pages].
  set (db0 := mkDb (pages db) (pages_seq db) [] (categories_seq db) (pages_fts db)).
  apply (transaction_keeps
           (fun d => pages d = pages db /\ pages_fts d = pages_fts db) _ db0).
  - split; reflexivity.
  - apply (insert_loop_pages _ db0).
Qed.

Lemma run_call_in_sync db c : fts_in_sync db -> fts_in_sync (run_call db c).
Proof.
  intros Hs. destruct c as [now p|clock ps| |]; cbn [run_call].
  - apply upsert_stmt_in_sync. exact Hs.
  - unfold upsertPages. apply (transaction_keeps fts_in_sync); [exact Hs|].
    apply upsert_loop_in_sync. exact Hs.
  - unfold fts_in_sync. destruct (refreshCategories_pages db) as [-> ->]. exact Hs.
  - apply initialize_in_sync. right. exact Hs.
Qed.

Lemma run_calls_in_sync calls : forall db, fts_in_sync db -> fts_in_sync (run_calls calls db).
Proof.
  unfold run_calls. induction calls as [|c calls IH]; intros db Hs; [exact Hs|].
  cbn [fold_left]. apply IH, run_call_in_sync, Hs.
Qed.

Lemma index_of_elem i col tok rows :
  (i, col, tok) ∈ index_of rows <->
  exists r, In r rows /\ WikiPageRow.id r = i
            /\ In tok (tokenize (match col with
                                 | FtsTitle => WikiPageRow.title r
                                 | FtsContent => WikiPageRow.content r
                                 end)).
Proof.
  induction rows as [|r rs IH]; cbn [index_of].
  - split; [multiset_solver | intros (r & [] & _)].
  - split.
    + intros Hin. apply gmultiset_elem_of_disj_union in Hin as [Hin|Hin].
      * exists r. split; [left; reflexivity|].
        unfold row_postings, postings in Hin.
        apply elem_of_list_to_set_disj in Hin. apply list_elem_of_In in Hin.
        apply in_app_iff in Hin as [Hin|Hin]; apply in_map_iff in Hin as (tk & E & Htk);
          injection E as <- <- <-; split; auto.
      * apply IH in Hin as (r' & Hin & Hr).
        exists r'. split; [right; exact Hin | exact Hr].
    + intros (r' & [<-|Hin] & <- & Htok); apply gmultiset_elem_of_disj_union.
      * left. unfold row_postings, postings.
        apply elem_of_list_to_set_disj, list_elem_of_In, in_app_iff.
        destruct col; [left | right]; apply in_map_iff; exists tok; split; auto.
      * right. apply IH. exists r'. split; [exact Hin | split; [reflexivity | exact Htok]].
Qed.

End IndexSync.

(** C5.  Open any file that has no index yet: the constructor builds the
    index from the rows.  From then on, after every call (upsertPage,
    upsertPages committed or rolled back, refreshCategories, reopening) the
    index holds exactly the postings of the rows of [pages]: every token of
    every row's current title and content is there under the row's id, and
    every posting belongs to a current row.  A deletion of a row, through
    the trigger [pages_ad], keeps that too. *)
Theorem fts_index_in_sync `{Fts5Tokenizer} (rows : list WikiPageRow.t) (seq : N)
  (cats : list CategoryRow.t) (cseq : N) (calls : list call) :
  let db := run_calls calls (WikiDatabase (mkDb rows seq cats cseq None)) in
  exists ix : fts_index,
    pages_fts db = Some ix
    /\ ix = index_of (pages db)
    /\ (forall r tok, In r (pages db) ->
          (In tok (tokenize (WikiPageRow.title r)) ->
             (WikiPageRow.id r, FtsTitle, tok) ∈ ix)
          /\ (In tok (tokenize (WikiPageRow.content r)) ->
                (WikiPageRow.id r, FtsContent, tok) ∈ ix))
    /\ (forall i col tok, (i, col, tok) ∈ ix ->
          exists r, In r (pages db) /\ WikiPageRow.id r = i
                    /\ In tok (tokenize (match col with
                                         | FtsTitle => WikiPageRow.title r
                                         | FtsContent => WikiPageRow.content r
                                         end)))
    /\ (forall old, find (title_is (WikiPageRow.title old)) (pages db) = Some old ->
          fts_in_sync (sql_delete_page old db)).
Proof.
  cbv zeta.
  set (db := run_calls calls (WikiDatabase (mkDb rows seq cats cseq None))).
  assert (Hs : fts_in_sync db).
  { apply run_calls_in_sync, initialize_in_sync. left. reflexivity. }
  exists (index_of (pages db)). split; [exact Hs|]. split; [reflexivity|].
  split; [|split].
  - intros r tok Hin. split; intros Htok; apply index_of_elem; exists r; auto.
  - intros i col tok Hin. apply index_of_elem. exact Hin.
  - intros old Hf. apply sql_delete_page_in_sync; assumption.
Qed.

(** ** Categories are recomputed from the pages *)

Lemma str_eqb_neq a b : a <> b -> str_eqb a b = false.
Proof.
  intros H. destruct (str_eqb a b) eqn:E; [|reflexivity].
  apply str_eqb_eq in E. contradiction.
Qed.

Lemma counts_get_set k v counts name :
  counts_get name (counts_set k v counts)
  = if str_eqb k name then Some v else counts_get name counts.
Proof.
  induction counts as [|[k' v'] more IH]; cbn [counts_set counts_get].
  - reflexivity.
  - destruct (str_eqb k' k) eqn:E; cbn [counts_get].
    + apply str_eqb_eq in E. subst k'. destruct (str_eqb k name); reflexivity.
    + destruct (str_eqb k' name) eqn:E'; [|exact IH].
      apply str_eqb_eq in E'. subst k'.
      destruct (str_eqb k name) eqn:E''; [|reflexivity].
      apply str_eqb_eq in E''. subst k. rewrite str_eqb_refl in E. discriminate.
Qed.

Lemma count_of_count_cat name counts cat :
  count_of name (count_cat counts cat)
  = count_of name counts + (if str_eqb cat name then 1 else 0).
Proof.
  unfold count_of, count_cat. rewrite counts_get_set.
  destruct (str_eqb cat name) eqn:E; [|lia].
  apply str_eqb_eq in E. subst cat. reflexivity.
Qed.

Lemma count_of_fold name cats : forall counts,
  count_of name (fold_left count_cat cats counts) = count_of name counts + count_in name cats.
Proof.
  induction cats as [|c cats IH]; intros counts; cbn [fold_left count_in fold_right]; [lia|].
  rewrite IH, count_of_count_cat. fold (count_in name cats).
  destruct (str_eqb c name); lia.
Qed.

Lemma count_of_pages name texts : forall counts,
  count_of name (fold_left count_page texts counts)
  = count_of name counts
    + fold_right
        (fun text n =>
           match parse_categories text with
           | Some cats => n + count_in name cats
           | None => n
           end) 0 texts.
Proof.
  induction texts as [|text texts IH]; intros counts; cbn [fold_left fold_right]; [lia|].
  rewrite IH. unfold count_page.
  destruct (parse_categories text) as [cats|]; [|reflexivity].
  rewrite count_of_fold. lia.
Qed.

Lemma counts_set_keys k v counts :
  map fst (counts_set k v counts)
  = if existsb (fun p => str_eqb (fst p) k) counts
    then map fst counts else map fst counts ++ [k].
Proof.
  induction counts as [|[k' v'] more IH]; cbn [counts_set existsb map fst app]; [reflexivity|].
  destruct (str_eqb k' k); cbn [orb map fst]; [reflexivity|].
  rewrite IH. destruct (existsb _ more); reflexivity.
Qed.

Lemma existsb_key_false k (counts : list (str * N)) :
  existsb (fun p => str_eqb (fst p) k) counts = false -> ~ In k (map fst counts).
Proof.
  intros H Hin. apply in_map_iff in Hin as [[k' v] [E Hin]]. cbn [fst] in E. subst k'.
  assert (existsb (fun p => str_eqb (fst p) k) counts = true).
  { apply existsb_exists. exists (k, v). split; [exact Hin | apply str_eqb_refl]. }
  congruence.
Qed.

Lemma counts_set_nodup k v counts :
  List.NoDup (map fst counts) -> List.NoDup (map fst (counts_set k v counts)).
Proof.
  intros Hnd. rewrite counts_set_keys.
  destruct (existsb _ counts) eqn:E; [exact Hnd|].
  apply List.NoDup_app; [exact Hnd | repeat constructor; intros [] |].
  intros x Hx [<-|[]]. exact (existsb_key_false _ _ E Hx).
Qed.

Lemma count_page_nodup counts text :
  List.NoDup (map fst counts) -> List.NoDup (map fst (count_page counts text)).
Proof.
  unfold count_page. destruct (parse_categories text) as [cats|]; [|auto].
  revert counts. induction cats as [|c cats IH]; intros counts Hnd; [exact Hnd|].
  cbn [fold_left]. apply IH. unfold count_cat. apply counts_set_nodup. exact Hnd.
Qed.

Lemma page_counts_nodup db : List.NoDup (map fst (page_counts db)).
Proof.
  unfold page_counts.
  assert (G : forall texts counts,
             List.NoDup (map fst counts) ->
             List.NoDup (map fst (fold_left count_page texts counts))).
  { induction texts as [|text texts IH]; intros counts Hnd; [exact Hnd|].
    cbn [fold_left]. apply IH, count_page_nodup, Hnd. }
  apply G. constructor.
Qed.

Lemma counts_get_in (counts : list (str * N)) name n :
  List.NoDup (map fst counts) ->
  (In (name, n) counts <-> counts_get name counts = Some n).
Proof.
  induction counts as [|[k v] more IH]; cbn [map fst counts_get]; intros Hnd.
  - split; [intros [] | discriminate].
  - apply List.NoDup_cons_iff in Hnd as [Hnotin Hnd].
    destruct (str_eqb k name) eqn:E.
    + apply str_eqb_eq in E. subst k. split.
      * intros [Heq|Hin]; [congruence|].
        exfalso. apply Hnotin. apply in_map_iff. exists (name, n). split; [reflexivity | exact Hin].
      * intros Heq. left. congruence.
    + rewrite <- (IH Hnd). split.
      * intros [Heq|Hin]; [|exact Hin].
        injection Heq as -> ->. rewrite str_eqb_refl in E. discriminate.
      * intros Hin. right. exact Hin.
Qed.

Lemma insert_loop_pairs counts : forall db,
  List.NoDup (map fst counts) ->
  (forall k, In k (map fst counts) -> ~ In k (map CategoryRow.name (categories db))) ->
  insert_loop counts db = (fst (insert_loop counts db), None)
  /\ cat_pairs (fst (insert_loop counts db)) = cat_pairs db ++ counts.
Proof.
  induction counts as [|[name count] more IH]; intros db Hnd Hfresh.
  - cbn [insert_loop fst]. rewrite app_nil_r. split; reflexivity.
  - cbn [map fst] in Hnd. apply List.NoDup_cons_iff in Hnd as [Hnotin Hnd].
    cbn [insert_loop]. unfold insert_category.
    assert (E : existsb (fun c => str_eqb (CategoryRow.name c) name) (categories db) = false).
    { destruct (existsb _ (categories db)) eqn:E; [|reflexivity].
      apply existsb_exists in E as [c [Hc E]]. apply str_eqb_eq in E.
      exfalso. apply (Hfresh name); [left; reflexivity|].
      apply in_map_iff. exists c. split; assumption. }
    rewrite E.
    set (db' := mkDb _ _ _ _ _).
    destruct (IH db' Hnd) as [E1 E2].
    { intros k Hk. subst db'. cbn [categories]. rewrite map_app. cbn [map CategoryRow.name].
      intros Hin. apply in_app_iff in Hin as [Hin|[<-|[]]].
      - apply (Hfresh k); [right; exact Hk | exact Hin].
      - exact (Hnotin Hk). }
    split; [exact E1|]. rewrite E2. subst db'. unfold cat_pairs. cbn [categories].
    rewrite map_app, <- app_assoc. reflexivity.
Qed.

Lemma refreshCategories_pairs db :
  snd (refreshCategories db) = None
  /\ cat_pairs (fst (refreshCategories db)) = page_counts db.
Proof.
  unfold refreshCategories, transaction. cbv zeta. cbn [pages].
  set (db0 := mkDb (pages db) (pages_seq db) [] (categories_seq db) (pages_fts db)).
  fold (page_counts db).
  destruct (insert_loop_pairs (page_counts db) db0 (page_counts_nodup db)) as [E1 E2].
  { intros k _ []. }
  rewrite E1. cbn [fst snd]. split; [reflexivity | exact E2].
Qed.

Lemma insert_by_map {A B} (g : A -> B) (key : A -> str) (key' : B -> str) x l :
  (forall a, key' (g a) = key a) ->
  insert_by key' (g x) (map g l) = map g (insert_by key x l).
Proof.
  intros Hk. induction l as [|y l IH]; [reflexivity|].
  cbn [map insert_by]. rewrite !Hk. destruct (str_leb (key x) (key y)); [reflexivity|].
  cbn [map]. rewrite IH. reflexivity.
Qed.

Lemma order_by_map {A B} (g : A -> B) (key : A -> str) (key' : B -> str) l :
  (forall a, key' (g a) = key a) ->
  order_by key' (map g l) = map g (order_by key l).
Proof.
  intros Hk. unfold order_by. induction l as [|x l IH]; [reflexivity|].
  cbn [map fold_right]. rewrite IH. apply insert_by_map. exact Hk.
Qed.

Lemma filter_map {A B} (g : A -> B) (f : B -> bool) l :
  List.filter f (map g l) = map g (List.filter (fun a => f (g a)) l).
Proof.
  induction l as [|x l IH]; [reflexivity|].
  cbn [map List.filter]. destruct (f (g x)); cbn [map]; rewrite IH; reflexivity.
Qed.

Lemma getCategories_listed db : getCategories db = listed (cat_pairs db).
Proof.
  unfold getCategories, listed, cat_pairs.
  rewrite filter_map.
  rewrite (order_by_map (fun c => (CategoryRow.name c, CategoryRow.page_count c))
             CategoryRow.name fst) by reflexivity.
  rewrite map_map. reflexivity.
Qed.

Lemma insert_by_perm {A} (key : A -> str) x l : Permutation (insert_by key x l) (x :: l).
Proof.
  induction l as [|y l IH]; [reflexivity|].
  cbn [insert_by]. destruct (str_leb (key x) (key y)); [reflexivity|].
  rewrite IH. apply perm_swap.
Qed.

Lemma order_by_perm {A} (key : A -> str) l : Permutation (order_by key l) l.
Proof.
  unfold order_by. induction l as [|x l IH]; [reflexivity|].
  cbn [fold_right]. rewrite insert_by_perm, IH. reflexivity.
Qed.

Lemma filter_keys_nodup {A} (f : str * A -> bool) (l : list (str * A)) :
  List.NoDup (map fst l) -> List.NoDup (map fst (List.filter f l)).
Proof.
  induction l as [|x l IH]; [auto|].
  cbn [map List.filter]. intros Hnd. apply List.NoDup_cons_iff in Hnd as [Hnotin Hnd].
  destruct (f x); [|auto]. cbn [map]. constructor; [|auto].
  intros Hin. apply Hnotin. apply in_map_iff in Hin as [y [E Hin]].
  apply filter_In in Hin as [Hin _]. apply in_map_iff. exists y. split; assumption.
Qed.

Lemma listed_names_nodup pairs :
  List.NoDup (map fst pairs) -> List.NoDup (map WikiCategory.name (listed pairs)).
Proof.
  intros Hnd. unfold listed. rewrite map_map. cbn [WikiCategory.name].
  eapply Permutation_NoDup.
  - apply Permutation_map. symmetry. apply order_by_perm.
  - apply filter_keys_nodup. exact Hnd.
Qed.

Lemma listed_in pairs name n :
  In (WikiCategory.mk name n) (listed pairs) <-> In (name, n) pairs /\ 0 < n.
Proof.
  unfold listed. rewrite in_map_iff. split.
  - intros [[k v] [E Hin]]. cbn [fst snd] in E. injection E as -> ->.
    apply (Permutation_in _ (order_by_perm fst _)) in Hin.
    apply filter_In in Hin as [Hin Hpos]. cbn [snd] in Hpos.
    split; [exact Hin | apply N.ltb_lt; exact Hpos].
  - intros [Hin Hpos]. exists (name, n). split; [reflexivity|].
    apply (Permutation_in _ (Permutation_sym (order_by_perm fst _))).
    apply filter_In. split; [exact Hin | apply N.ltb_lt; exact Hpos].
Qed.

Lemma page_counts_occurrences name db : count_of name (page_counts db) = occurrences name db.
Proof.
  unfold page_counts, occurrences. rewrite count_of_pages. reflexivity.
Qed.

(** C9.  [refreshCategories] run twice in a row gives what one run gives:
    neither run throws, [getCategories] lists the same categories with the
    same counts, no name twice, and the table itself has no duplicate
    name and as many rows as after the first run.  What is listed is
    exactly each name that occurs in the category list of some page, with
    the number of its occurrences. *)
Theorem refreshCategories_idempotent (db : Db) :
  let db1 := fst (refreshCategories db) in
  let db2 := fst (refreshCategories db1) in
  snd (refreshCategories db) = None
  /\ snd (refreshCategories db1) = None
  /\ getCategories db2 = getCategories db1
  /\ List.NoDup (map WikiCategory.name (getCategories db1))
  /\ List.NoDup (map CategoryRow.name (categories db2))
  /\ length (categories db2) = length (categories db1)
  /\ (forall name n,
        In (WikiCategory.mk name n) (getCategories db1)
        <-> n = occurrences name db /\ 0 < n).
Proof.
  cbv zeta.
  destruct (refreshCategories_pairs db) as [E1 P1].
  destruct (refreshCategories_pairs (fst (refreshCategories db))) as [E2 P2].
  assert (Hpages : page_counts (fst (refreshCategories db)) = page_counts db).
  { unfold page_counts. destruct (refreshCategories_pages db) as [-> _].
    reflexivity. }
  rewrite Hpages in P2.
  split; [exact E1|]. split; [exact E2|].
  split; [rewrite !getCategories_listed, P1, P2; reflexivity|].
  split; [rewrite getCategories_listed, P1; apply listed_names_nodup, page_counts_nodup|].
  split.
  { replace (map CategoryRow.name (categories (fst (refreshCategories (fst (refreshCategories db))))))
      with (map fst (cat_pairs (fst (refreshCategories (fst (refreshCategories db)))))).
    - rewrite P2. apply page_counts_nodup.
    - unfold cat_pairs. rewrite map_map. reflexivity. }
  split.
  { rewrite <- (length_map (fun c => (CategoryRow.name c, CategoryRow.page_count c))
                  (categories (fst (refreshCategories (fst (refreshCategories db)))))).
    rewrite <- (length_map (fun c => (CategoryRow.name c, CategoryRow.page_count c))
                  (categories (fst (refreshCategories db)))).
    fold (cat_pairs (fst (refreshCategories (fst (refreshCategories db))))).
    fold (cat_pairs (fst (refreshCategories db))).
    rewrite P1, P2. reflexivity. }
  intros name n. rewrite getCategories_listed, P1, listed_in.
  rewrite (counts_get_in _ _ _ (page_counts_nodup db)).
  rewrite <- page_counts_occurrences. unfold count_of. split.
  - intros [E Hpos]. rewrite E. split; [reflexivity | exact Hpos].
  - intros [E Hpos]. split; [|exact Hpos].
    destruct (counts_get name (page_counts db)) as [v|]; [congruence | lia].
Qed.

(** ** Category lookup: LIKE on the JSON text *)

Lemma strip_special_replace category :
  replace_all fl_none re_like_special (subst []) category = strip_special category.
Proof.
  unfold replace_all, re_like_special. rewrite replace_go_class.
  unfold strip_special. induction category as [|x t IH]; [reflexivity|].
  cbn [flat_map List.filter]. rewrite IH.
  unfold cls_has, like_special. cbn [existsb item_has ignoreCase fl_none andb xorb].
  rewrite !orb_false_r.
  destruct ((x =? 34) || ((x =? 37) || ((x =? 95) || (x =? 92)))) eqn:E;
    rewrite <- !orb_assoc, E; reflexivity.
Qed.

Lemma category_pattern_eq category :
  category_pattern category = 37 :: quoted (strip_special category) ++ [37].
Proof.
  unfold category_pattern. rewrite strip_special_replace.
  unfold quoted. change (js "%") with [37]. cbn [app]. rewrite <- !app_assoc. reflexivity.
Qed.

(** [like] by cases. *)
Lemma like_percent pat s :
  like (37 :: pat) s
  = like pat s || match s with [] => false | _ :: t => like (37 :: pat) t end.
Proof. destruct s; reflexivity. Qed.

Lemma like_plain c pat s :
  c <> 37 -> c <> 95 ->
  like (c :: pat) s
  = match s with
    | [] => false
    | x :: t => (ascii_lower c =? ascii_lower x) && like pat t
    end.
Proof.
  intros H1 H2. cbn [like].
  destruct (N.eqb_spec c 37); [contradiction|].
  destruct (N.eqb_spec c 95); [contradiction|]. reflexivity.
Qed.

Lemma like_only_percent s : like [37] s = true.
Proof.
  induction s as [|x t IH]; [reflexivity|].
  rewrite like_percent, IH. apply orb_true_r.
Qed.

Lemma like_prefix p : no_wildcard p -> forall s, like (p ++ [37]) s = prefix_nocase p s.
Proof.
  induction 1 as [|c p [H1 H2] _ IH]; intros s; cbn [app prefix_nocase].
  - rewrite like_only_percent. reflexivity.
  - rewrite like_plain by assumption. destruct s as [|x t]; [reflexivity|].
    rewrite IH. reflexivity.
Qed.

Lemma like_occurs p s : no_wildcard p -> like (37 :: p ++ [37]) s = occurs_nocase p s.
Proof.
  intros Hp. induction s as [|x t IH]; rewrite like_percent, like_prefix by exact Hp.
  - reflexivity.
  - rewrite IH. reflexivity.
Qed.

Lemma ascii_lower_quote x : (34 =? ascii_lower x) = (34 =? x).
Proof. unfold ascii_lower, is_upper. nb. Qed.

Lemma ascii_lower_quote' x : (ascii_lower x =? 34) = (x =? 34).
Proof. unfold ascii_lower, is_upper. nb. Qed.

Lemma no_quote_cons x s : no_quote (x :: s) = true -> (x =? 34) = false /\ no_quote s = true.
Proof.
  unfold no_quote. cbn [forallb]. intros H. apply andb_prop in H as [H1 H2].
  apply negb_true_iff in H1. split; assumption.
Qed.

(** A needle in quotes starts at a quote. *)
Lemma prefix_quoted_miss n x s : (x =? 34) = false -> prefix_nocase (quoted n) (x :: s) = false.
Proof.
  intros Hx. unfold quoted. cbn [app prefix_nocase].
  change (ascii_lower 34) with 34. rewrite ascii_lower_quote, N.eqb_sym, Hx. reflexivity.
Qed.

(** Between two quotes with no quote in between stands the needle or not. *)
Lemma prefix_to_quote n : forall b rest,
  no_quote n = true -> no_quote b = true ->
  prefix_nocase (n ++ [34]) (b ++ 34 :: rest) = nocase_eqb n b.
Proof.
  induction n as [|x n IH]; intros [|y b] rest Hn Hb; cbn [app prefix_nocase nocase_eqb].
  - reflexivity.
  - apply no_quote_cons in Hb as [Hy _].
    change (ascii_lower 34) with 34. rewrite ascii_lower_quote, N.eqb_sym, Hy. reflexivity.
  - apply no_quote_cons in Hn as [Hx _].
    change (ascii_lower 34) with 34. rewrite ascii_lower_quote', Hx. reflexivity.
  - apply no_quote_cons in Hn as [_ Hn]. apply no_quote_cons in Hb as [_ Hb].
    rewrite IH by assumption. reflexivity.
Qed.

Lemma prefix_needs_quote n : forall s,
  no_quote s = true -> prefix_nocase (n ++ [34]) s = false.
Proof.
  induction n as [|x n IH]; intros [|y s] Hs; cbn [app prefix_nocase]; try reflexivity.
  - apply no_quote_cons in Hs as [Hy _].
    change (ascii_lower 34) with 34. rewrite ascii_lower_quote, N.eqb_sym, Hy. reflexivity.
  - apply no_quote_cons in Hs as [_ Hs]. rewrite IH by exact Hs. apply andb_false_r.
Qed.

Lemma occurs_skip n b : forall s,
  no_quote b = true -> occurs_nocase (quoted n) (b ++ s) = occurs_nocase (quoted n) s.
Proof.
  induction b as [|y b IH]; intros s Hb; [reflexivity|].
  apply no_quote_cons in Hb as [Hy Hb].
  cbn [app occurs_nocase]. rewrite prefix_quoted_miss by exact Hy.
  cbn [orb]. apply IH. exact Hb.
Qed.

Lemma occurs_quoted_nil n : occurs_nocase (quoted n) [] = false.
Proof. reflexivity. Qed.

Lemma quoted_app b rest : quoted b ++ rest = 34 :: b ++ 34 :: rest.
Proof. unfold quoted. cbn [app]. rewrite <- app_assoc. reflexivity. Qed.

Lemma occurs_at_quote n s :
  occurs_nocase (quoted n) (34 :: s)
  = prefix_nocase (n ++ [34]) s || occurs_nocase (quoted n) s.
Proof. reflexivity. Qed.

Lemma occurs_at_other n x s :
  (x =? 34) = false -> occurs_nocase (quoted n) (x :: s) = occurs_nocase (quoted n) s.
Proof.
  intros Hx. cbn [occurs_nocase]. rewrite prefix_quoted_miss by exact Hx. reflexivity.
Qed.

(** The end of the array text: after the last element only the closing
    bracket follows. *)
Lemma occurs_last n b :
  no_quote n = true -> no_quote b = true ->
  occurs_nocase (quoted n) (quoted b ++ [93]) = nocase_eqb n b.
Proof.
  intros Hn Hb. rewrite quoted_app, occurs_at_quote.
  rewrite prefix_to_quote by assumption.
  rewrite occurs_skip by exact Hb.
  rewrite occurs_at_quote, (prefix_needs_quote n [93]) by reflexivity.
  rewrite occurs_at_other by reflexivity.
  rewrite occurs_quoted_nil. rewrite !orb_false_r. reflexivity.
Qed.

(** The text of an array of quote-free elements holds the quoted needle
    exactly when some element is the needle, up to ASCII letter case;
    the one exception, a needle that is a single comma, is excluded. *)
Lemma occurs_in_array n bs :
  no_quote n = true -> forallb no_quote bs = true -> nocase_eqb n [44] = false ->
  occurs_nocase (quoted n) (join [44] (map quoted bs) ++ [93])
  = existsb (nocase_eqb n) bs.
Proof.
  intros Hn Hbs Hcomma. induction bs as [|b bs IH].
  - cbn [map join app existsb]. rewrite occurs_at_other by reflexivity. reflexivity.
  - cbn [forallb] in Hbs. apply andb_prop in Hbs as [Hb Hbs].
    destruct bs as [|b2 more].
    + cbn [map join existsb]. rewrite occurs_last by assumption. apply eq_sym, orb_false_r.
    + specialize (IH Hbs).
      change (join [44] (map quoted (b :: b2 :: more)))
        with (quoted b ++ [44] ++ join [44] (map quoted (b2 :: more))).
      change (existsb (nocase_eqb n) (b :: b2 :: more))
        with (nocase_eqb n b || existsb (nocase_eqb n) (b2 :: more)).
      rewrite <- IH.
      set (X := join [44] (map quoted (b2 :: more))).
      assert (HX : exists rest, X = 34 :: rest).
      { subst X. cbn [map]. unfold quoted at 1.
        destruct (map quoted more); eexists; reflexivity. }
      destruct HX as [rest HX].
      rewrite <- !app_assoc, quoted_app, occurs_at_quote.
      rewrite prefix_to_quote by assumption. f_equal.
      rewrite occurs_skip by exact Hb.
      rewrite occurs_at_quote. cbn [app]. rewrite HX. cbn [app].
      change (prefix_nocase (n ++ [34]) (44 :: 34 :: rest ++ [93]))
        with (prefix_nocase (n ++ [34]) ([44] ++ 34 :: (rest ++ [93]))).
      rewrite (prefix_to_quote n [44] (rest ++ [93])) by (exact Hn || reflexivity).
      rewrite Hcomma. cbn [orb].
      rewrite occurs_at_other by reflexivity. reflexivity.
Qed.

Lemma json_body_plain s : forall ph, json_plain s = true -> json_body ph s = s.
Proof.
  induction s as [|c t IH]; intros ph Hs; [reflexivity|].
  unfold json_plain in Hs. cbn [forallb] in Hs. apply andb_prop in Hs as [Hc Ht].
  cbn [json_body]. rewrite (IH _ Ht).
  unfold json_plain_char in Hc.
  apply andb_prop in Hc as [Hc Hsur]. apply andb_prop in Hc as [Hc H92].
  apply andb_prop in Hc as [H32 H34].
  apply negb_true_iff in Hsur. apply orb_false_elim in Hsur as [Hh Hl].
  rewrite Hh, Hl. unfold json_escape.
  apply negb_true_iff in H34. apply negb_true_iff in H92. apply N.leb_le in H32.
  rewrite H34, H92.
  destruct (N.eqb_spec c 8); [lia|]. destruct (N.eqb_spec c 9); [lia|].
  destruct (N.eqb_spec c 10); [lia|]. destruct (N.eqb_spec c 12); [lia|].
  destruct (N.eqb_spec c 13); [lia|]. destruct (N.ltb_spec c 32); [lia|]. reflexivity.
Qed.

Lemma json_plain_no_quote s : json_plain s = true -> no_quote s = true.
Proof.
  unfold json_plain, no_quote. intros H. apply forallb_forall. intros c Hc.
  pose proof (proj1 (forallb_forall _ _) H c Hc) as Hp. unfold json_plain_char in Hp.
  apply andb_prop in Hp as [Hp _]. apply andb_prop in Hp as [Hp _].
  apply andb_prop in Hp as [_ Hp]. exact Hp.
Qed.

Lemma JSON_stringify_plain l :
  forallb json_plain l = true ->
  JSON_stringify l = 91 :: join [44] (map quoted l) ++ [93].
Proof.
  intros H. unfold JSON_stringify. cbn [app]. f_equal. f_equal. f_equal.
  induction l as [|s l IH]; [reflexivity|].
  cbn [forallb] in H. apply andb_prop in H as [Hs Hl].
  cbn [map]. rewrite (IH Hl). unfold json_quote, quoted.
  rewrite json_body_plain by exact Hs. reflexivity.
Qed.

Lemma strip_special_no_quote s : no_quote (strip_special s) = true.
Proof.
  unfold no_quote, strip_special. apply forallb_forall. intros c Hc.
  apply filter_In in Hc as [_ Hc]. unfold like_special in Hc.
  destruct (c =? 34); [discriminate Hc | reflexivity].
Qed.

Lemma strip_special_no_wildcard s : no_wildcard (quoted (strip_special s)).
Proof.
  unfold no_wildcard, quoted. apply Forall_app. split; [repeat constructor; lia|].
  apply Forall_app. split; [|repeat constructor; lia].
  apply Forall_forall. intros c Hc. apply filter_In in Hc as [_ Hc].
  unfold like_special in Hc.
  destruct (N.eqb_spec c 37), (N.eqb_spec c 95); subst; cbn in Hc;
    try discriminate Hc; try (rewrite ?orb_true_r in Hc; discriminate Hc).
  split; assumption.
Qed.

(** What the LIKE of [getPagesByCategory] decides on a row whose column
    holds the text of a list of plain names. *)
Lemma like_category_plain category l :
  forallb json_plain l = true ->
  nocase_eqb (strip_special category) [44] = false ->
  like (category_pattern category) (JSON_stringify l)
  = existsb (nocase_eqb (strip_special category)) l.
Proof.
  intros Hl Hcomma.
  rewrite category_pattern_eq, like_occurs by apply strip_special_no_wildcard.
  rewrite JSON_stringify_plain by exact Hl.
  cbn [occurs_nocase]. rewrite prefix_quoted_miss by reflexivity. cbn [orb].
  apply occurs_in_array; [apply strip_special_no_quote | | exact Hcomma].
  apply forallb_forall. intros s Hs. apply json_plain_no_quote.
  exact (proj1 (forallb_forall _ _) Hl s Hs).
Qed.

(** ** [ORDER BY] sorts *)





(** ** Category lookup on plain names *)

Lemma nocase_eqb_refl a : nocase_eqb a a = true.
Proof. induction a as [|x a IH]; cbn [nocase_eqb]; [|rewrite N.eqb_refl, IH]; reflexivity. Qed.


Lemma nocase_comma name : str_eqb name [44] = false -> nocase_eqb name [44] = false.
Proof.
  intros H. destruct name as [|x [|y t]]; cbn [nocase_eqb]; try reflexivity.
  - cbn [str_eqb] in H. rewrite andb_true_r in *.
    change (ascii_lower 44) with 44. unfold ascii_lower, is_upper.
    revert H. nb.
  - apply andb_false_r.
Qed.

Lemma strip_special_plain name :
  json_plain name = true ->
  forallb (fun c => negb ((c =? 37) || (c =? 95))) name = true ->
  strip_special name = name.
Proof.
  unfold json_plain, strip_special. induction name as [|x t IH]; [reflexivity|].
  cbn [forallb List.filter]. intros H1 H2.
  apply andb_prop in H1 as [Hx H1]. apply andb_prop in H2 as [Hw H2].
  rewrite (IH H1 H2).
  unfold json_plain_char in Hx. unfold like_special.
  apply andb_prop in Hx as [Hx _]. apply andb_prop in Hx as [Hx H92].
  apply andb_prop in Hx as [_ H34].
  apply negb_true_iff in H34. apply negb_true_iff in H92. apply negb_true_iff in Hw.
  apply orb_false_elim in Hw as [H37 H95].
  rewrite H34, H37, H95, H92. reflexivity.
Qed.

Lemma existsb_no_variant name l :
  forallb (fun c => implb (nocase_eqb name c) (str_eqb name c)) l = true ->
  existsb (nocase_eqb name) l = existsb (str_eqb name) l.
Proof.
  induction l as [|c l IH]; [reflexivity|].
  cbn [forallb existsb]. intros H. apply andb_prop in H as [Hc Hl].
  rewrite (IH Hl). f_equal.
  destruct (str_eqb name c) eqn:E.
  - apply str_eqb_eq in E. subst c. apply nocase_eqb_refl.
  - destruct (nocase_eqb name c); [discriminate Hc | reflexivity].
Qed.

Lemma like_row_plain name db r :
  plain_name name = true -> In r (pages db) ->
  forallb stored_plain (pages db) = true -> no_case_variant name db = true ->
  like (category_pattern name) (WikiPageRow.categories r)
  = existsb (str_eqb name) (row_categories r).
Proof.
  intros Hname Hin Hstored Hvar.
  unfold plain_name in Hname. apply andb_prop in Hname as [Hname Hcomma].
  apply andb_prop in Hname as [Hplain Hwild]. apply negb_true_iff in Hcomma.
  pose proof (proj1 (forallb_forall _ _) Hstored r Hin) as Hr.
  unfold stored_plain in Hr. apply andb_prop in Hr as [Htext Hcats].
  apply str_eqb_eq in Htext.
  pose proof (proj1 (forallb_forall _ _) Hvar r Hin) as Hv. cbv beta in Hv.
  rewrite Htext, like_category_plain; rewrite ?strip_special_plain by assumption.
  - apply existsb_no_variant. exact Hv.
  - exact Hcats.
  - apply nocase_comma. exact Hcomma.
Qed.




(** ** What the stripping of the argument does *)






Lemma strip_special_length s : (length (strip_special s) <= length s)%nat.
Proof. unfold strip_special. apply filter_length_le. Qed.





(** ** JSON: what [JSON.stringify] writes, [JSON.parse] reads back *)










Lemma JSON_stringify_not_nil l : JSON_stringify l <> [].
Proof. discriminate. Qed.


(** ** Reading back what was written *)





Lemma replace_row_in t new rows r :
  In r (replace_row t new rows) -> r = new \/ In r rows.
Proof.
  induction rows as [|x rows IH]; [intros []|].
  cbn [replace_row]. destruct (title_is t x).
  - intros [<-|Hr]; [left; reflexivity | right; right; exact Hr].
  - intros [<-|Hr]; [right; left; reflexivity|].
    destruct (IH Hr) as [->|Hin]; [left; reflexivity | right; right; exact Hin].
Qed.





(** ** What a write changes and what it leaves *)





(** ** What every call keeps *)

Section EveryCall.
Context `{Fts5Tokenizer}.

(** A relation between the store before and after that every statement
    keeps, and that looks at table [pages] only, holds across any calls. *)
Lemma run_calls_rel (R : Db -> Db -> Prop) :
  (forall db, R db db) ->
  (forall a b c, R a b -> R b c -> R a c) ->
  (forall now p db, R db (fst (upsert_stmt now p db))) ->
  (forall db db', pages db' = pages db -> R db db') ->
  forall calls db, R db (run_calls calls db).
Proof.
  intros Hrefl Htrans Hstmt Hpages.
  assert (Hloop : forall clock ps k db, R db (fst (upsert_loop clock k ps db))).
  { intros clock ps. induction ps as [|p ps IH]; intros k db; [apply Hrefl|].
    cbn [upsert_loop]. pose proof (Hstmt (clock k) p db) as Hs.
    destruct (upsert_stmt (clock k) p db) as [db' [e|]]; cbn [fst] in *; [exact Hs|].
    eapply Htrans; [exact Hs | apply IH]. }
  assert (Hcall : forall c db, R db (run_call db c)).
  { intros [now p|clock ps| |] db; cbn [run_call].
    - apply Hstmt.
    - unfold upsertPages, transaction. pose proof (Hloop clock ps O db) as Hl.
      destruct (upsert_loop clock 0 ps db) as [db' [e|]]; cbn [fst] in *;
        [apply Hrefl | exact Hl].
    - apply Hpages. apply refreshCategories_pages.
    - apply Hpages. unfold WikiDatabase, initialize. destruct (pages_fts db); reflexivity. }
  unfold run_calls. intros calls. induction calls as [|c calls IH]; intros db; [apply Hrefl|].
  cbn [fold_left]. eapply Htrans; [apply Hcall | apply IH].
Qed.

Lemma next_rowid_fresh ids seq i : In i ids -> i < next_rowid ids seq.
Proof.
  unfold next_rowid. induction ids as [|j ids IH]; [intros []|].
  cbn [fold_right]. intros [->|Hi]; [lia|]. specialize (IH Hi). lia.
Qed.

Lemma replace_row_ids t new rows old :
  find (title_is t) rows = Some old -> WikiPageRow.id new = WikiPageRow.id old ->
  map WikiPageRow.id (replace_row t new rows) = map WikiPageRow.id rows.
Proof.
  intros E Hid. induction rows as [|x rows IH]; [discriminate|].
  cbn [find replace_row] in *. destruct (title_is t x).
  - injection E as ->. cbn [map]. rewrite Hid. reflexivity.
  - cbn [map]. rewrite (IH E). reflexivity.
Qed.

Lemma replace_row_keeps t new rows old r :
  find (title_is t) rows = Some old -> In r rows ->
  In r (replace_row t new rows) \/ r = old.
Proof.
  intros E Hr. induction rows as [|x rows IH]; [destruct Hr|].
  cbn [find replace_row] in *. destruct (title_is t x).
  - injection E as ->. destruct Hr as [->|Hr]; [right; reflexivity | left; right; exact Hr].
  - destruct Hr as [->|Hr]; [left; left; reflexivity|].
    destruct (IH E Hr) as [Hin | -> ]; [left; right; exact Hin | right; reflexivity].
Qed.

Lemma replace_row_new t new rows old :
  find (title_is t) rows = Some old -> In new (replace_row t new rows).
Proof.
  intros E. induction rows as [|x rows IH]; [discriminate|].
  cbn [find replace_row] in *. destruct (title_is t x); [left; reflexivity|].
  right. exact (IH E).
Qed.

Lemma upsert_stmt_ids now p db :
  List.NoDup (page_ids db) -> List.NoDup (page_ids (fst (upsert_stmt now p db))).
Proof.
  intros Hnd. unfold upsert_stmt, sql_update_page, sql_insert_page, page_ids.
  destruct (PageData.title p) as [t|]; [|exact Hnd].
  destruct (PageData.content p) as [c|]; [|exact Hnd].
  destruct (PageData.url p) as [u|]; [|exact Hnd].
  destruct (find (title_is t) (pages db)) as [old|] eqn:E; cbn [fst pages].
  - destruct (find_title_is _ _ _ E) as [Ht _]. rewrite Ht.
    rewrite (replace_row_ids t _ _ old E) by reflexivity. exact Hnd.
  - rewrite map_app. cbn [map WikiPageRow.id].
    apply List.NoDup_app; [exact Hnd | repeat constructor; intros [] |].
    intros i Hi [<-|[]]. pose proof (next_rowid_fresh _ (pages_seq db) _ Hi). lia.
Qed.

Lemma upsert_stmt_titles now p db :
  unique_titles db -> unique_titles (fst (upsert_stmt now p db)).
Proof.
  intros Hu. destruct p as [[t|] [c|] [u|] cats lm]; try exact Hu.
  apply (upsert_stmt_valid now t c u cats lm db). exact Hu.
Qed.

Lemma upsert_stmt_persists now p db r :
  In r (pages db) ->
  exists r', In r' (pages (fst (upsert_stmt now p db)))
             /\ WikiPageRow.id r' = WikiPageRow.id r
             /\ WikiPageRow.title r' = WikiPageRow.title r.
Proof.
  intros Hr. unfold upsert_stmt, sql_update_page, sql_insert_page.
  destruct (PageData.title p) as [t|]; [|exists r; auto].
  destruct (PageData.content p) as [c|]; [|exists r; auto].
  destruct (PageData.url p) as [u|]; [|exists r; auto].
  destruct (find (title_is t) (pages db)) as [old|] eqn:E; cbn [fst pages].
  - destruct (find_title_is _ _ _ E) as [Ht _]. rewrite Ht.
    destruct (replace_row_keeps t
                (WikiPageRow.mk (WikiPageRow.id old) t c u
                   (JSON_stringify (PageData.categories p)) (PageData.last_modified p) now)
                _ old r E Hr) as [Hin | -> ].
    + exists r. auto.
    + eexists. split; [eapply replace_row_new; exact E|].
      cbn [WikiPageRow.id WikiPageRow.title]. auto.
  - exists r. split; [apply in_or_app; left; exact Hr | auto].
Qed.

Lemma upsert_stmt_count now p db :
  (length (pages db) <= length (pages (fst (upsert_stmt now p db))))%nat.
Proof.
  destruct p as [[t|] [c|] [u|] cats lm]; try (cbn; lia).
  destruct (upsert_stmt_valid now t c u cats lm db) as (_ & _ & _ & Hold & Hnew).
  cbv zeta in Hold, Hnew.
  destruct (find (title_is t) (pages db)) as [old|] eqn:E.
  - rewrite (Hold old eq_refl). lia.
  - rewrite (Hnew eq_refl). lia.
Qed.

End EveryCall.

(** X4.  Titles and ids stay unique.  On a store whose titles are pairwise
    different and whose ids are pairwise different (an empty file is one),
    they are so again after any sequence of calls: [upsertPage],
    [upsertPages] committed or rolled back, [refreshCategories], reopening. *)
Theorem titles_and_ids_stay_unique `{Fts5Tokenizer} (calls : list call) (db : Db) :
  unique_titles db -> List.NoDup (page_ids db) ->
  unique_titles (run_calls calls db) /\ List.NoDup (page_ids (run_calls calls db)).
Proof.
  intros Hu Hi.
  apply (run_calls_rel
           (fun a b => unique_titles a /\ List.NoDup (page_ids a) ->
                       unique_titles b /\ List.NoDup (page_ids b)));
    [auto | auto | | | split; assumption].
  - intros now p d [Ht Hd]. split; [apply upsert_stmt_titles | apply upsert_stmt_ids]; assumption.
  - intros d d' E. unfold unique_titles, page_ids. rewrite E. auto.
Qed.

Lemma titles_and_ids_stay_unique_witness :
  let T := example_tokenizer in
  let calls := [UpsertPage (js "09:00") (page "Fishing" "New text" ["Activities"%string]);
                UpsertPages t0 [page "Racing" "Cars" []; page "Cooking" "Soup" []];
                RefreshCategories; Reopen] in
  unique_titles category_example
  /\ List.NoDup (page_ids category_example)
  /\ unique_titles (run_calls calls category_example)
  /\ List.NoDup (page_ids (run_calls calls category_example)).
Proof.
  cbv zeta.
  assert (Hu : unique_titles category_example).
  { unfold unique_titles.
    let l := eval vm_compute in (map WikiPageRow.title (pages category_example)) in
    change (map WikiPageRow.title (pages category_example)) with l.
    repeat constructor; cbn [In]; intros Hin;
      repeat (destruct Hin as [Hin|Hin]; [discriminate Hin|]); exact Hin. }
  assert (Hi : List.NoDup (page_ids category_example)).
  { let l := eval vm_compute in (page_ids category_example) in
    change (page_ids category_example) with l.
    repeat constructor; cbn [In]; intros Hin;
      repeat (destruct Hin as [Hin|Hin]; [discriminate Hin|]); exact Hin. }
  split; [exact Hu|]. split; [exact Hi|].
  apply (titles_and_ids_stay_unique (H := example_tokenizer)); assumption.
Defined.

(** X5.  Nothing is ever deleted or renamed.  A page that is stored is
    still stored after any sequence of calls, under the same id and the
    same title, and the page count never goes down. *)
Theorem pages_are_never_removed `{Fts5Tokenizer} (calls : list call) (db : Db)
  (r : WikiPageRow.t) :
  In r (pages db) ->
  (exists r', In r' (pages (run_calls calls db))
              /\ WikiPageRow.id r' = WikiPageRow.id r
              /\ WikiPageRow.title r' = WikiPageRow.title r)
  /\ (getPageCount db <= getPageCount (run_calls calls db))%nat.
Proof.
  intros Hr. split.
  - revert r Hr.
    apply (run_calls_rel
             (fun a b => forall r, In r (pages a) ->
                exists r', In r' (pages b) /\ WikiPageRow.id r' = WikiPageRow.id r
                           /\ WikiPageRow.title r' = WikiPageRow.title r)).
    + intros d r Hr. exists r. auto.
    + intros a b c Hab Hbc r Hr.
      destruct (Hab r Hr) as (r1 & H1 & Hi1 & Ht1).
      destruct (Hbc r1 H1) as (r2 & H2 & Hi2 & Ht2).
      exists r2. split; [exact H2|]. split; congruence.
    + intros now p d r Hr. apply upsert_stmt_persists. exact Hr.
    + intros d d' E r Hr. exists r. rewrite E. auto.
  - unfold getPageCount.
    apply (run_calls_rel (fun a b => (length (pages a) <= length (pages b))%nat)).
    + intros; lia.
    + intros; lia.
    + intros now p d. apply upsert_stmt_count.
    + intros d d' E. rewrite E. lia.
Qed.

Lemma pages_are_never_removed_witness :
  let T := example_tokenizer in
  let calls := [UpsertPage (js "09:00") (page "Fishing" "New text" ["Activities"%string]);
                UpsertPages t0 [page "Racing" "Cars" []; page "Cooking" "Soup" []];
                RefreshCategories; Reopen] in
  let r := WikiPageRow.mk 1 (js "Fishing") (js "Catch fish")
             (js "https://sneaky-sasquatch.fandom.com/wiki/Fishing")
             (JSON_stringify [js "Activities"; js "Gameplay"]) None (t0 0%nat) in
  In r (pages category_example)
  /\ (exists r', In r' (pages (run_calls calls category_example))
                 /\ WikiPageRow.id r' = WikiPageRow.id r
                 /\ WikiPageRow.title r' = WikiPageRow.title r)
  /\ (getPageCount category_example <= getPageCount (run_calls calls category_example))%nat.
Proof.
  cbv zeta.
  assert (Hr : In (WikiPageRow.mk 1 (js "Fishing") (js "Catch fish")
                     (js "https://sneaky-sasquatch.fandom.com/wiki/Fishing")
                     (JSON_stringify [js "Activities"; js "Gameplay"]) None (t0 0%nat))
                  (pages category_example)).
  { left. vm_compute. reflexivity. }
  split; [exact Hr|].
  apply (pages_are_never_removed (H := example_tokenizer)). exact Hr.
Defined.

Lemma getAllTitles_perm db :
  Permutation (getAllTitles db) (map WikiPageRow.title (pages db)).
Proof. unfold getAllTitles. apply Permutation_map, order_by_perm. Qed.

Lemma getAllTitles_in t db :
  In t (getAllTitles db) <-> exists r, In r (pages db) /\ WikiPageRow.title r = t.
Proof.
  pose proof (getAllTitles_perm db) as Hp. split.
  - intros Hin. apply (Permutation_in _ Hp) in Hin.
    apply in_map_iff in Hin as (r & Ht & Hr). exists r. auto.
  - intros (r & Hr & Ht). apply (Permutation_in _ (Permutation_sym Hp)).
    rewrite <- Ht. apply in_map. exact Hr.
Qed.

(** X6.  [getAllTitles] lists the stored titles, all of them and each as
    often as it is stored: it is a rearrangement of the title column, has
    [getPageCount] entries, and on a store with unique titles names no
    title twice. *)
Theorem getAllTitles_lists_every_title (db : Db) :
  Permutation (getAllTitles db) (map WikiPageRow.title (pages db))
  /\ length (getAllTitles db) = getPageCount db
  /\ (forall t, In t (getAllTitles db)
                <-> exists r, In r (pages db) /\ WikiPageRow.title r = t)
  /\ (unique_titles db -> List.NoDup (getAllTitles db)).
Proof.
  pose proof (getAllTitles_perm db) as Hp.
  split; [exact Hp|]. split; [|split].
  - unfold getPageCount. rewrite (Permutation_length Hp). apply length_map.
  - intros t. apply getAllTitles_in.
  - intros Hu. exact (Permutation_NoDup (Permutation_sym Hp) Hu).
Qed.

(** ** Batches *)

Lemma upsert_each_app `{Fts5Tokenizer} clock a : forall b k db,
  upsert_each clock k (a ++ b) db
  = upsert_each clock (k + length a) b (upsert_each clock k a db).
Proof.
  induction a as [|p a IH]; intros b k db; cbn [app upsert_each length].
  - rewrite Nat.add_0_r. reflexivity.
  - rewrite IH. f_equal. lia.
Qed.

Lemma upsert_each_shift `{Fts5Tokenizer} clock n b : forall k db,
  upsert_each (fun i => clock (n + i)%nat) k b db = upsert_each clock (n + k) b db.
Proof.
  induction b as [|p b IH]; intros k db; cbn [upsert_each]; [reflexivity|].
  rewrite IH. f_equal. lia.
Qed.

(** X7.  Where a batch is cut matters only when a page fails.  Two calls
    of [upsertPages], on [a] and then on [b], leave the store that one call
    on [a ++ b] leaves when every page can be bound; when [a] can be bound
    and some page of [b] cannot, the one call leaves the store as it was
    before, and the two calls leave the pages of [a] stored. *)
Theorem upsertPages_in_two_batches `{Fts5Tokenizer} (clock : nat -> str)
  (a b : list PageData.t) (db : Db) :
  forallb bindable a = true ->
  let after_a := fst (upsertPages clock a db) in
  let after_b := fst (upsertPages (fun k => clock (length a + k)%nat) b after_a) in
  after_a = upsert_each clock 0 a db
  /\ (forallb bindable b = true -> after_b = fst (upsertPages clock (a ++ b) db))
  /\ (forallb bindable b = false ->
        after_b = after_a /\ fst (upsertPages clock (a ++ b) db) = db).
Proof.
  intros Ha. cbv zeta.
  assert (Ea : upsertPages clock a db = (upsert_each clock 0 a db, None)).
  { unfold upsertPages, transaction. rewrite upsert_loop_all by exact Ha. reflexivity. }
  rewrite Ea. cbn [fst]. split; [reflexivity|]. split.
  - intros Hb. unfold upsertPages, transaction.
    rewrite !upsert_loop_all by (rewrite ?forallb_app, ?Ha, ?Hb; reflexivity).
    cbn [fst]. rewrite upsert_each_app, upsert_each_shift.
    rewrite Nat.add_0_r, Nat.add_0_l. reflexivity.
  - intros Hb. split.
    + unfold upsertPages, transaction.
      destruct (upsert_loop_throws (fun k => clock (length a + k)%nat) b 0
                  (upsert_each clock 0 a db) Hb) as [e He].
      destruct (upsert_loop _ 0 b (upsert_each clock 0 a db)) as [d [e'|]];
        [reflexivity | discriminate He].
    + unfold upsertPages, transaction.
      assert (Hab : forallb bindable (a ++ b) = false)
        by (rewrite forallb_app, Ha, Hb; reflexivity).
      destruct (upsert_loop_throws clock (a ++ b) 0 db Hab) as [e He].
      destruct (upsert_loop clock 0 (a ++ b) db) as [d [e'|]];
        [reflexivity | discriminate He].
Qed.

Lemma upsertPages_in_two_batches_witness :
  let T := example_tokenizer in
  let a := [page "Racing" "Cars" []; page "Cooking" "Soup" ["Food"%string]] in
  let b := [page "Fishing" "Rods" []] in
  let after_a := fst (upsertPages t0 a category_example) in
  let after_b := fst (upsertPages (fun k => t0 (length a + k)%nat) b after_a) in
  forallb bindable a = true
  /\ after_a = upsert_each t0 0 a category_example
  /\ (forallb bindable b = true -> after_b = fst (upsertPages t0 (a ++ b) category_example))
  /\ (forallb bindable b = false ->
        after_b = after_a /\ fst (upsertPages t0 (a ++ b) category_example) = category_example).
Proof.
  cbv zeta. split; [reflexivity|].
  apply (upsertPages_in_two_batches (H := example_tokenizer)). reflexivity.
Defined.

(** ** The table of categories *)

(** X8.  [refreshCategories] writes table [categories] only: the rows of
    [pages], its id counter and the full-text index are what they were, so
    [getPage], [getPageScrapedAt], [getAllTitles], [getPageCount] and
    [getPagesByCategory] answer as before. *)
Theorem refreshCategories_leaves_pages (db : Db) :
  let db' := fst (refreshCategories db) in
  pages db' = pages db
  /\ pages_fts db' = pages_fts db
  /\ (forall t, getPage t db' = getPage t db)
  /\ (forall t, getPageScrapedAt t db' = getPageScrapedAt t db)
  /\ getAllTitles db' = getAllTitles db
  /\ getPageCount db' = getPageCount db
  /\ (forall c, getPagesByCategory c db' = getPagesByCategory c db).
Proof.
  cbv zeta. destruct (refreshCategories_pages db) as [Ep Ef].
  unfold getPage, getPageScrapedAt, getAllTitles, getPageCount, getPagesByCategory.
  rewrite Ep. repeat split; auto.
Qed.

Lemma getCategories_after_refresh name n db :
  In (WikiCategory.mk name n) (getCategories (fst (refreshCategories db)))
  <-> n = occurrences name db /\ 0 < n.
Proof.
  destruct (refreshCategories_pairs db) as [_ P1].
  rewrite getCategories_listed, P1, listed_in.
  rewrite (counts_get_in _ _ _ (page_counts_nodup db)).
  rewrite <- page_counts_occurrences. unfold count_of. split.
  - intros [E Hpos]. rewrite E. split; [reflexivity | exact Hpos].
  - intros [E Hpos]. split; [|exact Hpos].
    destruct (counts_get name (page_counts db)) as [v|]; [congruence | lia].
Qed.

Lemma count_in_once name cats :
  List.NoDup cats ->
  count_in name cats = if existsb (str_eqb name) cats then 1 else 0.
Proof.
  induction cats as [|c cats IH]; [reflexivity|].
  intros Hnd. apply List.NoDup_cons_iff in Hnd as [Hc Hnd].
  cbn [count_in fold_right existsb].
  fold (count_in name cats). rewrite (IH Hnd).
  destruct (str_eqb c name) eqn:E.
  - apply str_eqb_eq in E. subst c. rewrite str_eqb_refl. cbn [orb].
    destruct (existsb (str_eqb name) cats) eqn:Ex; [|reflexivity].
    exfalso. apply Hc. apply existsb_exists in Ex as (x & Hx & Hxe).
    apply str_eqb_eq in Hxe. subst x. exact Hx.
  - assert (E' : str_eqb name c = false)
      by (apply str_eqb_neq; intros ->; rewrite str_eqb_refl in E; discriminate).
    rewrite E'. reflexivity.
Qed.

Lemma occurrences_once name rows :
  Forall (fun r => List.NoDup (row_categories r)) rows ->
  fold_right
    (fun text n =>
       match parse_categories text with
       | Some cats => n + count_in name cats
       | None => n
       end) 0 (map WikiPageRow.categories rows)
  = N.of_nat (length (List.filter (fun r => existsb (str_eqb name) (row_categories r)) rows)).
Proof.
  induction 1 as [|r rows Hr _ IH]; [reflexivity|].
  cbn [map fold_right List.filter]. rewrite IH.
  unfold row_categories in Hr |- *.
  destruct (parse_categories (WikiPageRow.categories r)) as [cats|].
  - rewrite (count_in_once name cats Hr).
    destruct (existsb (str_eqb name) cats); cbn [length]; lia.
  - reflexivity.
Qed.

(** X9.  The count of a category is the number of its pages.  After
    [refreshCategories], on a store of plain names where every page lists a
    category at most once, [getCategories] lists [name] with count [n]
    exactly when [getPagesByCategory name] returns [n] titles and [n] is not
    zero: the two tools agree. *)
Theorem category_count_is_page_count (name : str) (n : N) (db : Db) :
  plain_name name = true ->
  forallb stored_plain (pages db) = true ->
  no_case_variant name db = true ->
  categories_once db ->
  let db' := fst (refreshCategories db) in
  In (WikiCategory.mk name n) (getCategories db')
  <-> n = N.of_nat (length (getPagesByCategory name db')) /\ 0 < n.
Proof.
  intros Hname Hrows Hv Honce. cbv zeta.
  rewrite getCategories_after_refresh.
  assert (E : occurrences name db
              = N.of_nat (length (getPagesByCategory name (fst (refreshCategories db))))).
  { unfold occurrences. rewrite (occurrences_once name (pages db) Honce).
    unfold getPagesByCategory. destruct (refreshCategories_pages db) as [-> _].
    rewrite length_map, (Permutation_length (order_by_perm _ _)).
    do 2 f_equal. apply filter_ext_in. intros r Hr. symmetry.
    apply (like_row_plain name db r); assumption. }
  rewrite E. reflexivity.
Qed.

Lemma category_count_is_page_count_witness :
  let db' := fst (refreshCategories category_example) in
  plain_name (js "Activities") = true
  /\ forallb stored_plain (pages category_example) = true
  /\ no_case_variant (js "Activities") category_example = true
  /\ categories_once category_example
  /\ getPagesByCategory (js "Activities") db' = [js "Cooking"; js "Fishing"]
  /\ (In (WikiCategory.mk (js "Activities") 2) (getCategories db')
      <-> 2 = N.of_nat (length (getPagesByCategory (js "Activities") db')) /\ 0 < 2).
Proof.
  cbv zeta.
  assert (Honce : categories_once category_example).
  { unfold categories_once.
    let l := eval vm_compute in (map row_categories (pages category_example)) in
    assert (Hl : map row_categories (pages category_example) = l) by (vm_compute; reflexivity).
    apply Forall_map. rewrite Hl.
    repeat constructor; cbn [In]; intros Hin;
      repeat (destruct Hin as [Hin|Hin]; [discriminate Hin|]); exact Hin. }
  split; [vm_compute; reflexivity|]. split; [vm_compute; reflexivity|].
  split; [vm_compute; reflexivity|]. split; [exact Honce|].
  split; [vm_compute; reflexivity|].
  apply (category_count_is_page_count (js "Activities") 2 category_example);
    [vm_compute; reflexivity | vm_compute; reflexivity | vm_compute; reflexivity | exact Honce].
Defined.
(** ** A title stored in two letter cases *)

Lemma find_replace_row_before (f : WikiPageRow.t -> bool) t new rows r0 :
  find f rows = Some r0 -> title_is t r0 = false ->
  (forall r, title_is t r = true -> f r = true) ->
  find f (replace_row t new rows) = Some r0.
Proof.
  intros E H0 Hsub. induction rows as [|x rows IH]; [discriminate|].
  cbn [find replace_row] in *. destruct (f x) eqn:Efx.
  - injection E as ->. rewrite H0. cbn [find]. rewrite Efx. reflexivity.
  - destruct (title_is t x) eqn:Etx; [rewrite (Hsub x Etx) in Efx; discriminate|].
    cbn [find]. rewrite Efx. apply IH. exact E.
Qed.

Lemma find_app_some {A} (f : A -> bool) l l' r : find f l = Some r -> find f (l ++ l') = Some r.
Proof.
  induction l as [|x l IH]; [discriminate|].
  cbn [find app]. destruct (f x); [auto | exact IH].
Qed.

(** X17.  The older spelling wins the look-up.  When the first stored
    title that equals [t] up to letter case is spelled differently, an
    upsert under [t] is not what [getPage] of [t] returns: the upsert
    writes the row keyed [t] byte for byte, another row, and [getPage]
    goes on answering with the older one, exactly as before the write. *)
Theorem getPage_answers_with_older_spelling `{Fts5Tokenizer} (now t c u : str)
  (cats : list str) (lm : option str) (db : Db) (r0 : WikiPageRow.t) :
  find (fun r => nocase_eqb (WikiPageRow.title r) t) (pages db) = Some r0 ->
  WikiPageRow.title r0 <> t ->
  let db' := fst (upsertPage now (PageData.mk (Some t) (Some c) (Some u) cats lm) db) in
  getPage t db' = getPage t db
  /\ find (fun r => nocase_eqb (WikiPageRow.title r) t) (pages db') = Some r0
  /\ getPageScrapedAt t db' = Some now.
Proof.
  intros E Hne. cbv zeta.
  assert (Hfind : find (fun r => nocase_eqb (WikiPageRow.title r) t)
                    (pages (fst (upsertPage now
                                   (PageData.mk (Some t) (Some c) (Some u) cats lm) db)))
                  = Some r0).
  { unfold upsertPage, upsert_stmt, sql_update_page, sql_insert_page.
    cbn [PageData.title PageData.content PageData.url].
    destruct (find (title_is t) (pages db)) as [old|] eqn:Eo; cbn [fst pages].
    - destruct (find_title_is _ _ _ Eo) as [Ht _]. rewrite Ht.
      apply find_replace_row_before; [exact E | apply str_eqb_neq; exact Hne|].
      intros r Hr. apply title_is_eq in Hr. rewrite Hr. apply nocase_eqb_refl.
    - apply find_app_some. exact E. }
  split; [|split].
  - unfold getPage. rewrite Hfind, E. reflexivity.
  - exact Hfind.
  - unfold getPageScrapedAt, upsertPage.
    destruct (upsert_stmt_valid now t c u cats lm db) as (_ & [i Hf] & _).
    cbv zeta in Hf. rewrite Hf. reflexivity.
Qed.

Lemma getPage_answers_with_older_spelling_witness :
  let T := example_tokenizer in
  let r0 := WikiPageRow.mk 1 (js "Fishing") (js "Catch fish")
              (js "https://sneaky-sasquatch.fandom.com/wiki/Fishing")
              (JSON_stringify [js "Activities"; js "Gameplay"]) None (t0 0%nat) in
  let db' := fst (upsertPage (js "12:00")
                    (PageData.mk (Some (js "fishing")) (Some (js "All about rods"))
                       (Some (js "/wiki/fishing")) [] None) category_example) in
  find (fun r => nocase_eqb (WikiPageRow.title r) (js "fishing")) (pages category_example)
  = Some r0
  /\ WikiPageRow.title r0 <> js "fishing"
  /\ getPageCount db' = 5%nat
  /\ getPage (js "fishing") db' = getPage (js "fishing") category_example
  /\ find (fun r => nocase_eqb (WikiPageRow.title r) (js "fishing")) (pages db') = Some r0
  /\ getPageScrapedAt (js "fishing") db' = Some (js "12:00").
Proof.
  cbv zeta.
  assert (E : find (fun r => nocase_eqb (WikiPageRow.title r) (js "fishing"))
                (pages category_example)
              = Some (WikiPageRow.mk 1 (js "Fishing") (js "Catch fish")
                        (js "https://sneaky-sasquatch.fandom.com/wiki/Fishing")
                        (JSON_stringify [js "Activities"; js "Gameplay"]) None (t0 0%nat)))
    by (vm_compute; reflexivity).
  assert (Hne : WikiPageRow.title
                  (WikiPageRow.mk 1 (js "Fishing") (js "Catch fish")
                     (js "https://sneaky-sasquatch.fandom.com/wiki/Fishing")
                     (JSON_stringify [js "Activities"; js "Gameplay"]) None (t0 0%nat))
                <> js "fishing") by discriminate.
  split; [exact E|]. split; [exact Hne|]. split; [vm_compute; reflexivity|].
  apply (getPage_answers_with_older_spelling (H := example_tokenizer) _ _ _ _ _ _ _ _ E Hne).
Defined.

(** ** Greedy runs of one class *)

Lemma skip_while_length p s : (length (skip_while p s) <= length s)%nat.
Proof.
  induction s as [|x t IH]; [reflexivity|].
  cbn [skip_while]. destruct (p x); cbn [length]; lia.
Qed.

(** A greedy star over a pattern for one code unit, with nothing to match
    after it, takes the longest run there is. *)
Lemma star_loop_run (ma : (mstate -> option mstate) -> mstate -> option mstate)
  (p : char -> bool) :
  (forall k pv x t cs,
     ma k {| prev := pv; rest := x :: t; caps := cs |}
     = if p x then k {| prev := Some x; rest := t; caps := cs |} else None) ->
  (forall k pv cs, ma k {| prev := pv; rest := []; caps := cs |} = None) ->
  forall t n pv cs, (length t <= n)%nat ->
    exists pv',
      star_loop ma true Some n {| prev := pv; rest := t; caps := cs |}
      = Some {| prev := pv'; rest := skip_while p t; caps := cs |}.
Proof.
  intros Hcons Hnil. induction t as [|y t IH]; intros n pv cs Hn.
  - exists pv. destruct n; [reflexivity|]. cbn [star_loop]. rewrite Hnil. reflexivity.
  - destruct n as [|n]; [cbn [length] in Hn; lia|].
    cbn [star_loop skip_while]. rewrite Hcons.
    destruct (p y).
    + cbn [rest length].
      rewrite (proj2 (Nat.ltb_lt (length t) (S (length t)))) by lia.
      destruct (IH n (Some y) cs) as [pv' E]; [cbn [length] in Hn; lia|].
      exists pv'. rewrite E. reflexivity.
    + exists pv. reflexivity.
Qed.

Lemma star_loop_class_run f neg items t :
  forall n pv cs, (length t <= n)%nat ->
    exists pv',
      star_loop (m f (Cls neg items)) true Some n {| prev := pv; rest := t; caps := cs |}
      = Some {| prev := pv';
                rest := skip_while (fun y => xorb neg (cls_has f items y)) t;
                caps := cs |}.
Proof.
  apply (star_loop_run (m f (Cls neg items)) (fun y => xorb neg (cls_has f items y))).
  - intros. apply m_Cls_cons.
  - intros. apply m_Cls_nil.
Qed.

Lemma star_loop_chr_run f c t :
  forall n pv cs, (length t <= n)%nat ->
    exists pv',
      star_loop (m f (Chr c)) true Some n {| prev := pv; rest := t; caps := cs |}
      = Some {| prev := pv'; rest := skip_while (chr_match f c) t; caps := cs |}.
Proof.
  apply (star_loop_run (m f (Chr c)) (chr_match f c)).
  - intros. apply m_Chr_cons.
  - intros. apply m_Chr_nil.
Qed.

Lemma match_at_plus_class f neg items pv x t :
  exists pv',
    match_at f (Plus true (Cls neg items)) pv (x :: t)
    = if xorb neg (cls_has f items x)
      then Some {| prev := pv';
                   rest := skip_while (fun y => xorb neg (cls_has f items y)) t;
                   caps := [] |}
      else None.
Proof.
  unfold match_at, Plus. rewrite m_Seq, m_Cls_cons.
  destruct (xorb neg (cls_has f items x)); [|exists pv; reflexivity].
  rewrite m_Star. cbn [rest]. apply star_loop_class_run. lia.
Qed.

(** ** The tokens of a search query *)

Lemma split_spaces_pieces (P : char -> Prop) s :
  forall skip cur pv,
    Forall (fun c => P c /\ is_space c = false) cur ->
    Forall P s ->
    Forall (Forall (fun c => P c /\ is_space c = false))
      (split_re_go fl_none (Plus true c_sp) skip cur pv s).
Proof.
  induction s as [|x t IH]; intros skip cur pv Hcur Hs.
  - cbn [split_re_go]. constructor; [|constructor]. apply Forall_rev. exact Hcur.
  - assert (Hx : P x) by (inversion Hs; assumption).
    assert (Ht : Forall P t) by (inversion Hs; assumption).
    destruct skip as [|k]; cbn [split_re_go]; [|apply IH; assumption].
    unfold c_sp. destruct (match_at_plus_class fl_none false [CSpace] pv x t) as [pv' E].
    rewrite E.
    pose proof (skip_while_length (fun y => xorb false (cls_has fl_none [CSpace] y)) t) as Hl.
    set (u := skip_while _ t) in *. clearbody u.
    cbn [xorb]. rewrite cls_has_space.
    destruct (is_space x) eqn:Hsp.
    + cbn [rest length].
      destruct (S (length t) - length u)%nat eqn:Ek; [lia|].
      constructor; [apply Forall_rev; exact Hcur|].
      apply IH; [constructor | exact Ht].
    + apply IH; [constructor; [split; assumption | exact Hcur] | exact Ht].
Qed.

Lemma sanitized_chars query :
  Forall (fun c => (token_char c = true \/ is_space c = true) /\ (In c query \/ c = 32))
    (replace_all fl_none re_not_query_char (subst (lits " ")) query).
Proof.
  unfold replace_all, re_not_query_char. rewrite replace_go_class.
  induction query as [|x t IH]; [constructor|].
  cbn [flat_map]. apply Forall_app. split.
  - change (ch "-") with 45.
    unfold cls_has. cbn [existsb item_has ignoreCase fl_none andb].
    rewrite !orb_false_r. unfold token_char.
    destruct (is_word x) eqn:Ew; cbn [orb xorb negb].
    + constructor; [|constructor].
      split; [left; rewrite Ew; reflexivity | left; left; reflexivity].
    + destruct (is_space x) eqn:Es; cbn [orb xorb negb].
      * constructor; [|constructor].
        split; [right; exact Es | left; left; reflexivity].
      * destruct (x =? 45) eqn:Eh; cbn [negb].
        -- constructor; [|constructor].
           split; [left; rewrite Ew, Eh; reflexivity | left; left; reflexivity].
        -- constructor; [|constructor].
           split; [right; reflexivity | right; reflexivity].
  - eapply Forall_impl; [|exact IH]. intros c [H1 [H2|H2]]; (split; [exact H1|]).
    + left. right. exact H2.
    + right. exact H2.
Qed.

(** X10.  The tokens of a search query are plain words.  Whatever the user
    typed, every token that [sanitizeFtsQuery] puts between double quotes is
    not empty and is made of letters, digits, [_] and [-] that stand in the
    query: no quote, no FTS5 operator, no white space gets into the MATCH
    text.  The sanitized text is empty exactly when there is no token, and
    otherwise [searchPages] runs one MATCH query, the tokens each between
    double quotes. *)
Theorem query_tokens_are_plain_words `{Fts5Engine} (query : str) (limit : Z) (db : Db) :
  Forall (fun t => t <> [] /\ forallb token_char t = true
                   /\ (forall c, In c t -> In c query))
    (query_tokens query)
  /\ (sanitizeFtsQuery query = [] <-> query_tokens query = [])
  /\ (query_tokens query = []
      \/ snd (searchPages query limit db)
         = [js "{title content} : " ++ join (js " ") (map quoted (query_tokens query))]).
Proof.
  split; [|split].
  - unfold query_tokens. apply Forall_forall. intros t Ht.
    apply filter_In in Ht as [Hin Hlen].
    split; [destruct t; [discriminate Hlen | discriminate]|].
    pose proof (sanitized_chars query) as Hs.
    set (text := replace_all fl_none re_not_query_char (subst (lits " ")) query) in *.
    assert (Hp : Forall (Forall (fun c =>
                   ((token_char c = true \/ is_space c = true) /\ (In c query \/ c = 32))
                   /\ is_space c = false))
                   (split_re fl_none (Plus true c_sp) text)).
    { unfold split_re. destruct text as [|x text'].
      - destruct (match_at _ _ _ _); repeat constructor.
      - apply split_spaces_pieces; [constructor | exact Hs]. }
    rewrite Forall_forall in Hp. specialize (Hp t Hin). rewrite Forall_forall in Hp.
    split.
    + apply forallb_forall. intros c Hc. destruct (Hp c Hc) as [[[Htk|Hsp] _] Hns];
        [exact Htk | congruence].
    + intros c Hc. destruct (Hp c Hc) as [[_ [Hq | -> ]] Hns]; [exact Hq | discriminate Hns].
  - unfold sanitizeFtsQuery. destruct (query_tokens query); split;
      try reflexivity; discriminate.
  - unfold searchPages, sanitizeFtsQuery.
    destruct (query_tokens query) as [|t ts]; [left; reflexivity|]. right.
    reflexivity.
Qed.

(** ** White space in the output of the parser *)

Lemma skip_while_head p s :
  match skip_while p s with [] => True | y :: _ => p y = false end.
Proof.
  induction s as [|x t IH]; [exact I|].
  cbn [skip_while]. destruct (p x) eqn:E; [exact IH | exact E].
Qed.

Lemma skip_while_suffix p s : exists pre, s = pre ++ skip_while p s.
Proof.
  induction s as [|x t [pre IH]]; [exists []; reflexivity|].
  cbn [skip_while]. destruct (p x); [|exists []; reflexivity].
  exists (x :: pre). cbn [app]. rewrite <- IH. reflexivity.
Qed.

Lemma skip_while_skipn p s :
  skipn (length s - length (skip_while p s)) s = skip_while p s.
Proof.
  induction s as [|x t IH]; [reflexivity|].
  cbn [skip_while]. destruct (p x).
  - pose proof (skip_while_length p t) as Hl.
    replace (length (x :: t) - length (skip_while p t))%nat
      with (S (length t - length (skip_while p t))) by (cbn [length]; lia).
    cbn [skipn]. exact IH.
  - rewrite Nat.sub_diag. reflexivity.
Qed.

(** Skipping [k] code units of a match is the scan of what comes after. *)
Lemma replace_go_skipn f r rp s :
  forall k pv, (k <= length s)%nat ->
    exists pv', replace_go f r rp k pv s = replace_go f r rp O pv' (skipn k s).
Proof.
  induction s as [|x t IH]; intros k pv Hk.
  - destruct k; [exists pv; reflexivity | cbn [length] in Hk; lia].
  - destruct k as [|k]; [exists pv; reflexivity|].
    cbn [replace_go skipn]. apply IH. cbn [length] in Hk. lia.
Qed.

(** One match at the head of the text: its replacement, then the scan of
    the rest. *)
Lemma replace_go_cons_match f r rp pv x t st' k :
  match_at f r pv (x :: t) = Some st' ->
  (S (length t) - length (rest st') = S k)%nat ->
  exists pv',
    replace_go f r rp O pv (x :: t)
    = rp (firstn (S k) (x :: t)) (cap_get (caps st'))
      ++ replace_go f r rp O pv' (skipn k t).
Proof.
  intros E Hk. cbn [replace_go]. rewrite E. cbn [length]. rewrite Hk.
  destruct (replace_go_skipn f r rp t k (Some x)) as [pv' Es]; [lia|].
  exists pv'. rewrite Es. reflexivity.
Qed.

Lemma cls_has_blank y :
  xorb false (cls_has fl_none [CChr 32; CChr 9] y) = (y =? 32) || (y =? 9).
Proof.
  unfold cls_has. cbn [existsb item_has ignoreCase fl_none andb xorb].
  rewrite !orb_false_r. reflexivity.
Qed.

(** The pass "/[ \t]+/g" to one space, at a blank and at another unit. *)
Lemma collapse_blank pv x t :
  (x =? 32) || (x =? 9) = true ->
  exists pv' u,
    replace_go fl_none (Plus true (Cls false [CChr 32; CChr 9])) (subst (lits " ")) O pv (x :: t)
    = 32 :: replace_go fl_none (Plus true (Cls false [CChr 32; CChr 9]))
              (subst (lits " ")) O pv' u
    /\ (length u <= length t)%nat
    /\ (exists pre, t = pre ++ u)
    /\ match u with [] => True | y :: _ => (y =? 32) || (y =? 9) = false end.
Proof.
  intros Hx.
  destruct (match_at_plus_class fl_none false [CChr 32; CChr 9] pv x t) as [pv0 E].
  rewrite cls_has_blank, Hx in E.
  set (p := fun y => xorb false (cls_has fl_none [CChr 32; CChr 9] y)) in *.
  pose proof (skip_while_length p t) as Hl.
  destruct (replace_go_cons_match fl_none _ (subst (lits " ")) pv x t _
              (length t - length (skip_while p t)) E) as [pv' Er].
  { cbn [rest]. lia. }
  exists pv', (skip_while p t). split; [|split; [|split]].
  - rewrite Er, skip_while_skipn. reflexivity.
  - exact Hl.
  - apply skip_while_suffix.
  - pose proof (skip_while_head p t) as Hh.
    destruct (skip_while p t) as [|y u']; [exact I|].
    unfold p in Hh. rewrite cls_has_blank in Hh. exact Hh.
Qed.

Lemma collapse_other pv x t :
  (x =? 32) || (x =? 9) = false ->
  replace_go fl_none (Plus true (Cls false [CChr 32; CChr 9])) (subst (lits " ")) O pv (x :: t)
  = x :: replace_go fl_none (Plus true (Cls false [CChr 32; CChr 9]))
           (subst (lits " ")) O (Some x) t.
Proof.
  intros Hx. apply replace_go_cons_none.
  destruct (match_at_plus_class fl_none false [CChr 32; CChr 9] pv x t) as [pv0 E].
  rewrite cls_has_blank, Hx in E. exact E.
Qed.

Lemma collapse_nil pv :
  replace_go fl_none (Plus true (Cls false [CChr 32; CChr 9])) (subst (lits " ")) O pv [] = [].
Proof. reflexivity. Qed.

Lemma single_spaced_cons x t :
  single_spaced (x :: t) = negb ((x =? 32) && hd_is 32 t) && single_spaced t.
Proof. reflexivity. Qed.

(** After the pass there is no tab and no two spaces in a row. *)
Lemma collapse_normal n : forall s pv, (length s <= n)%nat ->
  let out := replace_go fl_none (Plus true (Cls false [CChr 32; CChr 9]))
               (subst (lits " ")) O pv s in
  Forall (fun c => c <> 9) out /\ single_spaced out = true.
Proof.
  induction n as [|n IH]; intros s pv Hn; cbv zeta.
  - destruct s; [|cbn [length] in Hn; lia]. rewrite collapse_nil. split; [constructor | reflexivity].
  - destruct s as [|x t]; [rewrite collapse_nil; split; [constructor | reflexivity]|].
    cbn [length] in Hn.
    destruct ((x =? 32) || (x =? 9)) eqn:Hx.
    + destruct (collapse_blank pv x t Hx) as (pv' & u & E & Hl & _ & Hu). rewrite E.
      destruct u as [|y u'].
      * rewrite collapse_nil. split; [repeat constructor; discriminate | reflexivity].
      * rewrite (collapse_other pv' y u' Hu) in *.
        destruct (IH u' (Some y)) as [H1 H2]; [cbn [length] in Hl; lia|].
        apply orb_false_elim in Hu as [Hy32 Hy9].
        split.
        -- constructor; [discriminate|]. constructor; [|exact H1].
           intros ->. discriminate Hy9.
        -- rewrite single_spaced_cons. cbn [hd_is]. rewrite Hy32. cbn [andb negb].
           rewrite single_spaced_cons.
           rewrite Hy32. cbn [andb negb]. exact H2.
    + rewrite (collapse_other pv x t Hx).
      destruct (IH t (Some x)) as [H1 H2]; [lia|].
      apply orb_false_elim in Hx as [Hx32 Hx9].
      split.
      * constructor; [intros ->; discriminate Hx9 | exact H1].
      * rewrite single_spaced_cons, Hx32. cbn [andb negb]. exact H2.
Qed.

(** The pass "/\n{3,}/g" to two line feeds. *)
Lemma match_at_three_newlines pv t :
  exists pv',
    match_at fl_none (seqs [times 3 (Chr 10); Star true (Chr 10)]) pv (10 :: 10 :: 10 :: t)
    = Some {| prev := pv'; rest := skip_while (chr_match fl_none 10) t; caps := [] |}.
Proof.
  unfold match_at. cbn [seqs times]. rewrite !m_Seq, m_Chr_cons.
  change (chr_match fl_none 10 10) with true. cbv iota.
  rewrite m_Seq, m_Chr_cons.
  change (chr_match fl_none 10 10) with true. cbv iota.
  rewrite m_Chr_cons.
  change (chr_match fl_none 10 10) with true. cbv iota.
  rewrite m_Star. cbn [rest]. apply star_loop_chr_run. lia.
Qed.

Lemma squeeze_match pv t :
  exists pv' u,
    replace_go fl_none (seqs [times 3 (Chr 10); Star true (Chr 10)])
      (subst [RLit [10; 10]]) O pv (10 :: 10 :: 10 :: t)
    = 10 :: 10 :: replace_go fl_none (seqs [times 3 (Chr 10); Star true (Chr 10)])
                    (subst [RLit [10; 10]]) O pv' u
    /\ (length u <= length t)%nat
    /\ (exists pre, t = pre ++ u)
    /\ hd_is 10 u = false.
Proof.
  destruct (match_at_three_newlines pv t) as [pv0 E].
  set (p := chr_match fl_none 10) in *.
  pose proof (skip_while_length p t) as Hl.
  destruct (replace_go_cons_match fl_none _ (subst [RLit [10; 10]]) pv 10 (10 :: 10 :: t) _
              (S (S (length t - length (skip_while p t)))) E) as [pv' Er].
  { cbn [rest length]. lia. }
  exists pv', (skip_while p t). split; [|split; [|split]].
  - rewrite Er. cbn [skipn]. rewrite skip_while_skipn. reflexivity.
  - exact Hl.
  - apply skip_while_suffix.
  - pose proof (skip_while_head p t) as Hh.
    destruct (skip_while p t) as [|y u']; [reflexivity|].
    unfold p, chr_match in Hh. cbn [ignoreCase fl_none] in Hh.
    cbn [hd_is]. rewrite N.eqb_sym. exact Hh.
Qed.

Lemma squeeze_other pv x t :
  startsWith (x :: t) [10; 10; 10] = false ->
  replace_go fl_none (seqs [times 3 (Chr 10); Star true (Chr 10)])
    (subst [RLit [10; 10]]) O pv (x :: t)
  = x :: replace_go fl_none (seqs [times 3 (Chr 10); Star true (Chr 10)])
           (subst [RLit [10; 10]]) O (Some x) t.
Proof.
  intros H. apply replace_go_cons_none, match_at_three_newlines_miss, H.
Qed.

Lemma startsWith_three_newlines s :
  startsWith s [10; 10; 10] = (3 <=? lead_nl s)%nat.
Proof.
  destruct s as [|x [|y [|z t]]]; cbn [startsWith lead_nl];
    repeat match goal with |- context [N.eqb ?a 10] => destruct (N.eqb a 10) end;
    cbn [andb]; rewrite ?startsWith_nil; reflexivity.
Qed.

Lemma hd_is_lead_nl s : hd_is 10 s = false -> lead_nl s = O.
Proof. destruct s as [|x t]; [reflexivity|]. cbn [hd_is lead_nl]. intros ->. reflexivity. Qed.

Lemma single_spaced_suffix pre s : single_spaced (pre ++ s) = true -> single_spaced s = true.
Proof.
  induction pre as [|x pre IH]; [auto|].
  cbn [app]. rewrite single_spaced_cons. intros H. apply andb_prop in H as [_ H]. auto.
Qed.

(** After the pass there are no three line feeds in a row, and what was
    free of tabs and double spaces still is. *)
Lemma squeeze_normal n : forall s pv, (length s <= n)%nat ->
  let out := replace_go fl_none (seqs [times 3 (Chr 10); Star true (Chr 10)])
               (subst [RLit [10; 10]]) O pv s in
  includes [10; 10; 10] out = false
  /\ (lead_nl out <= lead_nl s)%nat
  /\ (single_spaced s = true ->
      single_spaced out = true /\ (hd_is 32 out = true -> hd_is 32 s = true)).
Proof.
  induction n as [|n IH]; intros s pv Hn; cbv zeta.
  - destruct s; [|cbn [length] in Hn; lia].
    split; [reflexivity|]. split; [reflexivity|]. intros _. split; [reflexivity | auto].
  - destruct s as [|x t].
    { split; [reflexivity|]. split; [reflexivity|]. intros _. split; [reflexivity | auto]. }
    cbn [length] in Hn.
    destruct (startsWith (x :: t) [10; 10; 10]) eqn:Hsw.
    + destruct t as [|y [|z t']]; cbn [startsWith] in Hsw;
        try (rewrite ?andb_false_r in Hsw; discriminate Hsw).
      apply andb_prop in Hsw as [Hx Hsw]. apply andb_prop in Hsw as [Hy Hsw].
      apply andb_prop in Hsw as [Hz _].
      apply N.eqb_eq in Hx, Hy, Hz. subst x y z.
      destruct (squeeze_match pv t') as (pv' & u & E & Hl & [pre Hpre] & Hu). rewrite E.
      destruct (IH u pv') as (H1 & H2 & H3); [cbn [length] in Hn; lia|].
      rewrite (hd_is_lead_nl u Hu) in H2.
      set (o := replace_go _ _ _ _ pv' u) in *.
      assert (Ho : lead_nl o = O) by lia.
      split; [|split].
      * cbn [includes]. rewrite !startsWith_three_newlines. cbn [lead_nl N.eqb Pos.eqb].
        rewrite Ho. cbn [Nat.leb orb]. exact H1.
      * cbn [lead_nl N.eqb Pos.eqb]. lia.
      * intros Hss. split; [|discriminate].
        rewrite !single_spaced_cons. cbn [N.eqb Pos.eqb andb negb].
        apply H3. apply (single_spaced_suffix (10 :: 10 :: 10 :: pre)).
        cbn [app]. rewrite <- Hpre. exact Hss.
    + rewrite (squeeze_other pv x t Hsw).
      destruct (IH t (Some x)) as (H1 & H2 & H3); [lia|].
      set (o := replace_go _ _ _ _ (Some x) t) in *.
      rewrite startsWith_three_newlines in Hsw. apply Nat.leb_gt in Hsw.
      split; [|split].
      * cbn [includes]. rewrite startsWith_three_newlines, H1, orb_false_r.
        apply Nat.leb_gt. cbn [lead_nl] in *. destruct (x =? 10); lia.
      * cbn [lead_nl]. destruct (x =? 10); lia.
      * intros Hss. rewrite single_spaced_cons in Hss. apply andb_prop in Hss as [Hx Hss].
        destruct (H3 Hss) as [H4 H5]. split; [|auto].
        rewrite single_spaced_cons, H4, andb_true_r.
        destruct (x =? 32); [|reflexivity]. cbn [andb] in *.
        destruct (hd_is 32 o); [|reflexivity]. rewrite H5 in Hx by reflexivity. exact Hx.
Qed.

(** [trim] cuts a piece out of the text, and what it cuts out has no white
    space at either end. *)
Lemma drop_space_suffix s : exists pre, s = pre ++ drop_space s.
Proof.
  induction s as [|x t [pre IH]]; [exists []; reflexivity|].
  cbn [drop_space]. destruct (is_space x); [|exists []; reflexivity].
  exists (x :: pre). cbn [app]. rewrite <- IH. reflexivity.
Qed.

Lemma trim_infix s : exists a b, s = a ++ trim s ++ b.
Proof.
  unfold trim. destruct (drop_space_suffix s) as [a Ha].
  destruct (drop_space_suffix (rev (drop_space s))) as [b Hb].
  exists a, (rev b). rewrite <- rev_app_distr, <- Hb, rev_involutive. exact Ha.
Qed.

Lemma drop_space_idem s : drop_space (drop_space s) = drop_space s.
Proof.
  induction s as [|x t IH]; [reflexivity|].
  cbn [drop_space]. destruct (is_space x) eqn:E; [exact IH|].
  cbn [drop_space]. rewrite E. reflexivity.
Qed.

Lemma drop_space_snoc l x :
  is_space x = false -> drop_space (l ++ [x]) = drop_space l ++ [x].
Proof.
  intros Hx. induction l as [|y l IH]; cbn [app drop_space].
  - rewrite Hx. reflexivity.
  - destruct (is_space y); [exact IH | reflexivity].
Qed.

Lemma drop_space_head s :
  match drop_space s with [] => True | x :: _ => is_space x = false end.
Proof.
  induction s as [|x t IH]; [exact I|].
  cbn [drop_space]. destruct (is_space x) eqn:E; [exact IH | exact E].
Qed.

Lemma trim_idem s : trim (trim s) = trim s.
Proof.
  unfold trim. pose proof (drop_space_head s) as Hh.
  destruct (drop_space s) as [|x u]; [reflexivity|].
  cbn [rev]. rewrite (drop_space_snoc _ _ Hh), rev_app_distr. cbn [rev app].
  set (w := drop_space (rev u)).
  cbn [drop_space]. rewrite Hh. cbn [rev]. rewrite rev_involutive.
  rewrite (drop_space_snoc _ _ Hh). unfold w. rewrite drop_space_idem.
  rewrite rev_app_distr. reflexivity.
Qed.

Lemma includes_app_r needle a s : includes needle s = true -> includes needle (a ++ s) = true.
Proof.
  intros H. induction a as [|x a IH]; [exact H|].
  cbn [app includes]. rewrite IH. apply orb_true_r.
Qed.

Lemma startsWith_app s b needle : startsWith s needle = true -> startsWith (s ++ b) needle = true.
Proof.
  revert s. induction needle as [|y needle IH]; intros s H; [apply startsWith_nil|].
  destruct s as [|x s]; [discriminate H|].
  cbn [app startsWith] in *. apply andb_prop in H as [H1 H2].
  rewrite H1, (IH s H2). reflexivity.
Qed.

Lemma includes_app_l needle s b : includes needle s = true -> includes needle (s ++ b) = true.
Proof.
  induction s as [|x s IH]; intros H.
  - cbn [includes] in H. rewrite orb_false_r in H.
    destruct needle; [|discriminate H]. destruct b; reflexivity.
  - cbn [app includes] in *. apply orb_prop in H as [H|H].
    + pose proof (startsWith_app (x :: s) b needle H) as Hs. cbn [app] in Hs.
      rewrite Hs. reflexivity.
    + rewrite (IH H). apply orb_true_r.
Qed.

Lemma single_spaced_prefix s : forall b, single_spaced (s ++ b) = true -> single_spaced s = true.
Proof.
  induction s as [|x s IH]; intros b H; [reflexivity|].
  cbn [app] in H. rewrite single_spaced_cons in *.
  apply andb_prop in H as [H1 H2]. rewrite (IH b H2), andb_true_r.
  destruct (x =? 32); [|reflexivity]. cbn [andb] in *.
  destruct s as [|y s]; [reflexivity|]. exact H1.
Qed.

(** X11.  The white space of the output.  Whatever the input, the text
    [parseWikitext] returns holds no tab, no two spaces in a row and no
    three line feeds in a row, and has no white space at either end
    (trimming it again changes nothing). *)
Theorem parseWikitext_white_space (raw : str) :
  let out := parseWikitext raw in
  forallb (fun c => negb (c =? 9)) out = true
  /\ single_spaced out = true
  /\ includes [10; 10; 10] out = false
  /\ trim out = out.
Proof.
  cbv zeta. unfold parseWikitext. cbv zeta.
  set (text := decodeHtmlEntities _). clearbody text.
  unfold replace_all.
  destruct (collapse_normal (length text) text None (le_n _)) as [H1 H2].
  set (t1 := replace_go fl_none (Plus true (Cls false [CChr 32; CChr 9])) _ O None text) in *.
  clearbody t1.
  destruct (squeeze_normal (length t1) t1 None (le_n _)) as (H3 & _ & H4).
  destruct (H4 H2) as [H5 _].
  assert (H6 : Forall (fun c => c <> 9)
                 (replace_go fl_none (seqs [times 3 (Chr 10); Star true (Chr 10)])
                    (subst [RLit [10; 10]]) O None t1)).
  { apply replace_go_within; [|exact H1].
    apply subst_within. repeat constructor; discriminate. }
  set (t2 := replace_go fl_none (seqs [times 3 (Chr 10); Star true (Chr 10)]) _ O None t1) in *.
  clearbody t2.
  destruct (trim_infix t2) as (a & b & Hab).
  split; [|split; [|split]].
  - apply forallb_forall. intros c Hc. apply negb_true_iff. apply N.eqb_neq.
    pose proof (trim_within (fun c => c <> 9) t2 H6) as Ht.
    rewrite Forall_forall in Ht. apply Ht. exact Hc.
  - apply (single_spaced_prefix _ b). apply (single_spaced_suffix a). rewrite <- Hab. exact H5.
  - destruct (includes [10; 10; 10] (trim t2)) eqn:E; [|reflexivity].
    rewrite Hab in H3. rewrite includes_app_r in H3; [discriminate H3|].
    apply includes_app_l. exact E.
  - apply trim_idem.
Qed.

(** ** Templates: what one pass resolves *)

Lemma m_Grp f n a k st :
  m f (Grp n a) k st = m f a (fun st' => k (set_cap n (consumed st st') st')) st.
Proof. reflexivity. Qed.

(** What a star over a class hands to its continuation: the state after
    some run of code units of the class. *)
Lemma star_loop_class_sound f neg items greedy k :
  forall n pv s cs st',
    star_loop (m f (Cls neg items)) greedy k n {| prev := pv; rest := s; caps := cs |}
    = Some st' ->
    exists c t pv',
      s = c ++ t
      /\ Forall (fun y => xorb neg (cls_has f items y) = true) c
      /\ k {| prev := pv'; rest := t; caps := cs |} = Some st'.
Proof.
  induction n as [|n IH]; intros pv s cs st' E.
  - exists [], s, pv. split; [reflexivity|]. split; [constructor | exact E].
  - cbn [star_loop] in E.
    assert (Hagain :
      m f (Cls neg items)
        (fun st1 =>
           if (length (rest st1) <? length (rest {| prev := pv; rest := s; caps := cs |}))%nat
           then star_loop (m f (Cls neg items)) greedy k n st1 else None)
        {| prev := pv; rest := s; caps := cs |} = Some st' ->
      exists c t pv',
        s = c ++ t /\ Forall (fun y => xorb neg (cls_has f items y) = true) c
        /\ k {| prev := pv'; rest := t; caps := cs |} = Some st').
    { destruct s as [|x s0]; [rewrite m_Cls_nil; discriminate|].
      rewrite m_Cls_cons. destruct (xorb neg (cls_has f items x)) eqn:Hx; [|discriminate].
      cbn [rest]. destruct (length s0 <? length (x :: s0))%nat; [|discriminate].
      intros E1. destruct (IH _ _ _ _ E1) as (c & t & pv' & Hs & Hc & Hk).
      exists (x :: c), t, pv'. split; [cbn [app]; rewrite Hs; reflexivity|].
      split; [constructor; assumption | exact Hk]. }
    assert (Hstop : k {| prev := pv; rest := s; caps := cs |} = Some st' ->
      exists c t pv',
        s = c ++ t /\ Forall (fun y => xorb neg (cls_has f items y) = true) c
        /\ k {| prev := pv'; rest := t; caps := cs |} = Some st').
    { intros E1. exists [], s, pv. split; [reflexivity|]. split; [constructor | exact E1]. }
    destruct greedy; unfold or_else in E.
    + destruct (m f (Cls neg items) _ _) eqn:E1; [apply Hagain; congruence | apply Hstop, E].
    + destruct (k {| prev := pv; rest := s; caps := cs |}) eqn:E1;
        [apply Hstop; congruence | apply Hagain, E].
Qed.

Lemma firstn_app_length {A} (c t : list A) :
  firstn (length (c ++ t) - length t) (c ++ t) = c.
Proof.
  rewrite length_app, Nat.add_sub. rewrite firstn_app, Nat.sub_diag, firstn_all.
  cbn [firstn]. apply app_nil_r.
Qed.

(** A match of the template pattern: two opening braces, a text without
    braces, which is group 1, and two closing braces. *)
Lemma match_at_template pv s st' :
  match_at fl_none re_template pv s = Some st' ->
  exists c,
    s = 123 :: 123 :: c ++ 125 :: 125 :: rest st'
    /\ Forall (fun y => y <> 123 /\ y <> 125) c
    /\ caps st' = [(1%nat, c)].
Proof.
  unfold match_at, re_template.
  change (seqs [lit "{{"; Grp 1 (Star true (c_not "{}")); lit "}}"])
    with (Seq (Seq (Chr 123) (Chr 123))
            (Seq (Grp 1 (Star true (Cls true [CChr 123; CChr 125])))
               (Seq (Chr 125) (Chr 125)))).
  rewrite !m_Seq.
  destruct s as [|x [|y s]].
  - rewrite m_Chr_nil. discriminate.
  - rewrite m_Chr_cons. destruct (chr_match fl_none 123 x); [|discriminate].
    rewrite m_Chr_nil. discriminate.
  - rewrite m_Chr_cons. destruct (chr_match fl_none 123 x) eqn:Hx; [|discriminate].
    rewrite m_Chr_cons. destruct (chr_match fl_none 123 y) eqn:Hy; [|discriminate].
    unfold chr_match in Hx, Hy. cbn [ignoreCase fl_none] in Hx, Hy.
    apply N.eqb_eq in Hx, Hy. subst x y.
    cbv beta. rewrite m_Seq, m_Grp, m_Star. cbn [rest]. intros E.
    apply star_loop_class_sound in E as (c & t & pv' & Hs & Hc & Hk).
    unfold set_cap, consumed in Hk. cbn [prev rest caps] in Hk.
    rewrite Hs, firstn_app_length in Hk.
    cbv beta in Hk. rewrite m_Seq in Hk.
    destruct t as [|a [|b t]].
    + rewrite m_Chr_nil in Hk. discriminate.
    + rewrite m_Chr_cons in Hk. destruct (chr_match fl_none 125 a); [|discriminate].
      rewrite m_Chr_nil in Hk. discriminate.
    + rewrite m_Chr_cons in Hk. destruct (chr_match fl_none 125 a) eqn:Ha; [|discriminate].
      rewrite m_Chr_cons in Hk. destruct (chr_match fl_none 125 b) eqn:Hb; [|discriminate].
      unfold chr_match in Ha, Hb. cbn [ignoreCase fl_none] in Ha, Hb.
      apply N.eqb_eq in Ha, Hb. subst a b.
      injection Hk as <-. cbn [rest caps].
      exists c. split; [rewrite Hs; reflexivity|]. split; [|reflexivity].
      eapply Forall_impl; [|exact Hc]. intros z Hz.
      unfold cls_has in Hz. cbn [existsb item_has ignoreCase fl_none andb xorb] in Hz.
      rewrite !orb_false_r in Hz. apply negb_true_iff in Hz.
      apply orb_false_elim in Hz as [H1 H2].
      apply N.eqb_neq in H1, H2. split; assumption.
Qed.

(** What a template resolves to is made of its own text and of the
    literals of [extractTemplateText]. *)
Lemma search_within (Q : char -> Prop) f r s : forall pv st',
  Forall Q s -> search f r pv s = Some st' ->
  Forall (fun c => Forall Q (snd c)) (caps st').
Proof.
  induction s as [|x t IH]; intros pv st' Hs E; cbn [search] in E.
  - destruct (match_at f r pv []) as [st1|] eqn:E1; [|discriminate].
    injection E as <-. exact (proj2 (match_at_within Q _ _ _ _ _ Hs E1)).
  - destruct (match_at f r pv (x :: t)) as [st1|] eqn:E1.
    + injection E as <-. exact (proj2 (match_at_within Q _ _ _ _ _ Hs E1)).
    + apply (IH (Some x)); [inversion Hs; assumption | exact E].
Qed.

Lemma infobox_lines_within (Q : char -> Prop) params :
  Q 58 -> Q 32 -> Forall (Forall Q) params -> Forall (Forall Q) (infobox_lines params).
Proof.
  intros Hc Hsp. induction 1 as [|param more Hp _ IH]; [constructor|].
  cbn [infobox_lines].
  destruct (search fl_s re_infobox_param None param) as [st|] eqn:E; [|exact IH].
  pose proof (search_within Q _ _ _ _ _ Hp E) as Hcaps.
  destruct (test fl_i re_infobox_skip _); [exact IH|].
  destruct (trim (cap_get (caps st) 2)) as [|v value] eqn:Ev; [exact IH|].
  constructor; [|exact IH].
  apply Forall_app. split; [apply trim_within, cap_get_within, Hcaps|].
  apply Forall_app. split; [repeat constructor; assumption|].
  rewrite <- Ev. apply trim_within, cap_get_within, Hcaps.
Qed.

Lemma nth_within (Q : char -> Prop) (parts : list str) i :
  Forall (Forall Q) parts -> Forall Q (nth i parts []).
Proof.
  intros H. revert i. induction H as [|p parts Hp _ IH]; intros [|i]; cbn [nth];
    try constructor; auto.
Qed.

Lemma if_part_within (Q : char -> Prop) parts i yes :
  Forall (Forall Q) parts -> (forall p, Forall Q p -> Forall Q (yes p)) ->
  Forall Q (if_part parts i yes).
Proof.
  intros H Hyes. unfold if_part.
  destruct (nth_error parts i) as [[|c p]|] eqn:E; try constructor.
  apply Hyes. rewrite Forall_forall in H. apply H. eapply nth_error_In. exact E.
Qed.

Lemma extractTemplateText_within (Q : char -> Prop) content :
  (forall c, In c (js "(See: )" ++ [34; 10]) -> Q c) ->
  Forall Q content -> Forall Q (extractTemplateText content).
Proof.
  intros Hlit Hc. unfold extractTemplateText. cbv zeta.
  assert (Hparts : Forall (Forall Q) (split (js "|") content)).
  { unfold split. apply split_go_within; [constructor | exact Hc]. }
  set (parts := split (js "|") content) in *. clearbody parts.
  assert (Hl : forall l, (forall c, In c l -> In c (js "(See: )" ++ [34; 10])) -> Forall Q l).
  { intros l Hin. apply Forall_forall. intros c Hcl. apply Hlit, Hin, Hcl. }
  destruct (startsWith _ (js "infobox")).
  { unfold extractInfoboxText.
    assert (Hlines : Forall (Forall Q) (infobox_lines (tl parts))).
    { apply infobox_lines_within.
      - apply Hlit. vm_compute. tauto.
      - apply Hlit. vm_compute. tauto.
      - destruct Hparts; [constructor | assumption]. }
    destruct (infobox_lines (tl parts)) as [|l ls] eqn:El; [constructor|].
    apply Forall_app. split.
    - apply join_within; [|exact Hlines]. apply Hl. intros c Hcl. vm_compute in Hcl |- *. tauto.
    - apply Hl. intros c Hcl. vm_compute in Hcl |- *. tauto. }
  destruct (_ || _).
  { apply if_part_within; [exact Hparts|]. intros p Hp.
    apply Forall_app. split; [apply Hl; intros c Hcl; vm_compute in Hcl |- *; tauto|].
    apply Forall_app. split; [apply trim_within, Hp|].
    apply Hl; intros c Hcl; vm_compute in Hcl |- *; tauto. }
  destruct (_ && _).
  { apply trim_within, nth_within, Hparts. }
  destruct (_ || _).
  { apply if_part_within; [exact Hparts|]. intros p Hp.
    apply Forall_app. split; [apply Hl; intros c Hcl; vm_compute in Hcl |- *; tauto|].
    apply Forall_app. split; [apply trim_within, Hp|].
    apply Hl; intros c Hcl; vm_compute in Hcl |- *; tauto. }
  destruct (str_eqb _ _).
  { apply if_part_within; [exact Hparts|]. intros p Hp. apply trim_within, Hp. }
  constructor.
Qed.

Lemma count_open_app a b : count_open (a ++ b) = (count_open a + count_open b)%nat.
Proof. unfold count_open. rewrite filter_app, length_app. reflexivity. Qed.

Lemma count_open_none s : Forall (fun c => c <> 123) s -> count_open s = O.
Proof.
  unfold count_open. induction 1 as [|x t Hx _ IH]; [reflexivity|].
  cbn [List.filter]. destruct (N.eqb_spec 123 x); [congruence | exact IH].
Qed.

Lemma count_open_cons x t : (count_open t <= count_open (x :: t))%nat.
Proof. unfold count_open. cbn [List.filter]. destruct (123 =? x); cbn [length]; lia. Qed.

Lemma extractTemplateText_no_brace st' pv s :
  match_at fl_none re_template pv s = Some st' ->
  count_open (extractTemplateText (cap_get (caps st') 1)) = O.
Proof.
  intros E. destruct (match_at_template pv s st' E) as (c & _ & Hc & Hcaps).
  rewrite Hcaps. cbn [cap_get Nat.eqb]. apply count_open_none.
  apply extractTemplateText_within.
  - intros x Hx. vm_compute in Hx.
    repeat (destruct Hx as [<-|Hx]; [discriminate|]). destruct Hx.
  - eapply Forall_impl; [|exact Hc]. intros y [Hy _]. exact Hy.
Qed.

(** A pass never adds an opening brace. *)
Lemma template_pass_count s : forall k pv,
  (count_open (replace_go fl_none re_template
                 (fun _ g => extractTemplateText (g 1%nat)) k pv s) <= count_open s)%nat.
Proof.
  induction s as [|x t IH]; intros k pv.
  - destruct k; [|reflexivity]. cbn [replace_go].
    destruct (match_at fl_none re_template pv []) as [st'|] eqn:E; [|reflexivity].
    destruct (match_at_template _ _ _ E) as (c & Hs & _). discriminate Hs.
  - pose proof (count_open_cons x t) as Hx.
    destruct k as [|k]; cbn [replace_go]; [|specialize (IH k (Some x)); lia].
    destruct (match_at fl_none re_template pv (x :: t)) as [st'|] eqn:E.
    + pose proof (extractTemplateText_no_brace _ _ _ E) as H0.
      destruct (length (x :: t) - length (rest st'))%nat as [|j].
      * rewrite count_open_app, H0. cbn [Nat.add].
        specialize (IH O (Some x)). unfold count_open in *. cbn [List.filter].
        destruct (123 =? x); cbn [length]; lia.
      * rewrite count_open_app, H0. cbn [Nat.add]. specialize (IH j (Some x)). lia.
    + specialize (IH O (Some x)). unfold count_open in *. cbn [List.filter].
      destruct (123 =? x); cbn [length]; lia.
Qed.

(** A text that a pass leaves as it is holds no template to resolve. *)
Lemma template_pass_fixed_search s : forall pv,
  replace_go fl_none re_template (fun _ g => extractTemplateText (g 1%nat)) O pv s = s ->
  search fl_none re_template pv s = None.
Proof.
  induction s as [|x t IH]; intros pv Hfix.
  - cbn [search]. destruct (match_at fl_none re_template pv []) as [st'|] eqn:E; [|reflexivity].
    destruct (match_at_template _ _ _ E) as (c & Hs & _). discriminate Hs.
  - cbn [search]. cbn [replace_go] in Hfix.
    destruct (match_at fl_none re_template pv (x :: t)) as [st'|] eqn:E.
    + exfalso. pose proof (extractTemplateText_no_brace _ _ _ E) as H0.
      destruct (match_at_template _ _ _ E) as (c & Hs & _).
      injection Hs as -> Ht.
      assert (Hlen : (length (123%N :: t) - length (rest st')
                      = S (S (S (S (length c)))))%nat).
      { rewrite Ht. cbn [length]. rewrite length_app. cbn [length]. lia. }
      rewrite Hlen in Hfix.
      apply (f_equal count_open) in Hfix. rewrite count_open_app, H0 in Hfix.
      cbn [Nat.add] in Hfix.
      pose proof (template_pass_count t (S (S (S (length c)))) (Some 123)) as Hle.
      unfold count_open in Hfix at 2. cbn [List.filter N.eqb Pos.eqb length] in Hfix.
      fold (count_open t) in Hfix. lia.
    + injection Hfix as Hfix. apply IH. exact Hfix.
Qed.

Lemma processTemplates_run_settled text :
  (snd (processTemplates_run text) < maxIterations)%nat ->
  template_pass (processTemplates text) = processTemplates text.
Proof.
  unfold processTemplates, processTemplates_run, maxIterations.
  change (processTemplates_loop 50 0 [] text)
    with (if str_eqb text [] then (text, 0%nat)
          else processTemplates_loop 49 1 text (template_pass text)).
  destruct (str_eqb text []) eqn:E.
  - intros _. apply str_eqb_eq in E. subst text. vm_compute. reflexivity.
  - intros Hlt.
    apply (processTemplates_loop_settled 49 1 text (template_pass text)); [reflexivity|].
    cbv zeta. lia.
Qed.

(** X12.  Below the cap, every template is resolved.  When
    [processTemplates] stops before its 50th pass, its result holds no
    template left to resolve: nowhere two opening braces, a text without
    braces and two closing braces.  And no pass ever adds an opening brace,
    so the result has at most as many as the input. *)
Theorem processTemplates_resolves_below_cap (text : str) :
  (snd (processTemplates_run text) < maxIterations)%nat ->
  test fl_none re_template (processTemplates text) = false
  /\ (count_open (processTemplates text) <= count_open text)%nat.
Proof.
  intros Hlt. split.
  - unfold test. rewrite template_pass_fixed_search; [reflexivity|].
    apply (processTemplates_run_settled text Hlt).
  - unfold processTemplates, processTemplates_run.
    destruct (processTemplates_loop_passes maxIterations 0 [] text) as [_ E].
    cbv zeta in E. rewrite E. clear E.
    generalize (snd (processTemplates_loop maxIterations 0 [] text) - 0)%nat.
    intros n. induction n as [|n IH]; [reflexivity|].
    rewrite Nat.iter_succ. etransitivity; [apply template_pass_count | exact IH].
Qed.

Lemma processTemplates_resolves_below_cap_witness :
  let text := js "{{Infobox item|name = Rod|cost = {{coins|5}}}} See {{main|{{lc|Fishing}}}}." in
  (snd (processTemplates_run text) < maxIterations)%nat
  /\ processTemplates text = js "name: Rod" ++ [10] ++ js " See ."
  /\ test fl_none re_template (processTemplates text) = false
  /\ (count_open (processTemplates text) <= count_open text)%nat.
Proof.
  cbv zeta.
  assert (Hlt : (snd (processTemplates_run
                        (js "{{Infobox item|name = Rod|cost = {{coins|5}}}} See {{main|{{lc|Fishing}}}}."))
                 < maxIterations)%nat)
    by (apply Nat.ltb_lt; vm_compute; reflexivity).
  split; [exact Hlt|]. split; [vm_compute; reflexivity|].
  apply (processTemplates_resolves_below_cap _ Hlt).
Defined.

(** ** The URL of a title *)

Lemma replace_go_chr f c rp s : forall pv,
  replace_go f (Chr c) rp O pv s
  = flat_map (fun x => if chr_match f c x then rp [x] (cap_get []) else [x]) s.
Proof.
  induction s as [|x t IH]; intros pv; [reflexivity|].
  cbn [replace_go flat_map]. unfold match_at. cbn [m rest].
  destruct (chr_match f c x).
  - cbn [rest advance caps length]. rewrite sub_succ_self. cbn [firstn].
    rewrite IH. reflexivity.
  - rewrite IH. reflexivity.
Qed.

Lemma spaces_to_underscores title :
  replace_all fl_none (Chr 32) (subst (lits "_")) title
  = map (fun x => if x =? 32 then 95 else x) title.
Proof.
  unfold replace_all. rewrite replace_go_chr.
  induction title as [|x t IH]; [reflexivity|].
  cbn [flat_map map]. rewrite IH. unfold chr_match. cbn [ignoreCase fl_none].
  rewrite (N.eqb_sym 32 x). destruct (x =? 32); reflexivity.
Qed.

Lemma upper_hex_digit_url n : n < 16 -> url_char (upper_hex_digit n) = true.
Proof.
  intros Hn. unfold url_char, uri_unreserved, upper_hex_digit, is_upper, is_lower, is_digit.
  destruct (N.ltb_spec n 10).
  - replace ((48 <=? 48 + n) && (48 + n <=? 57)) with true.
    + rewrite !orb_true_r. reflexivity.
    + symmetry. apply andb_true_iff. split; apply N.leb_le; lia.
  - replace ((65 <=? 55 + n) && (55 + n <=? 90)) with true; [reflexivity|].
    symmetry. apply andb_true_iff. split; apply N.leb_le; lia.
Qed.

Lemma percent_octet_url o : o < 256 -> forallb url_char (percent_octet o) = true.
Proof.
  intros Ho. unfold percent_octet. cbn [forallb].
  rewrite !upper_hex_digit_url; [reflexivity | apply N.mod_lt; lia |].
  apply N.Div0.div_lt_upper_bound. lia.
Qed.

Lemma utf8_octets cp : cp < 0x110000 -> Forall (fun o => o < 256) (utf8 cp).
Proof.
  intros Hcp. unfold utf8.
  destruct (N.ltb_spec cp 0x80); [repeat constructor; lia|].
  destruct (N.ltb_spec cp 0x800).
  { assert (cp / 64 < 32) by (apply N.Div0.div_lt_upper_bound; lia).
    pose proof (N.mod_lt cp 64 ltac:(lia)). repeat constructor; lia. }
  destruct (N.ltb_spec cp 0x10000).
  { assert (cp / 4096 < 16) by (apply N.Div0.div_lt_upper_bound; lia).
    pose proof (N.mod_lt cp 64 ltac:(lia)).
    pose proof (N.mod_lt (cp / 64) 64 ltac:(lia)). repeat constructor; lia. }
  assert (cp / 262144 < 8) by (apply N.Div0.div_lt_upper_bound; lia).
  pose proof (N.mod_lt cp 64 ltac:(lia)).
  pose proof (N.mod_lt (cp / 64) 64 ltac:(lia)).
  pose proof (N.mod_lt (cp / 4096) 64 ltac:(lia)). repeat constructor; lia.
Qed.

Lemma percent_utf8_url cp :
  cp < 0x110000 -> forallb url_char (flat_map percent_octet (utf8 cp)) = true.
Proof.
  intros Hcp. pose proof (utf8_octets cp Hcp) as Ho.
  induction Ho as [|o os Ho _ IH]; [reflexivity|].
  cbn [flat_map]. rewrite forallb_app, (percent_octet_url o Ho), IH. reflexivity.
Qed.

Lemma pair_code_point_bound hi lo :
  is_high_surrogate hi = true -> is_low_surrogate lo = true ->
  pair_code_point hi lo < 0x110000.
Proof.
  unfold is_high_surrogate, is_low_surrogate, pair_code_point. intros H1 H2.
  apply andb_prop in H1 as [Ha Hb]. apply andb_prop in H2 as [Hc Hd].
  apply N.leb_le in Ha, Hb, Hc, Hd. lia.
Qed.

Lemma uri_unreserved_ascii c : uri_unreserved c = true -> c < 128.
Proof.
  unfold uri_unreserved, is_upper, is_lower, is_digit.
  change (js "-_.!~*'()") with [45; 95; 46; 33; 126; 42; 39; 40; 41].
  cbn [existsb]. intros H.
  destruct (N.ltb_spec c 128) as [Hlt|Hge]; [exact Hlt|]. exfalso.
  repeat match type of H with
    | context [N.leb ?a ?b] => destruct (N.leb_spec a b); try lia
    | context [N.eqb ?a ?b] => destruct (N.eqb_spec a b); try lia
    end; cbn in H; discriminate H.
Qed.

Lemma encodeURIComponent_spec n : forall s, (length s <= n)%nat ->
  code_units s ->
  match encodeURIComponent s with
  | Some e => well_formed s = true /\ forallb url_char e = true
  | None => well_formed s = false
  end.
Proof.
  induction n as [|n IH]; intros s Hn Hs.
  - destruct s; [split; reflexivity | cbn [length] in Hn; lia].
  - destruct s as [|c t]; [split; reflexivity|].
    cbn [length] in Hn. inversion Hs as [|? ? Hc Ht]; subst.
    cbn [encodeURIComponent well_formed].
    destruct (uri_unreserved c) eqn:Hu.
    + assert (Hns : is_high_surrogate c = false /\ is_low_surrogate c = false).
      { pose proof (uri_unreserved_ascii c Hu) as Hlt.
        unfold is_high_surrogate, is_low_surrogate.
        split; apply andb_false_iff; left; apply N.leb_gt; lia. }
      destruct Hns as [-> ->]. cbn [negb andb].
      specialize (IH t ltac:(lia) Ht).
      destruct (encodeURIComponent t) as [e|]; cbn [option_map]; [|exact IH].
      destruct IH as [Hw He]. split; [exact Hw|].
      cbn [forallb]. unfold url_char at 1. rewrite Hu, He. reflexivity.
    + destruct (is_high_surrogate c) eqn:Hh.
      * destruct t as [|d t']; [reflexivity|].
        destruct (is_low_surrogate d) eqn:Hl; [|reflexivity]. cbn [andb].
        inversion Ht as [|? ? Hd Ht']; subst.
        specialize (IH t' ltac:(cbn [length] in Hn; lia) Ht').
        destruct (encodeURIComponent t') as [e|]; cbn [option_map]; [|exact IH].
        destruct IH as [Hw He]. split; [exact Hw|].
        rewrite forallb_app, He, percent_utf8_url;
          [reflexivity | apply pair_code_point_bound; assumption].
      * destruct (is_low_surrogate c) eqn:Hl; [reflexivity|]. cbn [negb andb].
        specialize (IH t ltac:(lia) Ht).
        destruct (encodeURIComponent t) as [e|]; cbn [option_map]; [|exact IH].
        destruct IH as [Hw He]. split; [exact Hw|].
        rewrite forallb_app, He, percent_utf8_url; [reflexivity | lia].
Qed.

Lemma well_formed_underscores s :
  well_formed (map (fun x => if x =? 32 then 95 else x) s) = well_formed s.
Proof.
  assert (Hh : forall x, is_high_surrogate (if x =? 32 then 95 else x) = is_high_surrogate x).
  { intros x. destruct (N.eqb_spec x 32) as [->|]; reflexivity. }
  assert (Hl : forall x, is_low_surrogate (if x =? 32 then 95 else x) = is_low_surrogate x).
  { intros x. destruct (N.eqb_spec x 32) as [->|]; reflexivity. }
  assert (H : forall n s, (length s <= n)%nat ->
            well_formed (map (fun x => if x =? 32 then 95 else x) s) = well_formed s).
  { clear s. induction n as [|n IH]; intros s Hn.
    - destruct s; [reflexivity | cbn [length] in Hn; lia].
    - destruct s as [|c t]; [reflexivity|]. cbn [length] in Hn.
      cbn [map well_formed]. rewrite Hh, Hl.
      destruct (is_high_surrogate c).
      + destruct t as [|d t']; [reflexivity|]. cbn [map]. rewrite Hl.
        rewrite (IH t') by (cbn [length] in Hn; lia). reflexivity.
      + rewrite (IH t) by lia. reflexivity. }
  apply (H (length s)). lia.
Qed.

Lemma encodeURIComponent_unreserved s :
  forallb uri_unreserved s = true -> encodeURIComponent s = Some s.
Proof.
  induction s as [|c t IH]; [reflexivity|].
  cbn [forallb encodeURIComponent]. intros H. apply andb_prop in H as [Hc Ht].
  rewrite Hc, (IH Ht). reflexivity.
Qed.

(** X13.  The URL of a title.  [titleToUrl] throws (a [URIError]) exactly
    when the title holds an unpaired surrogate.  Otherwise the URL is the
    wiki base followed by unreserved code units (letters, digits,
    "-_.!~*'()") and percent escapes only: no space, slash, question mark
    or hash of the title gets into it.  A title of unreserved code units
    and spaces is copied with each space turned into an underscore. *)
Theorem titleToUrl_is_url_safe (title : str) :
  code_units title ->
  (titleToUrl title = None <-> well_formed title = false)
  /\ (forall url, titleToUrl title = Some url ->
        exists e, url = WIKI_BASE ++ e /\ forallb url_char e = true)
  /\ (forallb (fun c => uri_unreserved c || (c =? 32)) title = true ->
        titleToUrl title
        = Some (WIKI_BASE ++ map (fun x => if x =? 32 then 95 else x) title)).
Proof.
  intros Hcu. unfold titleToUrl. rewrite spaces_to_underscores.
  set (t := map (fun x => if x =? 32 then 95 else x) title).
  assert (Ht : code_units t).
  { unfold t, code_units. apply Forall_map. eapply Forall_impl; [|exact Hcu].
    intros x Hx. cbv beta. destruct (x =? 32); [reflexivity | exact Hx]. }
  pose proof (encodeURIComponent_spec (length t) t (le_n _) Ht) as Hspec.
  rewrite <- (well_formed_underscores title). fold t.
  split; [|split].
  - destruct (encodeURIComponent t) as [e|]; cbn [option_map].
    + destruct Hspec as [Hw _]. rewrite Hw. split; discriminate.
    + split; [intros _; exact Hspec | reflexivity].
  - intros url E. destruct (encodeURIComponent t) as [e|]; cbn [option_map] in E;
      [|discriminate E].
    injection E as <-. exists e. split; [reflexivity | exact (proj2 Hspec)].
  - intros Hplain. rewrite encodeURIComponent_unreserved; [reflexivity|].
    unfold t. rewrite forallb_forall in *. intros x Hx.
    apply in_map_iff in Hx as (y & <- & Hy). specialize (Hplain y Hy).
    destruct (N.eqb_spec y 32); [reflexivity|].
    rewrite orb_false_r in Hplain. exact Hplain.
Qed.

Lemma titleToUrl_is_url_safe_witness :
  code_units (js "Fishing Rod (item)/v2?")
  /\ titleToUrl (js "Fishing Rod (item)/v2?")
     = Some (WIKI_BASE ++ js "Fishing_Rod_(item)%2Fv2%3F")
  /\ titleToUrl (js "caf" ++ [0xe9; 0xd83d; 0xde00])
     = Some (WIKI_BASE ++ js "caf%C3%A9%F0%9F%98%80")
  /\ titleToUrl (js "bad" ++ [0xd83d]) = None
  /\ (titleToUrl (js "Fishing Rod (item)/v2?") = None
      <-> well_formed (js "Fishing Rod (item)/v2?") = false)
  /\ (forall url, titleToUrl (js "Fishing Rod (item)/v2?") = Some url ->
        exists e, url = WIKI_BASE ++ e /\ forallb url_char e = true)
  /\ (forallb (fun c => uri_unreserved c || (c =? 32)) (js "Fishing Rod (item)/v2?") = true ->
        titleToUrl (js "Fishing Rod (item)/v2?")
        = Some (WIKI_BASE ++ map (fun x => if x =? 32 then 95 else x)
                               (js "Fishing Rod (item)/v2?"))).
Proof.
  assert (Hcu : code_units (js "Fishing Rod (item)/v2?")).
  { unfold code_units. apply Forall_forall. intros c Hc. vm_compute in Hc.
    repeat (destruct Hc as [<-|Hc]; [reflexivity|]). destruct Hc. }
  split; [exact Hcu|]. split; [vm_compute; reflexivity|].
  split; [vm_compute; reflexivity|]. split; [vm_compute; reflexivity|].
  apply (titleToUrl_is_url_safe _ Hcu).
Defined.

(** ** The scraper *)

Lemma underscores_to_spaces s :
  replace_all fl_none (Chr 95) (subst (lits " ")) s
  = map (fun x => if x =? 95 then 32 else x) s.
Proof.
  unfold replace_all. rewrite replace_go_chr.
  induction s as [|x t IH]; [reflexivity|].
  cbn [flat_map map]. rewrite IH. unfold chr_match. cbn [ignoreCase fl_none].
  rewrite (N.eqb_sym 95 x). destruct (x =? 95); reflexivity.
Qed.

Lemma no_underscore_left s : ~ In 95 (map (fun x => if x =? 95 then 32 else x) s).
Proof.
  intros Hin. apply in_map_iff in Hin as (x & Hx & _).
  destruct (N.eqb_spec x 95); [discriminate Hx | congruence].
Qed.

Lemma internal_filter_keeps_all (l : list str) :
  Forall (fun c => ~ In 95 c) l ->
  List.filter (fun c => negb (startsWith c (js "__"))) l = l.
Proof.
  induction 1 as [|c l Hc _ IH]; [reflexivity|].
  cbn [List.filter]. rewrite IH.
  destruct c as [|x c']; [reflexivity|].
  change (js "__") with [95; 95]. cbn [startsWith].
  destruct (N.eqb_spec x 95) as [->|]; [exfalso; apply Hc; left; reflexivity | reflexivity].
Qed.

Lemma fetchPageContent_no_underscore `{MediaWiki} (title : str) (w : World)
  (wikitext : str) (cats : list str) :
  fst (fetchPageContent title w) = Some (wikitext, cats) ->
  Forall (fun c => ~ In 95 c) cats.
Proof.
  unfold fetchPageContent. destruct (apiRequest_parse title w) as [[data|] w'];
    cbn [fst]; [|discriminate].
  destruct (ParseResponse.error data); [discriminate|].
  destruct (ParseResponse.parse data) as [p|]; [|discriminate].
  destruct (ParseResponse.wikitext p) as [wt|]; [|discriminate].
  intros E. injection E as <- <-.
  apply Forall_forall. intros c Hc. apply filter_In in Hc as [Hc _].
  apply in_map_iff in Hc as (x & <- & _).
  rewrite underscores_to_spaces. apply no_underscore_left.
Qed.

(** X14.  The categories of a fetched page.  When [fetchPageContent]
    returns a page, its wikitext is the one of the response and its
    categories are those of the response, all of them and in order, each
    with every underscore turned into a space.  No category is left out:
    the filter for names that start with two underscores runs after the
    underscores are gone, so it never finds one. *)
Theorem fetchPageContent_keeps_every_category `{MediaWiki} (title : str) (w : World)
  (wikitext : str) (cats : list str) :
  fst (fetchPageContent title w) = Some (wikitext, cats) ->
  exists data p,
    fst (apiRequest_parse title w) = ApiOk data
    /\ ParseResponse.error data = None
    /\ ParseResponse.parse data = Some p
    /\ ParseResponse.wikitext p = Some wikitext
    /\ cats = map (fun c => map (fun x => if x =? 95 then 32 else x) (ParseResponse.star c))
                (match ParseResponse.categories p with Some l => l | None => [] end)
    /\ Forall (fun c => ~ In 95 c) cats.
Proof.
  unfold fetchPageContent. destruct (apiRequest_parse title w) as [[data|] w'];
    cbn [fst]; [|discriminate].
  destruct (ParseResponse.error data) eqn:Ee; [discriminate|].
  destruct (ParseResponse.parse data) as [p|] eqn:Ep; [|discriminate].
  destruct (ParseResponse.wikitext p) as [wt|] eqn:Ew; [|discriminate].
  intros E. injection E as <- <-.
  set (l := match ParseResponse.categories p with Some l => l | None => [] end).
  assert (Hmap : map (fun c => replace_all fl_none (Chr 95) (subst (lits " "))
                                 (ParseResponse.star c)) l
                  = map (fun c => map (fun x => if x =? 95 then 32 else x)
                                    (ParseResponse.star c)) l).
  { apply map_ext. intros c. apply underscores_to_spaces. }
  assert (Hno : Forall (fun c => ~ In 95 c)
                  (map (fun c => map (fun x => if x =? 95 then 32 else x)
                                   (ParseResponse.star c)) l)).
  { apply Forall_map. apply Forall_forall. intros c _. apply no_underscore_left. }
  rewrite Hmap, (internal_filter_keeps_all _ Hno).
  exists data, p. repeat split; try assumption; reflexivity.
Qed.

Lemma fetchPageContent_keeps_every_category_witness :
  let W := example_wiki in
  fst (fetchPageContent (js "Fishing") O)
  = Some (js "'''Fishing''' is an [[activity]] of the game. {{stub}}",
          [js "Side Quests"; js "  Hidden"])
  /\ exists data p,
       fst (apiRequest_parse (js "Fishing") O) = ApiOk data
       /\ ParseResponse.error data = None
       /\ ParseResponse.parse data = Some p
       /\ ParseResponse.wikitext p
          = Some (js "'''Fishing''' is an [[activity]] of the game. {{stub}}")
       /\ [js "Side Quests"; js "  Hidden"]
          = map (fun c => map (fun x => if x =? 95 then 32 else x) (ParseResponse.star c))
              (match ParseResponse.categories p with Some l => l | None => [] end)
       /\ Forall (fun c => ~ In 95 c) [js "Side Quests"; js "  Hidden"].
Proof.
  cbv zeta.
  assert (E : fst (fetchPageContent (H := example_wiki) (js "Fishing") O)
              = Some (js "'''Fishing''' is an [[activity]] of the game. {{stub}}",
                      [js "Side Quests"; js "  Hidden"]))
    by (vm_compute; reflexivity).
  split; [exact E|].
  apply (fetchPageContent_keeps_every_category (H := example_wiki) _ _ _ _ E).
Defined.
(** What a write of pages leaves in the table: rows that were there, and
    rows that hold a page of the batch. *)
Lemma upsert_stmt_rows `{Fts5Tokenizer} now p db row :
  In row (pages (fst (upsert_stmt now p db))) ->
  In row (pages db)
  \/ (PageData.title p = Some (WikiPageRow.title row)
      /\ PageData.content p = Some (WikiPageRow.content row)
      /\ PageData.url p = Some (WikiPageRow.url row)
      /\ WikiPageRow.categories row = JSON_stringify (PageData.categories p)).
Proof.
  unfold upsert_stmt, sql_update_page, sql_insert_page.
  destruct (PageData.title p) as [t|]; [|left; assumption].
  destruct (PageData.content p) as [c|]; [|left; assumption].
  destruct (PageData.url p) as [u|]; [|left; assumption].
  destruct (find (title_is t) (pages db)) as [old|] eqn:E; cbn [fst pages]; intros Hin.
  - destruct (find_title_is _ _ _ E) as [Ht _].
    apply replace_row_in in Hin as [->|Hin]; [right | left; exact Hin].
    cbn [WikiPageRow.title WikiPageRow.content WikiPageRow.url WikiPageRow.categories].
    rewrite Ht. auto.
  - apply in_app_or in Hin as [Hin|[<-|[]]]; [left; exact Hin | right].
    cbn [WikiPageRow.title WikiPageRow.content WikiPageRow.url WikiPageRow.categories]. auto.
Qed.

Lemma upsert_stmt_keeps_other `{Fts5Tokenizer} now p db row :
  In row (pages db) -> PageData.title p <> Some (WikiPageRow.title row) ->
  In row (pages (fst (upsert_stmt now p db))).
Proof.
  intros Hin Hne. unfold upsert_stmt, sql_update_page, sql_insert_page.
  destruct (PageData.title p) as [t|]; [|exact Hin].
  destruct (PageData.content p) as [c|]; [|exact Hin].
  destruct (PageData.url p) as [u|]; [|exact Hin].
  destruct (find (title_is t) (pages db)) as [old|] eqn:E; cbn [fst pages].
  - destruct (find_title_is _ _ _ E) as [Ht _]. rewrite Ht.
    destruct (replace_row_keeps t
                (WikiPageRow.mk (WikiPageRow.id old) t c u
                   (JSON_stringify (PageData.categories p)) (PageData.last_modified p) now)
                _ old row E Hin) as [H1 | -> ]; [exact H1|].
    exfalso. apply Hne. rewrite Ht. reflexivity.
  - apply in_or_app. left. exact Hin.
Qed.

(** A property of the database that every statement of a batch of pages
    [PB] keeps is kept by [upsertPages] on such a batch, which does not
    throw when the pages can be bound. *)
Lemma upsertPages_keeps `{Fts5Tokenizer} (PB : PageData.t -> Prop) (PD : Db -> Prop) :
  (forall now p db, PB p -> PD db -> PD (fst (upsert_stmt now p db))) ->
  forall clock ps db, Forall PB ps -> PD db -> PD (fst (upsertPages clock ps db)).
Proof.
  intros Hstmt clock ps db Hps Hdb. unfold upsertPages.
  apply (transaction_keeps PD); [exact Hdb|].
  generalize 0%nat. revert db Hdb.
  induction Hps as [|p ps Hp _ IH]; intros db Hdb k; [exact Hdb|].
  cbn [upsert_loop]. pose proof (Hstmt (clock k) p db Hp Hdb) as Hs.
  destruct (upsert_stmt (clock k) p db) as [db' [e|]]; cbn [fst] in *; [exact Hs|].
  apply IH. exact Hs.
Qed.

Lemma upsertPages_bindable `{Fts5Tokenizer} clock ps db :
  forallb bindable ps = true -> snd (upsertPages clock ps db) = None.
Proof.
  intros Hb. unfold upsertPages, transaction.
  rewrite upsert_loop_all by exact Hb. reflexivity.
Qed.

Section ScrapeInvariant.
Context `{MediaWiki} `{Fts5Tokenizer}.

(** [PB] holds of the pages the loop builds, [PD] of the database. *)
Variable PB : PageData.t -> Prop.
Variable PD : Db -> Prop.
Variable titles0 : list str.

Hypothesis PB_bindable : forall p, PB p -> bindable p = true.
Hypothesis PD_stmt : forall now p db, PB p -> PD db -> PD (fst (upsert_stmt now p db)).
Hypothesis PD_pages : forall db db', pages db' = pages db -> PD db -> PD db'.
Hypothesis PB_built : forall title wikitext url cats lm,
  In title titles0 ->
  (20 <= length (parseWikitext wikitext))%nat ->
  titleToUrl title = Some url ->
  Forall (fun c => ~ In 95 c) cats ->
  PB (PageData.mk (Some title) (Some (parseWikitext wikitext)) (Some url) cats lm).

Lemma Forall_bindable ps : Forall PB ps -> forallb bindable ps = true.
Proof using PB_bindable.
  induction 1 as [|p ps Hp _ IH]; [reflexivity|].
  cbn [forallb]. rewrite (PB_bindable p Hp), IH. reflexivity.
Qed.

Lemma scrape_loop_keeps batchSize total titles :
  forall processed failed batch r,
    (forall t, In t titles -> In t titles0) ->
    Forall PB batch -> PD (store r) ->
    match scrape_loop batchSize total titles processed failed batch r with
    | (_, _, batch', r', e) =>
        Forall PB batch' /\ PD (store r') /\ (e = None \/ e = Some URIError)
    end.
Proof using PB_bindable PD_stmt PB_built.
  induction titles as [|title more IH]; intros processed failed batch r Hin Hb Hd.
  - cbn [scrape_loop]. auto.
  - assert (Hmore : forall t, In t more -> In t titles0) by (intros t Ht; apply Hin; right; exact Ht).
    cbn [scrape_loop].
    destruct (fetchPageContent title (world r)) as [content w] eqn:Ef.
    destruct content as [[wikitext cats]|]; [|apply IH; assumption].
    destruct (length (parseWikitext wikitext) <? 20)%nat eqn:Elen; [apply IH; assumption|].
    destruct (fetchLastModified title (sleep RATE_LIMIT_MS w)) as [lm w'].
    destruct (titleToUrl title) as [url|] eqn:Eu; [|cbn [store]; auto].
    assert (Hp : PB (PageData.mk (Some title) (Some (parseWikitext wikitext)) (Some url)
                       cats lm)).
    { apply PB_built; [apply Hin; left; reflexivity | | exact Eu |].
      - apply Nat.ltb_ge in Elen. exact Elen.
      - apply (fetchPageContent_no_underscore title (world r) wikitext cats).
        rewrite Ef. reflexivity. }
    assert (Hb' : Forall PB (batch ++ [PageData.mk (Some title) (Some (parseWikitext wikitext))
                                         (Some url) cats lm])).
    { apply Forall_app. split; [exact Hb | constructor; [exact Hp | constructor]]. }
    destruct (batchSize <=? Z.of_nat (length _))%Z.
    + pose proof (upsertPages_keeps PB PD PD_stmt (datetime_now (sleep RATE_LIMIT_MS w')) _
                    (store r) Hb' Hd) as Hk.
      pose proof (upsertPages_bindable (datetime_now (sleep RATE_LIMIT_MS w')) _ (store r)
                    (Forall_bindable _ Hb')) as He.
      destruct (upsertPages _ _ (store r)) as [db [e|]]; cbn [fst snd] in *; [discriminate He|].
      apply IH; [exact Hmore | constructor | exact Hk].
    + apply IH; [exact Hmore | exact Hb' | exact Hd].
Qed.

Lemma Set_has_of t l : Set_has t (Set_of l) = existsb (str_eqb t) l.
Proof.
  unfold Set_of.
  assert (Hgen : forall s, Set_has t (fold_left Set_add l s)
                           = Set_has t s || existsb (str_eqb t) l).
  { induction l as [|x l IH]; intros s; cbn [fold_left existsb].
    - rewrite orb_false_r. reflexivity.
    - rewrite IH. unfold Set_add.
      destruct (Set_has x s) eqn:Ex.
      + destruct (str_eqb t x) eqn:Etx; [|reflexivity].
        apply str_eqb_eq in Etx. subst x. rewrite Ex. reflexivity.
      + unfold Set_has. rewrite existsb_app. cbn [existsb].
        rewrite orb_false_r, orb_assoc. reflexivity. }
  rewrite Hgen. reflexivity.
Qed.

Lemma scrape_titles_keeps (incremental : bool) (batchSize : Z) (titles : list str) (r : Run) :
  (forall t, In t (if incremental
                   then List.filter
                          (fun t => negb (Set_has t (Set_of (getAllTitles (store r))))) titles
                   else titles) -> In t titles0) ->
  PD (store r) ->
  PD (store (fst (scrape_titles incremental batchSize titles r)))
  /\ (snd (scrape_titles incremental batchSize titles r) = None
      \/ snd (scrape_titles incremental batchSize titles r) = Some URIError).
Proof using PB_bindable PD_stmt PD_pages PB_built.
  intros Hin Hd. unfold scrape_titles. cbv zeta.
  destruct (incremental && _); [cbn [fst snd store]; auto|].
  match goal with
  | |- context [scrape_loop ?bs ?tot ?ts ?p ?f ?b ?r0] =>
      pose proof (scrape_loop_keeps bs tot ts p f b r0 Hin (Forall_nil PB) Hd) as Hl;
      destruct (scrape_loop bs tot ts p f b r0) as [[[[processed failed] batch] r'] e]
  end.
  destruct Hl as (Hb & Hd' & He).
  destruct e as [e|]; [cbn [fst snd]; split; [exact Hd'|]; destruct He; [discriminate | auto]|].
  assert (Hflush :
    PD (fst (if (0 <? length batch)%nat
             then upsertPages (datetime_now (world r')) batch (store r')
             else (store r', None)))
    /\ snd (if (0 <? length batch)%nat
            then upsertPages (datetime_now (world r')) batch (store r')
            else (store r', None)) = None).
  { destruct (0 <? length batch)%nat; [|cbn [fst snd]; auto]. split.
    - apply (upsertPages_keeps PB PD PD_stmt); assumption.
    - apply upsertPages_bindable, Forall_bindable, Hb. }
  destruct (if (0 <? length batch)%nat then _ else _) as [db [e|]];
    cbn [fst snd] in Hflush; destruct Hflush as [Hd2 He2]; [discriminate He2|].
  destruct (refreshCategories_pairs db) as [Er _].
  destruct (refreshCategories_pages db) as [Ep _].
  destruct (refreshCategories db) as [db' [e|]]; cbn [fst snd] in *; [discriminate Er|].
  split; [|left; reflexivity]. cbn [store]. apply (PD_pages db db' Ep Hd2).
Qed.

End ScrapeInvariant.
Lemma scraped_page_row `{Fts5Tokenizer} p row :
  scraped_page p ->
  PageData.title p = Some (WikiPageRow.title row)
  /\ PageData.content p = Some (WikiPageRow.content row)
  /\ PageData.url p = Some (WikiPageRow.url row)
  /\ WikiPageRow.categories row = JSON_stringify (PageData.categories p) ->
  scraped_row row.
Proof.
  intros (title & wikitext & url & Ht & Hc & Hu & Hlen & Hurl & Hcats) (Et & Ec & Eu & Ecat).
  rewrite Ht in Et. rewrite Hc in Ec. rewrite Hu in Eu.
  injection Et as Et. injection Ec as Ec. injection Eu as Eu.
  unfold scraped_row. rewrite <- Ec, <- Et, <- Eu.
  split; [exact Hlen|]. split; [exists wikitext; reflexivity|]. split; [exact Hurl|].
  exists (PageData.categories p). split; [exact Ecat | exact Hcats].
Qed.

(** The fuel only bounds the title listing: once it is enough, more of it
    changes nothing. *)
Lemma fetchAllPageTitles_loop_more_fuel `{MediaWiki} fuel :
  forall titles token w lines x,
    fetchAllPageTitles_loop fuel titles token w lines = Some x ->
    forall fuel', (fuel <= fuel')%nat ->
      fetchAllPageTitles_loop fuel' titles token w lines = Some x.
Proof.
  induction fuel as [|fuel IH]; intros titles token w lines x E fuel' Hle; [discriminate|].
  destruct fuel' as [|fuel']; [lia|].
  cbn [fetchAllPageTitles_loop] in *.
  destruct (apiRequest_allpages (truthy token) w) as [[data|] w1]; [|exact E].
  cbv zeta in *.
  destruct (truthy (option_map AllPagesResponse.apcontinue (AllPagesResponse.continue_ data)));
    [|exact E].
  apply (IH _ _ _ _ _ E). lia.
Qed.

Lemma scrapeWiki_more_fuel `{MediaWiki} `{Fts5Tokenizer} fuel incremental batchSize r x :
  scrapeWiki fuel incremental batchSize r = Some x ->
  forall fuel', (fuel <= fuel')%nat -> scrapeWiki fuel' incremental batchSize r = Some x.
Proof.
  unfold scrapeWiki, fetchAllPageTitles. intros E fuel' Hle.
  destruct (fetchAllPageTitles_loop fuel [] None (world r) _) as [y|] eqn:Ef; [|discriminate].
  rewrite (fetchAllPageTitles_loop_more_fuel fuel _ _ _ _ y Ef fuel' Hle). exact E.
Qed.

(** X15.  What a scrape writes.  When [scrapeWiki] returns, every row of
    table [pages] was there before or holds a scraped page: its content is
    the parsed text of some wikitext and at least 20 code units long, its
    url is [titleToUrl] of its title, and its categories are the JSON text
    of names without underscore.  The only exceptions that can reach the
    caller are the one of the title listing and the [URIError] of a title
    with an unpaired surrogate: the writes never violate a constraint.
    The run ends as soon as the title listing does: with more fuel the
    result is the same. *)
Theorem scrapeWiki_writes_parsed_pages `{MediaWiki} `{Fts5Tokenizer} (fuel : nat)
  (incremental : bool) (batchSize : Z) (r r' : Run) (e : option ScrapeError) :
  scrapeWiki fuel incremental batchSize r = Some (r', e) ->
  (forall row, In row (pages (store r')) -> In row (pages (store r)) \/ scraped_row row)
  /\ (e = None \/ e = Some ApiError \/ e = Some URIError)
  /\ (forall fuel', (fuel <= fuel')%nat ->
        scrapeWiki fuel' incremental batchSize r = Some (r', e)).
Proof.
  intros Hrun.
  assert (Hmain :
    (forall row, In row (pages (store r')) -> In row (pages (store r)) \/ scraped_row row)
    /\ (e = None \/ e = Some ApiError \/ e = Some URIError)).
  { revert Hrun. unfold scrapeWiki.
    destruct (fetchAllPageTitles fuel (world r) (logged r)) as [[[[titles|] w] lines]|];
      [| |discriminate].
    - intros E. injection E as E.
      pose proof (scrape_titles_keeps scraped_page
                    (fun db => forall row, In row (pages db) ->
                       In row (pages (store r)) \/ scraped_row row)
                    titles) as Hk.
      specialize (Hk ltac:(intros p (t & wt & u & Ht & Hc & Hu & _); unfold bindable;
                           rewrite Ht, Hc, Hu; reflexivity)).
      specialize (Hk ltac:(intros now p db Hp Hd row Hin;
                           apply upsert_stmt_rows in Hin as [Hin|Hin];
                           [apply Hd; exact Hin | right; exact (scraped_page_row p row Hp Hin)])).
      specialize (Hk ltac:(intros db db' Ep Hd row Hin; rewrite Ep in Hin; apply Hd; exact Hin)).
      specialize (Hk ltac:(intros title wikitext url cats lm _ Hlen Hurl Hcats;
                           exists title, wikitext, url; cbn; auto 10)).
      specialize (Hk incremental batchSize titles (mkRun w (store r) lines)).
      destruct Hk as [Hd He].
      + intros t Ht. destruct incremental; [apply filter_In in Ht as [Ht _]|]; exact Ht.
      + cbn [store]. intros row Hin. left. exact Hin.
      + rewrite E in Hd, He. cbn [fst snd] in Hd, He. split; [exact Hd | tauto].
    - intros E. injection E as <- <-. cbn [store]. split; [auto | auto]. }
  destruct Hmain as [H1 H2]. split; [exact H1|]. split; [exact H2|].
  exact (scrapeWiki_more_fuel _ _ _ _ _ Hrun).
Qed.
Lemma scrapeWiki_writes_parsed_pages_witness :
  let W := example_wiki in
  let T := example_tokenizer in
  option_map (fun x => (map WikiPageRow.title (pages (store (fst x))), snd x))
    (scrapeWiki 5 false 25 example_run)
  = Some ([js "Fishing"; js "Cooking"; js "Fishing Rod"; js "Quests"; js "Racing"], None)
  /\ getPage (js "Racing") (store example_run) = NotFound
  /\ exists r' e,
       scrapeWiki 5 false 25 example_run = Some (r', e)
       /\ (forall row, In row (pages (store r')) ->
             In row (pages (store example_run)) \/ scraped_row row)
       /\ (e = None \/ e = Some ApiError \/ e = Some URIError)
       /\ (forall fuel', (5 <= fuel')%nat -> scrapeWiki fuel' false 25 example_run = Some (r', e)).
Proof.
  cbv zeta. split; [vm_compute; reflexivity|]. split; [vm_compute; reflexivity|].
  assert (Hs : match scrapeWiki (H := example_wiki) (H0 := example_tokenizer) 5 false 25 example_run with
               | Some _ => true
               | None => false
               end = true) by (vm_compute; reflexivity).
  destruct (scrapeWiki (H := example_wiki) (H0 := example_tokenizer) 5 false 25 example_run)
    as [[r' e]|] eqn:E; [|discriminate Hs].
  exists r', e. split; [reflexivity|].
    apply (scrapeWiki_writes_parsed_pages (H := example_wiki) (H0 := example_tokenizer)
             5 false 25 example_run r' e E).
Defined.

Lemma existsb_str_eqb_in t l : existsb (str_eqb t) l = false -> ~ In t l.
Proof.
  intros Hex Hin. assert (Htrue : existsb (str_eqb t) l = true).
  { apply existsb_exists. exists t. split; [exact Hin | apply str_eqb_refl]. }
  congruence.
Qed.

(** X16.  An incremental scrape leaves the stored pages alone.  When
    [scrapeWiki] returns in incremental mode, normally or with an
    exception, every row that was in table [pages] is still there, the
    same in every column: only titles that were not stored are fetched and
    written.  And when the wiki lists no title that is new, nothing is
    written at all, and the run ends without an exception. *)
Theorem scrapeWiki_incremental_keeps_pages `{MediaWiki} `{Fts5Tokenizer} (fuel : nat)
  (batchSize : Z) (r r' : Run) (e : option ScrapeError) :
  scrapeWiki fuel true batchSize r = Some (r', e) ->
  (forall row, In row (pages (store r)) -> In row (pages (store r')))
  /\ (forall titles r0,
        (forall t, In t titles -> In t (getAllTitles (store r0))) ->
        store (fst (scrape_titles true batchSize titles r0)) = store r0
        /\ world (fst (scrape_titles true batchSize titles r0)) = world r0
        /\ snd (scrape_titles true batchSize titles r0) = None).
Proof.
  intros E. split.
  - unfold scrapeWiki in E.
    destruct (fetchAllPageTitles fuel (world r) (logged r)) as [[[[titles|] w] lines]|];
      [| |discriminate].
    + injection E as E.
      set (new := List.filter
                    (fun t => negb (Set_has t (Set_of (getAllTitles (store r))))) titles).
      pose proof (scrape_titles_keeps
                    (fun p => bindable p = true
                              /\ forall row, In row (pages (store r)) ->
                                   PageData.title p <> Some (WikiPageRow.title row))
                    (fun db => forall row, In row (pages (store r)) -> In row (pages db))
                    new) as Hk.
      specialize (Hk ltac:(intros p [Hb _]; exact Hb)).
      specialize (Hk ltac:(intros now p db [_ Hp] Hd row Hin;
                           apply upsert_stmt_keeps_other; [apply Hd; exact Hin | apply Hp; exact Hin])).
      specialize (Hk ltac:(intros db db' Ep Hd row Hin; rewrite Ep; apply Hd; exact Hin)).
      assert (Hbuilt : forall title wikitext url cats lm,
                In title new ->
                (20 <= length (parseWikitext wikitext))%nat ->
                titleToUrl title = Some url ->
                Forall (fun c => ~ In 95 c) cats ->
                bindable (PageData.mk (Some title) (Some (parseWikitext wikitext)) (Some url)
                            cats lm) = true
                /\ forall row, In row (pages (store r)) ->
                     PageData.title (PageData.mk (Some title) (Some (parseWikitext wikitext))
                                       (Some url) cats lm)
                     <> Some (WikiPageRow.title row)).
      { intros title wikitext url cats lm Hnew _ _ _. split; [reflexivity|].
        intros row Hin Heq. cbn [PageData.title] in Heq. injection Heq as Heq.
        apply filter_In in Hnew as [_ Hnew]. apply negb_true_iff in Hnew.
        rewrite Set_has_of in Hnew. apply existsb_str_eqb_in in Hnew. apply Hnew.
        apply (getAllTitles_in title (store r)). exists row. auto. }
      specialize (Hk Hbuilt true batchSize titles (mkRun w (store r) lines)).
      destruct Hk as [Hd _]; [intros t Ht; exact Ht | cbn [store]; auto|].
      rewrite E in Hd. exact Hd.
    + injection E as <- <-. cbn [store]. auto.
  - intros titles r0 Hall. unfold scrape_titles. cbv zeta.
    assert (Hnone : List.filter
                      (fun t => negb (Set_has t (Set_of (getAllTitles (store r0))))) titles
                    = []).
    { induction titles as [|t titles IH]; [reflexivity|].
      cbn [List.filter]. rewrite Set_has_of.
      assert (Ht : existsb (str_eqb t) (getAllTitles (store r0)) = true).
      { apply existsb_exists. exists t. split; [apply Hall; left; reflexivity | apply str_eqb_refl]. }
      rewrite Ht. cbn [negb]. apply IH. intros x Hx. apply Hall. right. exact Hx. }
    rewrite Hnone. cbn [length Nat.eqb andb fst snd store world]. auto.
Qed.

Lemma scrapeWiki_incremental_keeps_pages_witness :
  let W := example_wiki in
  let T := example_tokenizer in
  option_map (fun x => (map WikiPageRow.title (pages (store (fst x))), snd x))
    (scrapeWiki 5 true 1 example_run)
  = Some ([js "Fishing"; js "Cooking"; js "Fishing Rod"; js "Quests"; js "Racing"], None)
  /\ exists r' e,
       scrapeWiki 5 true 1 example_run = Some (r', e)
       /\ (forall row, In row (pages (store example_run)) -> In row (pages (store r')))
       /\ (forall titles r0,
             (forall t, In t titles -> In t (getAllTitles (store r0))) ->
             store (fst (scrape_titles true 1 titles r0)) = store r0
             /\ world (fst (scrape_titles true 1 titles r0)) = world r0
             /\ snd (scrape_titles true 1 titles r0) = None).
Proof.
  cbv zeta. split; [vm_compute; reflexivity|].
  assert (Hs : match scrapeWiki (H := example_wiki) (H0 := example_tokenizer) 5 true 1 example_run with
               | Some _ => true
               | None => false
               end = true) by (vm_compute; reflexivity).
  destruct (scrapeWiki (H := example_wiki) (H0 := example_tokenizer) 5 true 1 example_run)
    as [[r' e]|] eqn:E; [|discriminate Hs].
  exists r', e. split; [reflexivity|].
    apply (scrapeWiki_incremental_keeps_pages (H := example_wiki) (H0 := example_tokenizer)
             5 1 example_run r' e E).
Defined.

(** ** Numeric character references *)

Lemma fromCharCode_small n : n < 2 ^ 53 -> fromCharCode n = [n mod 65536].
Proof.
  intros Hn. unfold fromCharCode, to_double.
  assert (Hs : N.size n <= 53).
  { destruct (N.eq_dec n 0) as [->|Hne]; [cbn; lia|].
    rewrite N.size_log2 by exact Hne.
    assert (N.log2 n < 53) by (apply N.log2_lt_pow2; lia). lia. }
  destruct (N.leb_spec 69 (N.size n)); [lia|].
  destruct (N.leb_spec (N.size n) 53); [reflexivity | lia].
Qed.

(** A greedy star over a class takes the whole run when the pattern after
    it matches there. *)
Lemma star_loop_greedy_all f neg items k c t st' :
  Forall (fun y => xorb neg (cls_has f items y) = true) c ->
  match t with [] => True | y :: _ => xorb neg (cls_has f items y) = false end ->
  (forall pv' cs, k {| prev := pv'; rest := t; caps := cs |} = Some (st' cs)) ->
  forall n pv cs, (length (c ++ t) <= n)%nat ->
    star_loop (m f (Cls neg items)) true k n {| prev := pv; rest := c ++ t; caps := cs |}
    = Some (st' cs).
Proof.
  intros Hc Ht Hk. induction Hc as [|x c Hx _ IH]; intros n pv cs Hn.
  - cbn [app]. destruct n as [|n]; cbn [star_loop]; [apply Hk|].
    destruct t as [|y t'].
    + rewrite m_Cls_nil. cbn [or_else]. apply Hk.
    + rewrite m_Cls_cons, Ht. cbn [or_else]. apply Hk.
  - cbn [app length] in *. destruct n as [|n]; [lia|].
    cbn [star_loop]. rewrite m_Cls_cons, Hx. cbn [rest length].
    rewrite (proj2 (Nat.ltb_lt (length (c ++ t)) (S (length (c ++ t))))) by lia.
    rewrite IH by lia. reflexivity.
Qed.
Lemma cls_has_digit y : cls_has fl_none [CDigit] y = is_digit y.
Proof.
  unfold cls_has. cbn [existsb item_has ignoreCase fl_none andb].
  rewrite !orb_false_r. reflexivity.
Qed.

Lemma firstn_snoc_length {A} (l : list A) x : firstn (length (l ++ [x]) - 1) (l ++ [x]) = l.
Proof.
  rewrite length_app. cbn [length]. rewrite Nat.add_sub.
  rewrite firstn_app, Nat.sub_diag, firstn_all. cbn [firstn]. apply app_nil_r.
Qed.

(** The pattern "/&#(\d+);/" on one reference: group 1 is the digits. *)
Lemma match_at_decimal_reference pv d :
  d <> [] -> forallb is_digit d = true ->
  match_at fl_none (seqs [lit "&#"; Grp 1 (Plus true (Cls false [CDigit])); lit ";"]) pv
    (38 :: 35 :: d ++ [59])
  = Some {| prev := Some 59; rest := []; caps := [(1%nat, d)] |}.
Proof.
  intros Hne Hd. destruct d as [|x d]; [contradiction|].
  cbn [forallb] in Hd. apply andb_prop in Hd as [Hx Hd].
  unfold match_at.
  change (seqs [lit "&#"; Grp 1 (Plus true (Cls false [CDigit])); lit ";"])
    with (Seq (Seq (Chr 38) (Chr 35))
            (Seq (Grp 1 (Seq (Cls false [CDigit]) (Star true (Cls false [CDigit]))))
               (Chr 59))).
  rewrite !m_Seq, m_Chr_cons. change (chr_match fl_none 38 38) with true. cbv iota beta.
  rewrite m_Chr_cons. change (chr_match fl_none 35 35) with true. cbv iota beta.
  rewrite m_Seq, m_Grp, m_Seq. cbn [app]. rewrite m_Cls_cons.
  cbn [xorb]. rewrite cls_has_digit, Hx. cbv beta. rewrite m_Star. cbn [rest].
  rewrite (star_loop_greedy_all fl_none false [CDigit] _ d [59]
             (fun cs => {| prev := Some 59; rest := []; caps := (1%nat, x :: d) :: cs |})).
  - reflexivity.
  - apply Forall_forall. intros y Hy. cbn [xorb]. rewrite cls_has_digit.
    rewrite forallb_forall in Hd. apply Hd. exact Hy.
  - reflexivity.
  - intros pv' cs. unfold set_cap, consumed. cbn [prev rest caps].
    change (x :: d ++ [59]) with ((x :: d) ++ [59]).
    change (length [59]) with 1%nat. rewrite firstn_snoc_length.
    rewrite m_Chr_cons. reflexivity.
  - lia.
Qed.
(** The passes over the entity table leave a numeric reference alone. *)
Lemma replace_all_amp_hash (r : re) b r' rp t :
  r = Seq (Chr 38) (Seq (Chr b) r') ->
  chr_match fl_i b 35 = false ->
  free_of (fun c => c =? 38) t ->
  replace_all fl_i r rp (38 :: 35 :: t) = 38 :: 35 :: t.
Proof.
  intros -> Hb Ht. unfold replace_all.
  rewrite replace_go_cons_none.
  - f_equal. apply (replace_go_avoid (fun c => c =? 38)); [reflexivity|].
    constructor; [reflexivity | exact Ht].
  - unfold match_at. rewrite m_Seq, m_Chr_cons.
    change (chr_match fl_i 38 38) with true. cbv iota beta.
    rewrite m_Seq, m_Chr_cons, Hb. reflexivity.
Qed.

Lemma digit_upper a : is_digit a = true -> ascii_upper a = a.
Proof.
  unfold is_digit, ascii_upper, is_lower. intros H.
  apply andb_prop in H as [H1 H2]. apply N.leb_le in H1, H2.
  destruct (N.leb_spec 97 a); [lia | reflexivity].
Qed.

Lemma match_at_apos_reference pv d :
  forallb is_digit d = true -> d <> [51; 57] ->
  match_at fl_i (lit "&#39;") pv (38 :: 35 :: d ++ [59]) = None.
Proof.
  intros Hd Hne. unfold match_at.
  change (lit "&#39;")
    with (Seq (Chr 38) (Seq (Chr 35) (Seq (Chr 51) (Seq (Chr 57) (Chr 59))))).
  rewrite m_Seq, m_Chr_cons. change (chr_match fl_i 38 38) with true. cbv iota beta.
  rewrite m_Seq, m_Chr_cons. change (chr_match fl_i 35 35) with true. cbv iota beta.
  assert (Hdig : forall c a, is_digit a = true -> is_digit c = true ->
                   chr_match fl_i c a = (c =? a)).
  { intros c a Ha Hc. unfold chr_match. cbn [ignoreCase fl_i].
    rewrite (digit_upper a Ha), (digit_upper c Hc). reflexivity. }
  assert (Hsemi : forall a, is_digit a = true -> chr_match fl_i 59 a = false).
  { intros a Ha. unfold chr_match. cbn [ignoreCase fl_i]. rewrite (digit_upper a Ha).
    unfold is_digit in Ha. apply andb_prop in Ha as [H1 H2]. apply N.leb_le in H1, H2.
    apply N.eqb_neq. change (ascii_upper 59) with 59. lia. }
  destruct d as [|a [|b [|c d']]]; cbn [forallb app] in *.
  - rewrite m_Seq, m_Chr_cons. reflexivity.
  - apply andb_prop in Hd as [Ha _].
    rewrite m_Seq, m_Chr_cons. destruct (chr_match fl_i 51 a); [|reflexivity].
    cbv beta. rewrite m_Seq, m_Chr_cons. reflexivity.
  - apply andb_prop in Hd as [Ha Hd]. apply andb_prop in Hd as [Hb _].
    rewrite m_Seq, m_Chr_cons, (Hdig 51 a Ha eq_refl).
    destruct (N.eqb_spec 51 a) as [<-|]; [|reflexivity].
    cbv beta. rewrite m_Seq, m_Chr_cons, (Hdig 57 b Hb eq_refl).
    destruct (N.eqb_spec 57 b) as [<-|]; [|reflexivity].
    contradiction Hne. reflexivity.
  - apply andb_prop in Hd as [Ha Hd]. apply andb_prop in Hd as [Hb Hd].
    apply andb_prop in Hd as [Hc _].
    rewrite m_Seq, m_Chr_cons. destruct (chr_match fl_i 51 a); [|reflexivity].
    cbv beta. rewrite m_Seq, m_Chr_cons. destruct (chr_match fl_i 57 b); [|reflexivity].
    cbv beta. rewrite m_Chr_cons, (Hsemi c Hc). reflexivity.
Qed.

Lemma digits_free_of_amp d :
  forallb is_digit d = true -> free_of (fun c => c =? 38) (d ++ [59]).
Proof.
  intros Hd. apply Forall_app. split; [|repeat constructor].
  apply Forall_forall. intros x Hx. rewrite forallb_forall in Hd. specialize (Hd x Hx).
  unfold is_digit in Hd. apply andb_prop in Hd as [H1 _]. apply N.leb_le in H1.
  apply N.eqb_neq. lia.
Qed.

Lemma entity_passes_keep_reference d :
  forallb is_digit d = true -> d <> [51; 57] ->
  fold_left (fun t e => replace_all fl_i (lit (fst e)) (subst [RLit (snd e)]) t) entities
    (38 :: 35 :: d ++ [59])
  = 38 :: 35 :: d ++ [59].
Proof.
  intros Hd Hne. pose proof (digits_free_of_amp d Hd) as Hfree.
  unfold entities. cbn [fold_left fst snd].
  repeat (erewrite replace_all_amp_hash; [| reflexivity | reflexivity | exact Hfree]).
  assert (Hapos : replace_all fl_i (lit "&#39;") (subst [RLit (js "'")]) (38 :: 35 :: d ++ [59])
                  = 38 :: 35 :: d ++ [59]).
  { unfold replace_all. rewrite replace_go_cons_none by (apply match_at_apos_reference; assumption).
    f_equal. apply (replace_go_avoid (fun c => c =? 38)); [reflexivity|].
    constructor; [reflexivity | exact Hfree]. }
  rewrite Hapos.
  repeat (erewrite replace_all_amp_hash; [| reflexivity | reflexivity | exact Hfree]).
  reflexivity.
Qed.
Lemma skipn_all_length {A} (l : list A) : skipn (length l) l = [].
Proof. induction l; [reflexivity | assumption]. Qed.

(** X18.  A decimal character reference on its own.  [decodeHtmlEntities]
    turns the text of a reference, [&#], decimal digits and [;], into one
    code unit: the number, below 2^53, taken modulo 65536.  So a reference
    to a character above U+FFFF does not give that character (221 for
    [&#65757;], not a surrogate pair). *)
Theorem decodeHtmlEntities_decimal_reference (d : str) :
  d <> [] -> forallb is_digit d = true -> parseInt 10 d < 2 ^ 53 ->
  decodeHtmlEntities (js "&#" ++ d ++ js ";") = [parseInt 10 d mod 65536].
Proof.
  intros Hne Hd Hn.
  change (js "&#" ++ d ++ js ";") with (38 :: 35 :: d ++ [59]).
  destruct (list_eq_dec N.eq_dec d [51; 57]) as [->|H39]; [vm_compute; reflexivity|].
  unfold decodeHtmlEntities. cbv zeta.
  rewrite (entity_passes_keep_reference d Hd H39).
  assert (Edec : replace_all fl_none
                   (seqs [lit "&#"; Grp 1 (Plus true (Cls false [CDigit])); lit ";"])
                   (fun _ g => fromCharCode (parseInt 10 (g 1%nat))) (38 :: 35 :: d ++ [59])
                 = [parseInt 10 d mod 65536]).
  { unfold replace_all.
    destruct (replace_go_cons_match fl_none _
                (fun _ g => fromCharCode (parseInt 10 (g 1%nat))) None 38 (35 :: d ++ [59])
                _ (length (35 :: d ++ [59]))
                (match_at_decimal_reference None d Hne Hd)) as [pv' E].
    { cbn [rest length]. lia. }
    rewrite E, skipn_all_length. cbn [caps cap_get Nat.eqb].
    rewrite (fromCharCode_small _ Hn). reflexivity. }
  rewrite Edec.
  set (u := parseInt 10 d mod 65536).
  unfold replace_all. rewrite replace_go_cons_none; [reflexivity|].
  unfold match_at.
  change (seqs [lit "&#x"; Grp 1 (Plus true (Cls false [CRange 48 57; CRange 97 102]));
                lit ";"])
    with (Seq (Seq (Chr 38) (Seq (Chr 35) (Chr 120)))
            (Seq (Grp 1 (Plus true (Cls false [CRange 48 57; CRange 97 102]))) (Chr 59))).
  rewrite !m_Seq, m_Chr_cons. destruct (chr_match fl_i 38 u); [|reflexivity].
  cbv beta. rewrite m_Seq, m_Chr_nil. reflexivity.
Qed.

Lemma decodeHtmlEntities_decimal_reference_witness :
  js "65757" <> []
  /\ forallb is_digit (js "65757") = true
  /\ parseInt 10 (js "65757") < 2 ^ 53
  /\ decodeHtmlEntities (js "&#" ++ js "65757" ++ js ";") = [parseInt 10 (js "65757") mod 65536]
  /\ parseInt 10 (js "65757") mod 65536 = 221.
Proof.
  assert (H1 : js "65757" <> []) by discriminate.
  assert (H2 : forallb is_digit (js "65757") = true) by reflexivity.
  assert (H3 : parseInt 10 (js "65757") < 2 ^ 53) by reflexivity.
  split; [exact H1|]. split; [exact H2|]. split; [exact H3|].
  split; [|reflexivity].
  apply (decodeHtmlEntities_decimal_reference (js "65757") H1 H2 H3).
Defined.
